(** * LRU caches with TTL expiration: the Go implementations of
    rselbach/agent-comparison, embedded and checked against their
    specification.

    Every implementation keeps a [map] from keys to the elements of a
    [container/list] recency list (front = most recently used).  The
    embedding keeps both: the map is a [gmap] from the key to the entry its
    list element carries, and the list is the sequence of elements from front
    to back, each element named by the key of its entry.  Clock readings are
    arguments of the operations ([now]); the mutex is not modelled, every
    operation is one atomic step. *)

From stdpp Require Import gmap strings list fin_maps sorting.
From Stdlib Require Import ZArith Lia Sorted.

(** ** Go's [time] package *)

(** An instant is the number of nanoseconds since the zero [time.Time]; a
    [time.Duration] is a number of nanoseconds.  Saturation of [Add] at the
    ends of the representable range and monotonic clock readings are not
    modelled. *)
Abbreviation Time := Z (only parsing).
Abbreviation Duration := Z (only parsing).

Module GoTime.
Definition zero : Time := 0%Z.
Definition IsZero (t : Time) : bool := (t =? 0)%Z.
(** [After t u] is Go's [t.After(u)]. *)
Definition After (t u : Time) : bool := (u <? t)%Z.
(** [Before t u] is Go's [t.Before(u)]. *)
Definition Before (t u : Time) : bool := (t <? u)%Z.
Definition Add (t : Time) (d : Duration) : Time := (t + d)%Z.
Definition Millisecond : Duration := 1000000%Z.
Definition Second : Duration := 1000000000%Z.
Definition Minute : Duration := 60000000000%Z.
End GoTime.

(** ** Go's [container/list], elements named by key *)

Module GoList.
Section GoList.
Context {K : Type} `{EqDecision K}.

Definition PushFront (k : K) (l : list K) : list K := k :: l.
Definition Remove (k : K) (l : list K) : list K := filter (λ x, x ≠ k) l.
(** [MoveToFront] does nothing for an element that is not in the list. *)
Definition MoveToFront (k : K) (l : list K) : list K :=
  if decide (k ∈ l) then k :: Remove k l else l.
Definition Back (l : list K) : option K := last l.
Definition Front (l : list K) : option K := head l.
Definition Len (l : list K) : Z := Z.of_nat (length l).
End GoList.
Global Arguments PushFront : simpl never.
Global Arguments Remove : simpl never.
Global Arguments MoveToFront : simpl never.
Global Arguments Back : simpl never.
Global Arguments Len : simpl never.
End GoList.

(** ** Go channels used as stop signals *)

Module GoChan.
(** A [chan struct{}] that is only ever closed: its state is whether it has
    been closed. *)
Record chan := { closed : bool }.
Definition make : chan := {| closed := false |}.
(** [close(ch)] panics on a channel that is already closed. *)
Definition close (ch : chan) : option chan :=
  if closed ch then None else Some {| closed := true |}.
End GoChan.

(** The map and the list name the same elements, each once. *)
Definition store_wf `{Countable K} {E : Type} (m : gmap K E) (l : list K) : Prop :=
  NoDup l ∧ ∀ k, k ∈ l ↔ is_Some (m !! k).


(** ** src/unnamed/part_003, package lru: [Cache] with options and errors *)

Module Part003.
Import GoTime.
Section Cache.
Context `{Countable K} {V : Type}.

Inductive error := ErrInvalidCapacity | ErrNegativeTTL.

Definition defaultCleanupInterval : Duration := Second.

(** The [key] field of the Go struct is the index of the entry in
    [entries]. *)
Record entry := { value : V; expiresAt : Time }.

(** The [clock] field is the source of the [now] arguments below. *)
Record config := { cfg_defaultTTL : Duration; cfg_cleanupInterval : Duration }.

Definition Option := config → config.

Definition WithDefaultTTL (ttl : Duration) : Option :=
  λ cfg, {| cfg_defaultTTL := ttl; cfg_cleanupInterval := cfg_cleanupInterval cfg |}.

Definition WithCleanupInterval (interval : Duration) : Option :=
  λ cfg, {| cfg_defaultTTL := cfg_defaultTTL cfg; cfg_cleanupInterval := interval |}.

(** [stopOnce] is the done flag of the [sync.Once]. *)
Record Cache := {
  capacity : Z;
  entries : gmap K entry;
  order : list K;
  defaultTTL : Duration;
  cleanupInterval : Duration;
  stopOnce : bool;
  stopCh : GoChan.chan
}.

Definition with_store (c : Cache) (m : gmap K entry) (l : list K) : Cache :=
  {| capacity := capacity c; entries := m; order := l;
     defaultTTL := defaultTTL c; cleanupInterval := cleanupInterval c;
     stopOnce := stopOnce c; stopCh := stopCh c |}.

(** [New] returns either the cache or the error. *)
Definition New (capacity : Z) (opts : list Option) : Cache + error :=
  if (capacity <=? 0)%Z then inr ErrInvalidCapacity else
  let cfg := foldl (λ cfg opt, opt cfg)
               {| cfg_defaultTTL := 0; cfg_cleanupInterval := defaultCleanupInterval |}
               opts in
  if (cfg_defaultTTL cfg <? 0)%Z then inr ErrNegativeTTL else
  let interval := if (cfg_cleanupInterval cfg <=? 0)%Z
                  then defaultCleanupInterval else cfg_cleanupInterval cfg in
  inl {| capacity := capacity; entries := ∅; order := [];
         defaultTTL := cfg_defaultTTL cfg; cleanupInterval := interval;
         stopOnce := false; stopCh := GoChan.make |}.

Definition isExpired (ent : entry) (now : Time) : bool :=
  if IsZero (expiresAt ent) then false
  else negb (After (expiresAt ent) now).

Definition removeElementLocked (elem : K) (c : Cache) : Cache :=
  with_store c (delete elem (entries c)) (GoList.Remove elem (order c)).

(** The loop [for c.order.Len() > c.capacity]; every iteration removes one
    element, so [n] iterations suffice for a list of [n] elements. *)
Fixpoint enforceCapacity_loop (n : nat) (c : Cache) : Cache :=
  match n with
  | O => c
  | S n' =>
      if (GoList.Len (order c) >? capacity c)%Z then
        match GoList.Back (order c) with
        | None => c
        | Some tail => enforceCapacity_loop n' (removeElementLocked tail c)
        end
      else c
  end.

Definition enforceCapacityLocked (c : Cache) : Cache :=
  enforceCapacity_loop (length (order c)) c.

(** The loop walks from [Back] with [Prev] saved before a removal: every
    element of the list is visited once, back to front. *)
Definition removeExpiredLocked (now : Time) (c : Cache) : Cache :=
  foldl (λ c elem,
           match entries c !! elem with
           | Some ent => if isExpired ent now then removeElementLocked elem c else c
           | None => c
           end)
        c (reverse (order c)).

Definition SetWithTTL (key : K) (val : V) (ttl : Duration) (now : Time)
    (c : Cache) : Cache * option error :=
  if (ttl <? 0)%Z then (c, Some ErrNegativeTTL) else
  let ttlToUse := if (ttl =? 0)%Z then defaultTTL c else ttl in
  let expiresAt := if (ttlToUse >? 0)%Z then Add now ttlToUse else zero in
  let ent := {| value := val; expiresAt := expiresAt |} in
  match entries c !! key with
  | Some _ =>
      (with_store c (<[key := ent]> (entries c)) (GoList.MoveToFront key (order c)),
       None)
  | None =>
      (enforceCapacityLocked
         (with_store c (<[key := ent]> (entries c)) (GoList.PushFront key (order c))),
       None)
  end.

Definition Set_ (key : K) (val : V) (now : Time) (c : Cache) : Cache * option error :=
  SetWithTTL key val 0 now c.

(** [None] is Go's [(zero, false)], [Some v] is [(v, true)]. *)
Definition Get (key : K) (now : Time) (c : Cache) : Cache * option V :=
  match entries c !! key with
  | None => (c, None)
  | Some ent =>
      if isExpired ent now then (removeElementLocked key c, None)
      else (with_store c (entries c) (GoList.MoveToFront key (order c)),
            Some (value ent))
  end.

Definition Delete (key : K) (c : Cache) : Cache * bool :=
  match entries c !! key with
  | None => (c, false)
  | Some _ => (removeElementLocked key c, true)
  end.

Definition Len (now : Time) (c : Cache) : Cache * Z :=
  let c' := removeExpiredLocked now c in (c', GoList.Len (order c')).

Definition Capacity (c : Cache) : Z := capacity c.

(** [None] is a panic. *)
Definition Close (c : Cache) : option Cache :=
  if stopOnce c then Some c
  else match GoChan.close (stopCh c) with
       | Some ch =>
           Some {| capacity := capacity c; entries := entries c; order := order c;
                   defaultTTL := defaultTTL c; cleanupInterval := cleanupInterval c;
                   stopOnce := true; stopCh := ch |}
       | None => None
       end.

(** One tick of [runCleanup]. *)
Definition removeExpiredEntries (now : Time) (c : Cache) : Cache :=
  removeExpiredLocked now c.

(** *** Histories of calls *)

Inductive call :=
| CallSet (key : K) (val : V)
| CallSetWithTTL (key : K) (val : V) (ttl : Duration)
| CallGet (key : K)
| CallDelete (key : K)
| CallLen
| CallCapacity
| CallClose
| Tick.

(** A call together with the clock reading it sees. *)
Definition event : Type := Time * call.

Definition step (ev : event) (c : Cache) : Cache :=
  match ev.2 with
  | CallSet k v => (Set_ k v ev.1 c).1
  | CallSetWithTTL k v ttl => (SetWithTTL k v ttl ev.1 c).1
  | CallGet k => (Get k ev.1 c).1
  | CallDelete k => (Delete k c).1
  | CallLen => (Len ev.1 c).1
  | CallCapacity => c
  | CallClose => default c (Close c)
  | Tick => removeExpiredEntries ev.1 c
  end.

(** A history lists the most recent event first. *)
Definition run (c0 : Cache) (h : list event) : Cache := foldr step c0 h.

(** The key an event touches in the state it finds: the key of a [Set] that
    is not rejected, or of a [Get] that returns a value. *)
Definition touch (ev : event) (c : Cache) : option K :=
  match ev.2 with
  | CallSet k _ => Some k
  | CallSetWithTTL k _ ttl => if (ttl <? 0)%Z then None else Some k
  | CallGet k => match (Get k ev.1 c).2 with Some _ => Some k | None => None end
  | _ => None
  end.

(** The position in the history (1 = oldest event) of the last touch of
    [k], 0 when it was never touched. *)
Fixpoint last_touch (c0 : Cache) (h : list event) (k : K) : nat :=
  match h with
  | [] => 0
  | ev :: older =>
      if decide (touch ev (run c0 older) = Some k) then S (length older)
      else last_touch c0 older k
  end.

(** The entries of the store that are not expired at [now]. *)
Definition live (now : Time) (c : Cache) : gmap K entry :=
  filter (λ kv, isExpired kv.2 now = false) (entries c).

(** The invariant of the store: map and list agree, and the capacity is
    positive and respected. *)
Definition inv (c : Cache) : Prop :=
  store_wf (entries c) (order c) ∧ (0 < capacity c)%Z ∧
  (GoList.Len (order c) ≤ capacity c)%Z.

(** [newer c0 h a b]: in the history [h] from [c0], [a] was touched after
    [b]. *)
Definition newer (c0 : Cache) (h : list event) (a b : K) : Prop :=
  last_touch c0 h b < last_touch c0 h a.
End Cache.
Global Arguments entry : clear implicits.
Global Arguments Cache _ {_ _} _.
Global Arguments call : clear implicits.
Global Arguments event : clear implicits.
End Part003.

(** ** src/agent14/lru.go, package agent14 *)

Module Agent14.
Import GoTime.
Section Cache.
Context {V : Type}.

Inductive error := ErrNotFound.

Record entry := { value : V; expiresAt : Time }.

Record Cache := {
  capacity : Z;
  items : gmap string entry;
  order : list string;
  stopCh : GoChan.chan
}.

Record Config := { Capacity : Z; CleanupInterval : Duration }.

Definition with_store (c : Cache) (m : gmap string entry) (l : list string) : Cache :=
  {| capacity := capacity c; items := m; order := l; stopCh := stopCh c |}.

(** The cleanup goroutine is started when [CleanupInterval > 0]; its ticks
    are the calls of [removeExpired]. *)
Definition New (cfg : Config) : Cache :=
  let capacity := if (Capacity cfg <=? 0)%Z then 128%Z else Capacity cfg in
  {| capacity := capacity; items := ∅; order := []; stopCh := GoChan.make |}.

Definition removeElementLocked (elem : string) (c : Cache) : Cache :=
  with_store c (delete elem (items c)) (GoList.Remove elem (order c)).

Definition removeOldestLocked (c : Cache) : Cache :=
  match GoList.Back (order c) with
  | Some elem => removeElementLocked elem c
  | None => c
  end.

Definition Set_ (key : string) (val : V) (ttl : Duration) (now : Time)
    (c : Cache) : Cache :=
  let expiresAt := if (ttl >? 0)%Z then Add now ttl else zero in
  let ent := {| value := val; expiresAt := expiresAt |} in
  match items c !! key with
  | Some _ => with_store c (<[key := ent]> (items c)) (GoList.MoveToFront key (order c))
  | None =>
      let c' := with_store c (<[key := ent]> (items c)) (GoList.PushFront key (order c)) in
      if (Z.of_nat (size (items c')) >? capacity c')%Z
      then removeOldestLocked c' else c'
  end.

Definition Get (key : string) (now : Time) (c : Cache) : Cache * (V + error) :=
  match items c !! key with
  | None => (c, inr ErrNotFound)
  | Some ent =>
      if IsZero (expiresAt ent) || Before now (expiresAt ent)
      then (with_store c (items c) (GoList.MoveToFront key (order c)), inl (value ent))
      else (removeElementLocked key c, inr ErrNotFound)
  end.

Definition Delete (key : string) (c : Cache) : Cache * bool :=
  match items c !! key with
  | None => (c, false)
  | Some _ => (removeElementLocked key c, true)
  end.

Definition Len (c : Cache) : Z := Z.of_nat (size (items c)).

Definition Clear (c : Cache) : Cache := with_store c ∅ [].

(** [None] is a panic. *)
Definition Close (c : Cache) : option Cache :=
  match GoChan.close (stopCh c) with
  | Some ch =>
      Some {| capacity := capacity c; items := items c; order := order c; stopCh := ch |}
  | None => None
  end.

Definition removeExpired (now : Time) (c : Cache) : Cache :=
  foldl (λ c elem,
           match items c !! elem with
           | Some ent =>
               if negb (IsZero (expiresAt ent)) && After now (expiresAt ent)
               then removeElementLocked elem c else c
           | None => c
           end)
        c (reverse (order c)).

Inductive call :=
| CallSet (key : string) (val : V) (ttl : Duration)
| CallGet (key : string)
| CallDelete (key : string)
| CallLen
| CallClear
| Tick.

Definition event : Type := Time * call.

Definition step (ev : event) (c : Cache) : Cache :=
  match ev.2 with
  | CallSet k v ttl => Set_ k v ttl ev.1 c
  | CallGet k => (Get k ev.1 c).1
  | CallDelete k => (Delete k c).1
  | CallLen => c
  | CallClear => Clear c
  | Tick => removeExpired ev.1 c
  end.

(** A history lists the most recent event first. *)
Definition run (c0 : Cache) (h : list event) : Cache := foldr step c0 h.

(** The stored entries that [Get] would still return at [now]. *)
Definition live (now : Time) (c : Cache) : gmap string entry :=
  filter (λ kv, IsZero (expiresAt kv.2) || Before now (expiresAt kv.2) = true) (items c).

(** The stored entries that [Get] would report not-found at [now]. *)
Definition stale (now : Time) (c : Cache) : gmap string entry :=
  filter (λ kv, ¬ (IsZero (expiresAt kv.2) || Before now (expiresAt kv.2) = true))
    (items c).

Definition inv (c : Cache) : Prop :=
  store_wf (items c) (order c) ∧ (0 < capacity c)%Z ∧
  (GoList.Len (order c) ≤ capacity c)%Z.
End Cache.
Global Arguments entry : clear implicits.
Global Arguments Cache : clear implicits.
Global Arguments call : clear implicits.
Global Arguments event : clear implicits.
End Agent14.

(** ** src/agent13/lru.go, package agent13 *)

Module Agent13.
Import GoTime.
Section Cache.
Context {V : Type}.

Record entry := { value : V; expiration : Time }.

Record Cache := {
  capacity : Z;
  items : gmap string entry;
  evictList : list string;
  stopCleanup : GoChan.chan
}.

Definition with_store (c : Cache) (m : gmap string entry) (l : list string) : Cache :=
  {| capacity := capacity c; items := m; evictList := l; stopCleanup := stopCleanup c |}.

(** The cleanup goroutine is started when [cleanupInterval > 0]; its ticks
    are the calls of [removeExpiredItems]. *)
Definition New (capacity : Z) (cleanupInterval : Duration) : Cache :=
  let capacity := if (capacity <=? 0)%Z then 100%Z else capacity in
  {| capacity := capacity; items := ∅; evictList := []; stopCleanup := GoChan.make |}.

Definition removeElement (elem : string) (c : Cache) : Cache :=
  with_store c (delete elem (items c)) (GoList.Remove elem (evictList c)).

Definition removeOldest (c : Cache) : Cache :=
  match GoList.Back (evictList c) with
  | Some elem => removeElement elem c
  | None => c
  end.

Definition Set_ (key : string) (val : V) (ttl : Duration) (now : Time)
    (c : Cache) : Cache :=
  let expiration := if (ttl >? 0)%Z then Add now ttl else zero in
  let ent := {| value := val; expiration := expiration |} in
  match items c !! key with
  | Some _ =>
      with_store c (<[key := ent]> (items c)) (GoList.MoveToFront key (evictList c))
  | None =>
      let c' := with_store c (<[key := ent]> (items c))
                  (GoList.PushFront key (evictList c)) in
      if (GoList.Len (evictList c') >? capacity c')%Z then removeOldest c' else c'
  end.

Definition Get (key : string) (now : Time) (c : Cache) : Cache * option V :=
  match items c !! key with
  | None => (c, None)
  | Some ent =>
      if negb (IsZero (expiration ent)) && After now (expiration ent)
      then (removeElement key c, None)
      else (with_store c (items c) (GoList.MoveToFront key (evictList c)),
            Some (value ent))
  end.

Definition Delete (key : string) (c : Cache) : Cache * bool :=
  match items c !! key with
  | None => (c, false)
  | Some _ => (removeElement key c, true)
  end.

Definition Len (c : Cache) : Z := GoList.Len (evictList c).

(** The expired elements are collected back to front, then removed. *)
Definition removeExpiredItems (now : Time) (c : Cache) : Cache :=
  let toRemove :=
    filter (λ elem, match items c !! elem with
                    | Some ent =>
                        negb (IsZero (expiration ent)) && After now (expiration ent)
                    | None => false
                    end = true)
           (reverse (evictList c)) in
  foldl (λ c elem, removeElement elem c) c toRemove.

Definition Clear (c : Cache) : Cache := with_store c ∅ [].

(** [None] is a panic. *)
Definition Close (c : Cache) : option Cache :=
  match GoChan.close (stopCleanup c) with
  | Some ch =>
      Some {| capacity := capacity c; items := items c; evictList := evictList c;
              stopCleanup := ch |}
  | None => None
  end.

Inductive call :=
| CallSet (key : string) (val : V) (ttl : Duration)
| CallGet (key : string)
| CallDelete (key : string)
| CallLen
| CallClear
| Tick.

Definition event : Type := Time * call.

Definition step (ev : event) (c : Cache) : Cache :=
  match ev.2 with
  | CallSet k v ttl => Set_ k v ttl ev.1 c
  | CallGet k => (Get k ev.1 c).1
  | CallDelete k => (Delete k c).1
  | CallLen => c
  | CallClear => Clear c
  | Tick => removeExpiredItems ev.1 c
  end.

(** A history lists the most recent event first. *)
Definition run (c0 : Cache) (h : list event) : Cache := foldr step c0 h.

Definition inv (c : Cache) : Prop :=
  store_wf (items c) (evictList c) ∧ (0 < capacity c)%Z ∧
  (GoList.Len (evictList c) ≤ capacity c)%Z.
End Cache.
Global Arguments entry : clear implicits.
Global Arguments Cache : clear implicits.
Global Arguments call : clear implicits.
Global Arguments event : clear implicits.
End Agent13.

(** ** src/agent11/lru/cache.go, package lru: [Cache] with [Peek] *)

Module Agent11.
Import GoTime.
Section Cache.
Context `{Countable K} {V : Type}.

Record options := { opt_defaultTTL : Duration; opt_cleanupInterval : Duration }.

Definition Option := options → options.

Definition WithTTL (ttl : Duration) : Option :=
  λ o, let ttl := if (ttl <? 0)%Z then 0%Z else ttl in
       {| opt_defaultTTL := ttl; opt_cleanupInterval := opt_cleanupInterval o |}.

Definition WithCleanupInterval (interval : Duration) : Option :=
  λ o, let interval := if (interval <=? 0)%Z then 0%Z else interval in
       {| opt_defaultTTL := opt_defaultTTL o; opt_cleanupInterval := interval |}.

Record entry := { value : V; expires : Time }.

(** [stopCh] is [None] for a nil channel. *)
Record Cache := {
  capacity : Z;
  defaultTTL : Duration;
  items : gmap K entry;
  evictionList : list K;
  cleanupInterval : Duration;
  stopCh : option GoChan.chan;
  stopOnce : bool
}.

Definition with_store (c : Cache) (m : gmap K entry) (l : list K) : Cache :=
  {| capacity := capacity c; defaultTTL := defaultTTL c; items := m;
     evictionList := l; cleanupInterval := cleanupInterval c;
     stopCh := stopCh c; stopOnce := stopOnce c |}.

(** [None] is the panic of a capacity that is not positive. *)
Definition New (capacity : Z) (opts : list Option) : option Cache :=
  if (capacity <=? 0)%Z then None else
  let o := foldl (λ o opt, opt o)
             {| opt_defaultTTL := 0; opt_cleanupInterval := 0 |} opts in
  Some {| capacity := capacity; defaultTTL := opt_defaultTTL o; items := ∅;
          evictionList := []; cleanupInterval := opt_cleanupInterval o;
          stopCh := if (opt_cleanupInterval o >? 0)%Z then Some GoChan.make else None;
          stopOnce := false |}.

(** [None] is a panic. *)
Definition Close (c : Cache) : option Cache :=
  if stopOnce c then Some c
  else
    let closed :=
      match stopCh c with
      | Some ch => Some <$> GoChan.close ch
      | None => Some None
      end in
    (λ ch, {| capacity := capacity c; defaultTTL := defaultTTL c; items := items c;
              evictionList := evictionList c; cleanupInterval := cleanupInterval c;
              stopCh := ch; stopOnce := true |}) <$> closed.

Definition expiryTime (ttl : Duration) (now : Time) : Time :=
  if (ttl <=? 0)%Z then zero else Add now ttl.

Definition isExpired (ent : entry) (now : Time) : bool :=
  if IsZero (expires ent) then false else After now (expires ent).

Definition removeElementLocked (element : K) (c : Cache) : Cache :=
  with_store c (delete element (items c)) (GoList.Remove element (evictionList c)).

Definition removeOldestLocked (c : Cache) : Cache :=
  match GoList.Back (evictionList c) with
  | None => c
  | Some element => removeElementLocked element c
  end.

(** Back to front over the list; the result carries the number of entries
    removed. *)
Definition purgeExpiredLocked (now : Time) (c : Cache) : Cache * Z :=
  foldl (λ st element,
           match items st.1 !! element with
           | Some ent =>
               if negb (isExpired ent now) then st
               else (removeElementLocked element st.1, (st.2 + 1)%Z)
           | None => st
           end)
        (c, 0%Z) (reverse (evictionList c)).

(** The loop [for c.evictionList.Len() >= c.capacity]: [n] bounds the
    number of iterations, [None] is a loop that is still running after
    [n] removals. *)
Fixpoint evict_loop (n : nat) (c : Cache) : option Cache :=
  if (GoList.Len (evictionList c) >=? capacity c)%Z then
    match n with
    | O => None
    | S n' => evict_loop n' (removeOldestLocked c)
    end
  else Some c.

(** The clock is read once per call: the reading of the purge is also the
    one of [expiryTime]. *)
Definition SetWithTTL (key : K) (val : V) (ttl : Duration) (now : Time)
    (c : Cache) : option Cache :=
  let c := (purgeExpiredLocked now c).1 in
  let ent := {| value := val; expires := expiryTime ttl now |} in
  match items c !! key with
  | Some _ =>
      Some (with_store c (<[key := ent]> (items c))
              (GoList.MoveToFront key (evictionList c)))
  | None =>
      c ← evict_loop (length (evictionList c)) c;
      Some (with_store c (<[key := ent]> (items c))
              (GoList.PushFront key (evictionList c)))
  end.

Definition Set_ (key : K) (val : V) (now : Time) (c : Cache) : option Cache :=
  SetWithTTL key val (defaultTTL c) now c.

Definition Get (key : K) (now : Time) (c : Cache) : Cache * option V :=
  match items c !! key with
  | None => (c, None)
  | Some ent =>
      if isExpired ent now then (removeElementLocked key c, None)
      else (with_store c (items c) (GoList.MoveToFront key (evictionList c)),
            Some (value ent))
  end.

Definition Peek (key : K) (now : Time) (c : Cache) : Cache * option V :=
  match items c !! key with
  | None => (c, None)
  | Some ent =>
      if isExpired ent now then (removeElementLocked key c, None)
      else (c, Some (value ent))
  end.

Definition Delete (key : K) (c : Cache) : Cache * bool :=
  match items c !! key with
  | None => (c, false)
  | Some _ => (removeElementLocked key c, true)
  end.

Definition Len (now : Time) (c : Cache) : Cache * Z :=
  let c' := (purgeExpiredLocked now c).1 in (c', GoList.Len (evictionList c')).

Definition Cleanup (now : Time) (c : Cache) : Cache * Z := purgeExpiredLocked now c.

Inductive call :=
| CallSet (key : K) (val : V)
| CallSetWithTTL (key : K) (val : V) (ttl : Duration)
| CallGet (key : K)
| CallPeek (key : K)
| CallDelete (key : K)
| CallLen
| CallCleanup
| CallClose.

Definition event : Type := Time * call.

(** A call that does not return leaves no state to continue from: [step]
    keeps the state it started in. *)
Definition step (ev : event) (c : Cache) : Cache :=
  match ev.2 with
  | CallSet k v => default c (Set_ k v ev.1 c)
  | CallSetWithTTL k v ttl => default c (SetWithTTL k v ttl ev.1 c)
  | CallGet k => (Get k ev.1 c).1
  | CallPeek k => (Peek k ev.1 c).1
  | CallDelete k => (Delete k c).1
  | CallLen => (Len ev.1 c).1
  | CallCleanup => (Cleanup ev.1 c).1
  | CallClose => default c (Close c)
  end.

Definition run (c0 : Cache) (h : list event) : Cache := foldr step c0 h.

Definition inv (c : Cache) : Prop :=
  store_wf (items c) (evictionList c) ∧ (0 < capacity c)%Z ∧
  (GoList.Len (evictionList c) ≤ capacity c)%Z.
End Cache.
Global Arguments entry : clear implicits.
Global Arguments Cache _ {_ _} _.
Global Arguments call : clear implicits.
Global Arguments event : clear implicits.
End Agent11.

(** ** src/agent11/lru/cache.go, second package lru: [LRU] with [Put] *)

Module Agent11LRU.
Import GoTime.
Section LRU.
Context {V : Type}.

Record entry := { value : V; expire : Time }.

(** The list field [l] of the Go struct is [lst] here. *)
Record LRU := { capacity : Z; items : gmap string entry; lst : list string }.

(** [New] also starts the [cleanup] goroutine; its ticks are the calls of
    [cleanup_tick]. *)
Definition New (capacity : Z) : LRU :=
  {| capacity := capacity; items := ∅; lst := [] |}.

Definition remove (elem : string) (lru : LRU) : LRU :=
  {| capacity := capacity lru; items := delete elem (items lru);
     lst := GoList.Remove elem (lst lru) |}.

(** The body of one tick of [cleanup]: from the back, remove while the
    element is expired and stop ([break]) at the first one that is not.
    [elems] are the elements still to visit, back first.  The clock is read
    once per tick: the readings of [time.Now()] inside one pass are taken to
    be equal. *)
Fixpoint cleanup_loop (now : Time) (elems : list string) (lru : LRU) : LRU :=
  match elems with
  | [] => lru
  | e :: prev =>
      match items lru !! e with
      | Some ent =>
          if After now (expire ent) then cleanup_loop now prev (remove e lru)
          else lru
      | None => lru
      end
  end.

Definition cleanup_tick (now : Time) (lru : LRU) : LRU :=
  cleanup_loop now (reverse (lst lru)) lru.

(** The lookup under the read lock and the update under the write lock are
    one step here. *)
Definition Get (key : string) (now : Time) (lru : LRU) : LRU * option V :=
  match items lru !! key with
  | None => (lru, None)
  | Some ent =>
      if After now (expire ent) then (remove key lru, None)
      else ({| capacity := capacity lru; items := items lru;
               lst := GoList.MoveToFront key (lst lru) |}, Some (value ent))
  end.

Definition Put (key : string) (val : V) (ttl : Duration) (now : Time)
    (lru : LRU) : LRU :=
  let ent := {| value := val; expire := Add now ttl |} in
  match items lru !! key with
  | Some _ =>
      {| capacity := capacity lru; items := <[key := ent]> (items lru);
         lst := GoList.MoveToFront key (lst lru) |}
  | None =>
      let lru' := {| capacity := capacity lru; items := <[key := ent]> (items lru);
                     lst := GoList.PushFront key (lst lru) |} in
      if (GoList.Len (lst lru') >? capacity lru')%Z then
        match GoList.Back (lst lru') with
        | Some elem => remove elem lru'
        | None => lru'
        end
      else lru'
  end.

Inductive call :=
| CallPut (key : string) (val : V) (ttl : Duration)
| CallGet (key : string)
| Tick.

Definition event : Type := Time * call.

Definition step (ev : event) (lru : LRU) : LRU :=
  match ev.2 with
  | CallPut k v ttl => Put k v ttl ev.1 lru
  | CallGet k => (Get k ev.1 lru).1
  | Tick => cleanup_tick ev.1 lru
  end.

(** A history lists the most recent event first. *)
Definition run (lru0 : LRU) (h : list event) : LRU := foldr step lru0 h.
End LRU.
Global Arguments entry : clear implicits.
Global Arguments LRU : clear implicits.
Global Arguments call : clear implicits.
Global Arguments event : clear implicits.
End Agent11LRU.

(** ** src/agent3/lrucache/lrucache.go, package lrucache *)

Module Agent3.
Import GoTime.
Section Cache.
(** Keys and values are [interface{}]; the keys in use are comparable. *)
Context `{Countable K} {V : Type}.

Record entry := { value : V; expiresAt : Time }.

(** The map [cache] is never nil in a cache built by [New]; the guards
    [c.cache == nil] of the methods are not taken. *)
Record Cache := { maxEntries : Z; ll : list K; cache : gmap K entry }.

Definition New (maxEntries : Z) : Cache :=
  {| maxEntries := maxEntries; ll := []; cache := ∅ |}.

Definition removeElement (e : K) (c : Cache) : Cache :=
  {| maxEntries := maxEntries c; ll := GoList.Remove e (ll c);
     cache := delete e (cache c) |}.

Definition removeOldest (c : Cache) : Cache :=
  match GoList.Back (ll c) with
  | Some ele => removeElement ele c
  | None => c
  end.

Definition Add (key : K) (val : V) (ttl : Duration) (now : Time) (c : Cache) : Cache :=
  let ent := {| value := val; expiresAt := GoTime.Add now ttl |} in
  match cache c !! key with
  | Some _ =>
      {| maxEntries := maxEntries c; ll := GoList.MoveToFront key (ll c);
         cache := <[key := ent]> (cache c) |}
  | None =>
      let c' := {| maxEntries := maxEntries c; ll := GoList.PushFront key (ll c);
                   cache := <[key := ent]> (cache c) |} in
      if negb (maxEntries c' =? 0)%Z && (GoList.Len (ll c') >? maxEntries c')%Z
      then removeOldest c' else c'
  end.

Definition Get (key : K) (now : Time) (c : Cache) : Cache * option V :=
  match cache c !! key with
  | Some ent =>
      if After now (expiresAt ent) then (removeElement key c, None)
      else ({| maxEntries := maxEntries c; ll := GoList.MoveToFront key (ll c);
               cache := cache c |}, Some (value ent))
  | None => (c, None)
  end.

Definition Remove (key : K) (c : Cache) : Cache :=
  match cache c !! key with
  | Some _ => removeElement key c
  | None => c
  end.

Definition Len (c : Cache) : Z := GoList.Len (ll c).

Inductive call :=
| CallAdd (key : K) (val : V) (ttl : Duration)
| CallGet (key : K)
| CallRemove (key : K)
| CallLen.

Definition event : Type := Time * call.

Definition step (ev : event) (c : Cache) : Cache :=
  match ev.2 with
  | CallAdd k v ttl => Add k v ttl ev.1 c
  | CallGet k => (Get k ev.1 c).1
  | CallRemove k => Remove k c
  | CallLen => c
  end.

Definition run (c0 : Cache) (h : list event) : Cache := foldr step c0 h.

Definition inv (c : Cache) : Prop :=
  store_wf (cache c) (ll c) ∧ (0 < maxEntries c)%Z ∧
  (GoList.Len (ll c) ≤ maxEntries c)%Z.
End Cache.
Global Arguments entry : clear implicits.
Global Arguments Cache _ {_ _} _.
Global Arguments call : clear implicits.
Global Arguments event : clear implicits.
End Agent3.

(** ** src/agent1/lru.go, package lrucache *)

Module Agent1.
Import GoTime.
Section LRUCache.
Context {V : Type}.

(** The [element] field is the list element named by the key. *)
Record entry := { value : V; expiresAt : Time }.

Record LRUCache := {
  capacity : Z;
  items : gmap string entry;
  evictList : list string;
  stopChan : GoChan.chan
}.

Definition with_store (c : LRUCache) (m : gmap string entry) (l : list string)
    : LRUCache :=
  {| capacity := capacity c; items := m; evictList := l; stopChan := stopChan c |}.

(** [New] also starts the cleanup goroutine; its ticks are the calls of
    [removeExpired]. *)
Definition New (capacity : Z) : LRUCache :=
  let capacity := if (capacity <=? 0)%Z then 1%Z else capacity in
  {| capacity := capacity; items := ∅; evictList := []; stopChan := GoChan.make |}.

Definition removeEntry (key : string) (c : LRUCache) : LRUCache :=
  with_store c (delete key (items c)) (GoList.Remove key (evictList c)).

Definition removeElement (element : string) (c : LRUCache) : LRUCache :=
  with_store c (delete element (items c)) (GoList.Remove element (evictList c)).

Definition evictLRU (c : LRUCache) : LRUCache :=
  match GoList.Back (evictList c) with
  | Some element => removeElement element c
  | None => c
  end.

Definition Set_ (key : string) (val : V) (ttl : Duration) (now : Time)
    (c : LRUCache) : LRUCache :=
  let ent := {| value := val; expiresAt := Add now ttl |} in
  match items c !! key with
  | Some _ =>
      with_store c (<[key := ent]> (items c)) (GoList.MoveToFront key (evictList c))
  | None =>
      let c' := with_store c (<[key := ent]> (items c))
                  (GoList.PushFront key (evictList c)) in
      if (Z.of_nat (size (items c')) >? capacity c')%Z then evictLRU c' else c'
  end.

Definition Get (key : string) (now : Time) (c : LRUCache) : LRUCache * option V :=
  match items c !! key with
  | None => (c, None)
  | Some ent =>
      if After now (expiresAt ent) then (removeEntry key c, None)
      else (with_store c (items c) (GoList.MoveToFront key (evictList c)),
            Some (value ent))
  end.

Definition Delete (key : string) (c : LRUCache) : LRUCache * bool :=
  match items c !! key with
  | None => (c, false)
  | Some _ => (removeEntry key c, true)
  end.

Definition Clear (c : LRUCache) : LRUCache := with_store c ∅ [].

Definition Len (c : LRUCache) : Z := Z.of_nat (size (items c)).

Definition removeExpired (now : Time) (c : LRUCache) : LRUCache :=
  foldl (λ c element,
           match items c !! element with
           | Some ent =>
               if After now (expiresAt ent) then removeElement element c else c
           | None => c
           end)
        c (reverse (evictList c)).

(** [Close] closes the stop channel, then clears the cache.  [None] is a
    panic. *)
Definition Close (c : LRUCache) : option LRUCache :=
  match GoChan.close (stopChan c) with
  | Some ch =>
      Some (Clear {| capacity := capacity c; items := items c;
                     evictList := evictList c; stopChan := ch |})
  | None => None
  end.

Inductive call :=
| CallSet (key : string) (val : V) (ttl : Duration)
| CallGet (key : string)
| CallDelete (key : string)
| CallClear
| CallLen
| Tick.

Definition event : Type := Time * call.

Definition step (ev : event) (c : LRUCache) : LRUCache :=
  match ev.2 with
  | CallSet k v ttl => Set_ k v ttl ev.1 c
  | CallGet k => (Get k ev.1 c).1
  | CallDelete k => (Delete k c).1
  | CallClear => Clear c
  | CallLen => c
  | Tick => removeExpired ev.1 c
  end.

(** A history lists the most recent event first. *)
Definition run (c0 : LRUCache) (h : list event) : LRUCache := foldr step c0 h.

Definition inv (c : LRUCache) : Prop :=
  store_wf (items c) (evictList c) ∧ (0 < capacity c)%Z ∧
  (GoList.Len (evictList c) ≤ capacity c)%Z.
End LRUCache.
Global Arguments entry : clear implicits.
Global Arguments LRUCache : clear implicits.
Global Arguments call : clear implicits.
Global Arguments event : clear implicits.
End Agent1.

(** ** src/agent12/internal/lru/lru.go, package lru: shutdown *)

Module Agent12.
Import GoTime.
Section Cache.
Context {V : Type}.

Record entry := { value : V; expiresAt : Time }.

(** The goroutine that [New] starts with [go c.cleanup(cleanupInterval)]:
    it runs the loop of [cleanup] until that function returns. *)
Inductive goroutine := Running | Returned.

(** The list field [list] of the Go struct is [lst] here.  [wg] is the
    counter of the [sync.WaitGroup], [closeOnce] whether the [sync.Once]
    has run.  [cleanup_] is no field of the Go struct: it is the state of
    the cleanup goroutine. *)
Record Cache := {
  maxSize : Z;
  items : gmap string entry;
  lst : list string;
  stopCh : GoChan.chan;
  wg : Z;
  closeOnce : bool;
  cleanup_ : goroutine
}.

(** [None] is a panic: of [New] itself for a size that is not positive, or
    of the goroutine it starts, whose [time.NewTicker(interval)] panics for
    an interval that is not positive and ends the process.  An interval of
    0 is replaced by one minute first, so this is the case of a negative
    interval.  [c.wg.Add(1)] makes the counter 1. *)
Definition New (maxSize : Z) (cleanupInterval : Duration) : option Cache :=
  if (maxSize <=? 0)%Z then None else
  let cleanupInterval := if (cleanupInterval =? 0)%Z then Minute else cleanupInterval in
  if (cleanupInterval <=? 0)%Z then None else
  Some {| maxSize := maxSize; items := ∅; lst := []; stopCh := GoChan.make;
          wg := 1; closeOnce := false; cleanup_ := Running |}.

Definition with_store (c : Cache) (m : gmap string entry) (l : list string) : Cache :=
  {| maxSize := maxSize c; items := m; lst := l; stopCh := stopCh c;
     wg := wg c; closeOnce := closeOnce c; cleanup_ := cleanup_ c |}.

Definition removeElement (elem : string) (c : Cache) : Cache :=
  with_store c (delete elem (items c)) (GoList.Remove elem (lst c)).

Definition evict (c : Cache) : Cache :=
  match GoList.Back (lst c) with
  | Some elem => removeElement elem c
  | None => c
  end.

Definition Get (key : string) (now : Time) (c : Cache) : Cache * option V :=
  match items c !! key with
  | None => (c, None)
  | Some ent =>
      if negb (IsZero (expiresAt ent)) && After now (expiresAt ent)
      then (removeElement key c, None)
      else (with_store c (items c) (GoList.MoveToFront key (lst c)), Some (value ent))
  end.

Definition Set_ (key : string) (val : V) (ttl : Duration) (now : Time)
    (c : Cache) : Cache :=
  let expiresAt := if (ttl >? 0)%Z then Add now ttl else zero in
  let ent := {| value := val; expiresAt := expiresAt |} in
  match items c !! key with
  | Some _ => with_store c (<[key := ent]> (items c)) (GoList.MoveToFront key (lst c))
  | None =>
      let c' := with_store c (<[key := ent]> (items c)) (GoList.PushFront key (lst c)) in
      if (GoList.Len (lst c') >? maxSize c')%Z then evict c' else c'
  end.

Definition Delete (key : string) (c : Cache) : Cache :=
  match items c !! key with
  | Some _ => removeElement key c
  | None => c
  end.

Definition Clear (c : Cache) : Cache := with_store c ∅ [].

(** [Len] walks the list from the front and counts the entries that never
    expire or have not expired yet; it removes nothing. *)
Definition Len (now : Time) (c : Cache) : Z :=
  foldl (λ count elem,
           match items c !! elem with
           | Some ent =>
               if IsZero (expiresAt ent) || Before now (expiresAt ent)
               then (count + 1)%Z else count
           | None => count
           end)
        0%Z (lst c).

(** The expired elements are collected front to back, then removed. *)
Definition removeExpired (now : Time) (c : Cache) : Cache :=
  let toRemove :=
    filter (λ elem, match items c !! elem with
                    | Some ent =>
                        negb (IsZero (expiresAt ent)) && After now (expiresAt ent)
                    | None => false
                    end = true)
           (lst c) in
  foldl (λ c elem, removeElement elem c) c toRemove.

(** The two cases of the [select] in the loop of [cleanup]; the ticker case
    carries the clock reading of the sweep it runs. *)
Inductive select_case := CaseStop | CaseTick (now : Time).

(** One pass of the loop [for { select { ... } }] of [cleanup], with the
    case the [select] takes.  A goroutine that has returned runs nothing.
    The stop case can be taken only when [stopCh] is closed (a receive from
    an open channel nobody sends on blocks); the goroutine then returns and
    its deferred [c.wg.Done()] lowers the counter.  The ticker case runs
    [removeExpired]. *)
Definition cleanup_select (case : select_case) (c : Cache) : Cache :=
  match cleanup_ c with
  | Returned => c
  | Running =>
      match case with
      | CaseStop =>
          if GoChan.closed (stopCh c)
          then {| maxSize := maxSize c; items := items c; lst := lst c;
                  stopCh := stopCh c; wg := (wg c - 1)%Z; closeOnce := closeOnce c;
                  cleanup_ := Returned |}
          else c
      | CaseTick now => removeExpired now c
      end
  end.

(** [closeOnce.Do] runs its function at most once: [close(c.stopCh)], then
    [c.wg.Wait()], which returns when the counter is 0.  While [Close] waits
    the goroutine goes on: [sweeps] are the readings of the passes in which
    its [select] takes the ticker case before it takes the stop case.
    [None] is a call that does not return: the panic of closing a closed
    channel, or a [Wait] that finds the counter not 0 after the goroutine
    has come to rest. *)
Definition Close (sweeps : list Time) (c : Cache) : option Cache :=
  if closeOnce c then Some c
  else
    match GoChan.close (stopCh c) with
    | None => None
    | Some ch =>
        let c1 := {| maxSize := maxSize c; items := items c; lst := lst c;
                     stopCh := ch; wg := wg c; closeOnce := true;
                     cleanup_ := cleanup_ c |} in
        let c2 := cleanup_select CaseStop
                    (foldl (λ c now, cleanup_select (CaseTick now) c) c1 sweeps) in
        if (wg c2 =? 0)%Z then Some c2 else None
    end.

Inductive call :=
| CallSet (key : string) (val : V) (ttl : Duration)
| CallGet (key : string)
| CallDelete (key : string)
| CallClear
| CallLen
| CallClose (sweeps : list Time)
| Tick.

Definition event : Type := Time * call.

(** [Tick] is a pass of the cleanup goroutine in which its [select] takes
    the ticker case. *)
Definition step (ev : event) (c : Cache) : Cache :=
  match ev.2 with
  | CallSet k v ttl => Set_ k v ttl ev.1 c
  | CallGet k => (Get k ev.1 c).1
  | CallDelete k => Delete k c
  | CallClear => Clear c
  | CallLen => c
  | CallClose sweeps => default c (Close sweeps c)
  | Tick => cleanup_select (CaseTick ev.1) c
  end.

(** A history lists the most recent event first. *)
Definition run (c0 : Cache) (h : list event) : Cache := foldr step c0 h.

Definition inv (c : Cache) : Prop :=
  store_wf (items c) (lst c) ∧ (0 < maxSize c)%Z ∧
  (GoList.Len (lst c) ≤ maxSize c)%Z.

(** The stored entries that [Len] counts at [now]. *)
Definition live (now : Time) (c : Cache) : gmap string entry :=
  filter (λ kv, IsZero (expiresAt kv.2) || Before now (expiresAt kv.2) = true) (items c).

(** The part of the state that the operations on the entries leave alone. *)
Definition ctl (c : Cache) : Z * GoChan.chan * Z * bool * goroutine :=
  (maxSize c, stopCh c, wg c, closeOnce c, cleanup_ c).

(** Until the [sync.Once] has run, the goroutine runs, the counter is 1 and
    the stop channel is open; afterwards the goroutine has returned, the
    counter is 0 and the channel is closed. *)
Definition sync_inv (c : Cache) : Prop :=
  if closeOnce c
  then cleanup_ c = Returned ∧ wg c = 0%Z ∧ GoChan.closed (stopCh c) = true
  else cleanup_ c = Running ∧ wg c = 1%Z ∧ GoChan.closed (stopCh c) = false.
End Cache.
Global Arguments entry : clear implicits.
Global Arguments Cache : clear implicits.
Global Arguments call : clear implicits.
Global Arguments event : clear implicits.
End Agent12.

(** ** src/unnamed/part_006, package lru: [Cache] with a janitor *)

Module Part006.
Import GoTime.
Section Cache.
Context `{Countable K} {V : Type}.

Record entry := { value : V; expiresAt : Time; ttl : Duration }.

Record janitor := { interval : Duration; stop : GoChan.chan }.

(** The list field [list] of the Go struct is [lst] here; [janitor_] is
    [None] for a nil pointer. *)
Record Cache := {
  cap : Z;
  items : gmap K entry;
  lst : list K;
  janitor_ : option janitor
}.

Definition Option := Cache → Cache.

Definition WithCapacity (c : Z) : Option :=
  λ cache, {| cap := c; items := items cache; lst := lst cache;
              janitor_ := janitor_ cache |}.

Definition WithJanitorInterval (d : Duration) : Option :=
  λ cache,
    match janitor_ cache with
    | Some j =>
        {| cap := cap cache; items := items cache; lst := lst cache;
           janitor_ := Some {| interval := d; stop := stop j |} |}
    | None => cache
    end.

Definition with_store (c : Cache) (m : gmap K entry) (l : list K) : Cache :=
  {| cap := cap c; items := m; lst := l; janitor_ := janitor_ c |}.

(** [startJanitor] starts the janitor goroutine, whose first statement is
    [time.NewTicker(j.interval)]: that call panics for an interval that is
    not positive, and a panic in a goroutine ends the process.  [None] is
    that panic; with a nil janitor no goroutine is started. *)
Definition startJanitor (c : Cache) : option Cache :=
  match janitor_ c with
  | None => Some c
  | Some j => if (interval j <=? 0)%Z then None else Some c
  end.

(** [None] is a panic: of [New] itself for a capacity that is not positive,
    or of the janitor goroutine it starts. *)
Definition New (capacity : Z) (opts : list Option) : option Cache :=
  if (capacity <=? 0)%Z then None else
  startJanitor
    (foldl (λ c o, o c)
       {| cap := capacity; items := ∅; lst := [];
          janitor_ := Some {| interval := (30 * Second)%Z; stop := GoChan.make |} |}
       opts).

Definition removeElementLocked (el : K) (c : Cache) : Cache :=
  with_store c (delete el (items c)) (GoList.Remove el (lst c)).

Definition removeOldestLocked (c : Cache) : Cache :=
  match GoList.Back (lst c) with
  | None => c
  | Some el => removeElementLocked el c
  end.

Definition Set_ (key : K) (val : V) (ttl : Duration) (now : Time) (c : Cache) : Cache :=
  let exp := if (ttl >? 0)%Z then Add now ttl else zero in
  let ent := {| value := val; expiresAt := exp; ttl := ttl |} in
  match items c !! key with
  | Some _ => with_store c (<[key := ent]> (items c)) (GoList.MoveToFront key (lst c))
  | None =>
      let c := if (GoList.Len (lst c) >=? cap c)%Z then removeOldestLocked c else c in
      with_store c (<[key := ent]> (items c)) (GoList.PushFront key (lst c))
  end.

Definition Get (key : K) (now : Time) (c : Cache) : Cache * option V :=
  match items c !! key with
  | None => (c, None)
  | Some ent =>
      if (ttl ent >? 0)%Z && After now (expiresAt ent)
      then (removeElementLocked key c, None)
      else (with_store c (items c) (GoList.MoveToFront key (lst c)), Some (value ent))
  end.

Definition Peek (key : K) (now : Time) (c : Cache) : Cache * option V :=
  match items c !! key with
  | None => (c, None)
  | Some ent =>
      if (ttl ent >? 0)%Z && After now (expiresAt ent)
      then (removeElementLocked key c, None)
      else (c, Some (value ent))
  end.

Definition Delete (key : K) (c : Cache) : Cache * bool :=
  match items c !! key with
  | None => (c, false)
  | Some _ => (removeElementLocked key c, true)
  end.

Definition Len (c : Cache) : Z := GoList.Len (lst c).

Definition Capacity (c : Cache) : Z := cap c.

(** The [select] with a [default] case closes the channel only when it is
    still open.  [None] is a panic. *)
Definition Close (c : Cache) : option Cache :=
  match janitor_ c with
  | None => Some c
  | Some j =>
      if GoChan.closed (stop j) then Some c
      else (λ ch, {| cap := cap c; items := items c; lst := lst c;
                     janitor_ := Some {| interval := interval j; stop := ch |} |})
             <$> GoChan.close (stop j)
  end.

Definition expireScan (now : Time) (c : Cache) : Cache :=
  foldl (λ c el,
           match items c !! el with
           | Some ent =>
               if (ttl ent >? 0)%Z && After now (expiresAt ent)
               then removeElementLocked el c else c
           | None => c
           end)
        c (reverse (lst c)).

Inductive call :=
| CallSet (key : K) (val : V) (ttl : Duration)
| CallGet (key : K)
| CallPeek (key : K)
| CallDelete (key : K)
| CallLen
| CallClose
| Tick.

Definition event : Type := Time * call.

Definition step (ev : event) (c : Cache) : Cache :=
  match ev.2 with
  | CallSet k v ttl => Set_ k v ttl ev.1 c
  | CallGet k => (Get k ev.1 c).1
  | CallPeek k => (Peek k ev.1 c).1
  | CallDelete k => (Delete k c).1
  | CallLen => c
  | CallClose => default c (Close c)
  | Tick => expireScan ev.1 c
  end.

(** A history lists the most recent event first. *)
Definition run (c0 : Cache) (h : list event) : Cache := foldr step c0 h.

(** Map and list agree, and the list holds at most [cap] elements, or one
    when [cap] is not positive. *)
Definition inv (c : Cache) : Prop :=
  store_wf (items c) (lst c) ∧ (GoList.Len (lst c) ≤ Z.max (cap c) 1)%Z.

(** The fields of [Cache] are not exported: outside the package an
    [Option] can only be built with [WithCapacity] or
    [WithJanitorInterval]. *)
Definition exported (o : Option) : Prop :=
  (∃ c, o = WithCapacity c) ∨ (∃ d, o = WithJanitorInterval d).
End Cache.
Global Arguments entry : clear implicits.
Global Arguments Cache _ {_ _} _.
Global Arguments call : clear implicits.
Global Arguments event : clear implicits.
End Part006.

(** * Facts about the list and the store *)

Section ListFacts.
Context {K : Type} `{EqDecision K}.
Implicit Types (k x : K) (l : list K).

Lemma Remove_elem_of x k l : x ∈ GoList.Remove k l ↔ x ∈ l ∧ x ≠ k.
Proof. unfold GoList.Remove. rewrite list_elem_of_filter. tauto. Qed.

Lemma Remove_NoDup k l : NoDup l → NoDup (GoList.Remove k l).
Proof. apply NoDup_filter. Qed.

Lemma Remove_absent k l : k ∉ l → GoList.Remove k l = l.
Proof.
  intros Hk. unfold GoList.Remove. induction l as [|x l IH]; [done|].
  rewrite not_elem_of_cons in Hk. destruct Hk as [Hne Hk].
  rewrite filter_cons_True by congruence. by rewrite IH.
Qed.

Lemma Remove_head k l : k ∉ l → GoList.Remove k (k :: l) = l.
Proof.
  intros Hk. unfold GoList.Remove. rewrite filter_cons_False by (intros Hn; by apply Hn).
  by apply Remove_absent.
Qed.

Lemma Remove_app k l1 l2 :
  GoList.Remove k (l1 ++ l2) = GoList.Remove k l1 ++ GoList.Remove k l2.
Proof. apply filter_app. Qed.

Lemma Remove_back k l : k ∉ l → GoList.Remove k (l ++ [k]) = l.
Proof.
  intros Hk. rewrite Remove_app, (Remove_absent k l Hk).
  unfold GoList.Remove. rewrite filter_cons_False by (intros Hn; by apply Hn).
  by rewrite filter_nil, app_nil_r.
Qed.

Lemma Remove_length_le k l : length (GoList.Remove k l) ≤ length l.
Proof. apply length_filter. Qed.

Lemma Remove_length k l :
  NoDup l → k ∈ l → S (length (GoList.Remove k l)) = length l.
Proof.
  intros Hnd Hk. apply list_elem_of_split in Hk as (l1 & l2 & ->).
  apply NoDup_app in Hnd as (Hnd1 & Hdis & Hnd2).
  apply NoDup_cons in Hnd2 as [Hk2 _].
  rewrite Remove_app, (Remove_absent k l1) by (intros Hin; by eapply Hdis; [|left]).
  rewrite (Remove_head k l2 Hk2), !length_app. simpl. lia.
Qed.

Lemma Remove_sorted (R : relation K) k l :
  StronglySorted R l → StronglySorted R (GoList.Remove k l).
Proof.
  induction 1 as [|x l Hs IH Hall]; [constructor|].
  unfold GoList.Remove. destruct (decide (x ≠ k)).
  - rewrite filter_cons_True by done. constructor; [done|].
    rewrite Forall_forall in Hall. apply Forall_forall.
    intros y [_ Hy]%list_elem_of_filter. by apply Hall.
  - by rewrite filter_cons_False.
Qed.

Lemma MoveToFront_elem_of x k l : x ∈ GoList.MoveToFront k l ↔ x ∈ l.
Proof.
  unfold GoList.MoveToFront. destruct (decide (k ∈ l)) as [Hk|]; [|done].
  rewrite elem_of_cons, Remove_elem_of. destruct (decide (x = k)) as [->|Hne]; tauto.
Qed.

Lemma MoveToFront_NoDup k l : NoDup l → NoDup (GoList.MoveToFront k l).
Proof.
  intros Hnd. unfold GoList.MoveToFront. destruct (decide (k ∈ l)); [|done].
  apply NoDup_cons. split; [|by apply Remove_NoDup].
  rewrite Remove_elem_of. tauto.
Qed.

Lemma MoveToFront_length k l :
  NoDup l → length (GoList.MoveToFront k l) = length l.
Proof.
  intros Hnd. unfold GoList.MoveToFront. destruct (decide (k ∈ l)); [|done].
  simpl. by apply Remove_length.
Qed.

Lemma Back_snoc k l : GoList.Back (l ++ [k]) = Some k.
Proof. apply last_snoc. Qed.

Lemma Back_Some k l : GoList.Back l = Some k → ∃ l', l = l' ++ [k].
Proof. apply last_Some. Qed.

Lemma foldl_preserves {S : Type} (P : S → Prop) (f : S → K → S) ks s :
  (∀ s k, P s → P (f s k)) → P s → P (foldl f s ks).
Proof. intros Hf. revert s. induction ks as [|k ks IH]; simpl; eauto. Qed.
End ListFacts.

Section StoreFacts.
Context `{Countable K} {E : Type}.
Implicit Types (k : K) (m : gmap K E) (l : list K).

Lemma store_wf_empty : store_wf (∅ : gmap K E) [].
Proof.
  split; [constructor|]. intros k. rewrite lookup_empty, elem_of_nil.
  split; [done|]. by intros [? ?].
Qed.

Lemma store_wf_remove k m l :
  store_wf m l → store_wf (delete k m) (GoList.Remove k l).
Proof.
  intros [Hnd Hdom]. split; [by apply Remove_NoDup|].
  intros k'. rewrite Remove_elem_of, Hdom. destruct (decide (k' = k)) as [->|Hne].
  - rewrite lookup_delete_eq. split; [tauto|]. by intros [? ?].
  - rewrite lookup_delete_ne by done. tauto.
Qed.

Lemma store_wf_push k e m l :
  m !! k = None → store_wf m l → store_wf (<[k := e]> m) (GoList.PushFront k l).
Proof.
  intros Hk [Hnd Hdom]. unfold GoList.PushFront. split.
  - apply NoDup_cons. split; [|done]. rewrite Hdom, Hk. by intros [? ?].
  - intros k'. rewrite elem_of_cons, Hdom. destruct (decide (k' = k)) as [->|Hne].
    + rewrite lookup_insert_eq. split; eauto.
    + rewrite lookup_insert_ne by done. tauto.
Qed.

Lemma store_wf_move k m l : store_wf m l → store_wf m (GoList.MoveToFront k l).
Proof.
  intros [Hnd Hdom]. split; [by apply MoveToFront_NoDup|].
  intros k'. by rewrite MoveToFront_elem_of.
Qed.

Lemma store_wf_update k e m l :
  is_Some (m !! k) → store_wf m l → store_wf (<[k := e]> m) l.
Proof.
  intros Hk [Hnd Hdom]. split; [done|]. intros k'. rewrite Hdom.
  destruct (decide (k' = k)) as [->|Hne].
  - rewrite lookup_insert_eq. split; eauto.
  - by rewrite lookup_insert_ne.
Qed.

Lemma store_wf_size m l : store_wf m l → size m = length l.
Proof.
  intros [Hnd Hdom]. rewrite <-size_dom.
  unfold size, set_size. simpl. apply Permutation_length.
  apply NoDup_Permutation; [apply NoDup_elements|done|].
  intros k. by rewrite elem_of_elements, elem_of_dom, Hdom.
Qed.

Lemma store_wf_nil m : store_wf m [] → m = ∅.
Proof.
  intros [_ Hdom]. apply map_empty. intros k.
  destruct (m !! k) eqn:Hk; [|done].
  assert (k ∈ ([] : list K)) as Hin by (rewrite Hdom; eauto).
  by apply elem_of_nil in Hin.
Qed.
End StoreFacts.

(** Every sweep is a loop over the elements that removes the ones a test
    selects.  The facts below hold for any cache type with its own
    [removeElement]. *)
Section SweepFacts.
Context `{Countable K} {E S : Type}.
Context (get_items : S → gmap K E) (get_order : S → list K) (rm : K → S → S).
Context (dead : E → bool).
Hypothesis rm_items : ∀ k s, get_items (rm k s) = delete k (get_items s).
Hypothesis rm_order : ∀ k s, get_order (rm k s) = GoList.Remove k (get_order s).

Local Abbreviation body :=
  (λ s k, match get_items s !! k with
          | Some e => if dead e then rm k s else s
          | None => s
          end).

Lemma sweep_lookup ks s k :
  get_items (foldl body s ks) !! k =
    match get_items s !! k with
    | Some e => if bool_decide (k ∈ ks) && dead e then None else Some e
    | None => None
    end.
Proof.
  revert s. induction ks as [|k0 ks IH]; intros s; simpl.
  - by destruct (get_items s !! k).
  - rewrite IH. destruct (get_items s !! k0) as [e0|] eqn:Hk0.
    + destruct (dead e0) eqn:Hd0.
      * rewrite rm_items. destruct (decide (k = k0)) as [->|Hne].
        -- rewrite lookup_delete_eq, Hk0, Hd0.
           by rewrite bool_decide_eq_true_2 by left.
        -- rewrite lookup_delete_ne by done.
           destruct (get_items s !! k) as [e|]; [|done].
           destruct (decide (k ∈ ks)) as [Hin|Hin].
           ++ by rewrite !bool_decide_eq_true_2 by (by try right).
           ++ rewrite !bool_decide_eq_false_2; [done| |done].
              rewrite elem_of_cons. tauto.
      * destruct (get_items s !! k) as [e|] eqn:Hk; [|done].
        destruct (decide (k = k0)) as [->|Hne].
        -- assert (e = e0) as -> by congruence. rewrite Hd0.
           by rewrite !andb_false_r.
        -- destruct (decide (k ∈ ks)) as [Hin|Hin].
           ++ by rewrite !bool_decide_eq_true_2 by (by try right).
           ++ rewrite !bool_decide_eq_false_2; [done| |done].
              rewrite elem_of_cons. tauto.
    + destruct (get_items s !! k) as [e|] eqn:Hk; [|done].
      assert (k ≠ k0) by congruence.
      destruct (decide (k ∈ ks)) as [Hin|Hin].
      * by rewrite !bool_decide_eq_true_2 by (by try right).
      * rewrite !bool_decide_eq_false_2; [done| |done].
        rewrite elem_of_cons. tauto.
Qed.

Lemma sweep_wf ks s :
  store_wf (get_items s) (get_order s) →
  store_wf (get_items (foldl body s ks)) (get_order (foldl body s ks)).
Proof.
  apply (foldl_preserves (λ s, store_wf (get_items s) (get_order s))).
  intros s' k Hwf. destruct (get_items s' !! k) as [e|]; [|done].
  destruct (dead e); [|done]. rewrite rm_items, rm_order.
  by apply store_wf_remove.
Qed.

Lemma sweep_sorted (R : relation K) ks s :
  StronglySorted R (get_order s) →
  StronglySorted R (get_order (foldl body s ks)).
Proof.
  apply (foldl_preserves (λ s, StronglySorted R (get_order s))).
  intros s' k Hs. destruct (get_items s' !! k) as [e|]; [|done].
  destruct (dead e); [|done]. rewrite rm_order. by apply Remove_sorted.
Qed.

Lemma sweep_length ks s :
  length (get_order (foldl body s ks)) ≤ length (get_order s).
Proof.
  apply (foldl_preserves (λ s', length (get_order s') ≤ length (get_order s))); [|done].
  intros s' k Hs. destruct (get_items s' !! k) as [e|]; [|done].
  destruct (dead e); [|done]. rewrite rm_order.
  pose proof (Remove_length_le k (get_order s')). lia.
Qed.

(** A sweep over the whole list leaves exactly the entries the test does
    not select. *)
Lemma sweep_all_items s :
  store_wf (get_items s) (get_order s) →
  get_items (foldl body s (reverse (get_order s))) =
    filter (λ kv, dead kv.2 = false) (get_items s).
Proof.
  intros [_ Hdom]. apply map_eq. intros k. rewrite sweep_lookup.
  destruct (get_items s !! k) as [e|] eqn:Hk.
  - rewrite bool_decide_eq_true_2 by (rewrite elem_of_reverse, Hdom; eauto).
    simpl. destruct (dead e) eqn:Hd; symmetry.
    + apply map_lookup_filter_None. right. intros e' He'. simpl.
      assert (e' = e) as -> by congruence. by rewrite Hd.
    + apply map_lookup_filter_Some. by split.
  - symmetry. apply map_lookup_filter_None. by left.
Qed.
End SweepFacts.

(** * src/unnamed/part_003: invariants *)

Section Part003Facts.
Context `{Countable K} {V : Type}.
Import Part003.
Implicit Types (c : Cache K V) (k : K) (h : list (event K V)).

Lemma p3_New_inl capacity opts c0 :
  New (K:=K) (V:=V) capacity opts = inl c0 →
  Part003.capacity c0 = capacity ∧ (0 < capacity)%Z ∧
  entries c0 = ∅ ∧ order c0 = [] ∧ (0 ≤ defaultTTL c0)%Z ∧ stopOnce c0 = false.
Proof.
  unfold New. destruct (Z.leb_spec capacity 0); [done|].
  destruct (Z.ltb_spec (cfg_defaultTTL
    (foldl (λ cfg opt, opt cfg)
       {| cfg_defaultTTL := 0; cfg_cleanupInterval := defaultCleanupInterval |} opts)) 0);
    [done|].
  intros [= <-]. simpl. done.
Qed.

Lemma p3_New_inv capacity opts c0 :
  New (K:=K) (V:=V) capacity opts = inl c0 → inv c0.
Proof.
  intros (Hcap & Hpos & Hm & Hl & _)%p3_New_inl. unfold inv.
  rewrite Hm, Hl, Hcap. split; [apply store_wf_empty|].
  unfold GoList.Len. simpl. lia.
Qed.

Lemma p3_enforce_loop_preserves (P : Cache K V → Prop) n c :
  (∀ k c, P c → P (removeElementLocked k c)) → P c → P (enforceCapacity_loop n c).
Proof.
  intros Hrm. revert c. induction n as [|n IH]; intros c Hc; simpl; [done|].
  destruct (GoList.Len (order c) >? capacity c)%Z; [|done].
  destruct (GoList.Back (order c)); [|done]. apply IH, Hrm, Hc.
Qed.

Lemma p3_enforce_loop_capacity n c :
  capacity (enforceCapacity_loop n c) = capacity c.
Proof.
  apply (p3_enforce_loop_preserves (λ c', capacity c' = capacity c)); [|done].
  by intros k c' <-.
Qed.

Lemma p3_enforce_loop_step n c tail :
  (GoList.Len (order c) >? capacity c)%Z = true →
  GoList.Back (order c) = Some tail →
  enforceCapacity_loop (S n) c = enforceCapacity_loop n (removeElementLocked tail c).
Proof. intros Hgt Hback. simpl. by rewrite Hgt, Hback. Qed.

Lemma p3_enforce_loop_done n c :
  (GoList.Len (order c) >? capacity c)%Z = false → enforceCapacity_loop n c = c.
Proof. intros Hle. destruct n; simpl; [done|]. by rewrite Hle. Qed.

(** The loop stops within the iterations it is given, with the list within
    the capacity. *)
Lemma p3_enforce_loop_bound n c :
  store_wf (entries c) (order c) → (0 ≤ capacity c)%Z → length (order c) ≤ n →
  (GoList.Len (order (enforceCapacity_loop n c)) ≤ capacity c)%Z.
Proof.
  revert c. induction n as [|n IH]; intros c Hwf Hcap Hn; simpl.
  - unfold GoList.Len. lia.
  - destruct (Z.gtb_spec (GoList.Len (order c)) (capacity c)) as [Hgt|Hle]; [|done].
    destruct (GoList.Back (order c)) as [tail|] eqn:Hback.
    + apply Back_Some in Hback as [l' Hl'].
      assert (S (length (GoList.Remove tail (order c))) = length (order c)) as Hlen.
      { apply Remove_length; [apply Hwf|]. rewrite Hl'. set_solver. }
      apply (IH (removeElementLocked tail c)); simpl; [|done|lia].
      by apply store_wf_remove.
    + apply last_None in Hback. unfold GoList.Len in Hgt. rewrite Hback in Hgt.
      simpl in Hgt. lia.
Qed.

Lemma p3_removeExpiredLocked_wf now c :
  store_wf (entries c) (order c) →
  store_wf (entries (removeExpiredLocked now c)) (order (removeExpiredLocked now c)).
Proof.
  apply (sweep_wf entries order removeElementLocked (λ e, isExpired e now)); done.
Qed.

Lemma p3_removeExpiredLocked_entries now c :
  store_wf (entries c) (order c) → entries (removeExpiredLocked now c) = live now c.
Proof.
  apply (sweep_all_items entries order removeElementLocked (λ e, isExpired e now)); done.
Qed.

Lemma p3_removeExpiredLocked_length now c :
  length (order (removeExpiredLocked now c)) ≤ length (order c).
Proof.
  apply (sweep_length entries order removeElementLocked (λ e, isExpired e now)); done.
Qed.

Lemma p3_removeExpiredLocked_capacity now c :
  capacity (removeExpiredLocked now c) = capacity c.
Proof.
  unfold removeExpiredLocked.
  apply (foldl_preserves (λ c', capacity c' = capacity c)); [|done].
  intros c' k <-. destruct (entries c' !! k) as [e|]; [|done].
  by destruct (isExpired e now).
Qed.

Lemma p3_removeElementLocked_inv k c : inv c → inv (removeElementLocked k c).
Proof.
  intros (Hwf & Hpos & Hle). split; [by apply store_wf_remove|]. simpl.
  split; [done|]. pose proof (Remove_length_le k (order c)).
  unfold GoList.Len in *. lia.
Qed.

Lemma p3_SetWithTTL_inv k v ttl now c : inv c → inv (SetWithTTL k v ttl now c).1.
Proof.
  intros (Hwf & Hpos & Hle). unfold SetWithTTL.
  destruct (ttl <? 0)%Z; [done|].
  destruct (entries c !! k) as [e|] eqn:Hk; simpl.
  - split; [|split; [done|]].
    + apply store_wf_update; [by eauto|]. by apply store_wf_move.
    + simpl. unfold GoList.Len in *. rewrite MoveToFront_length; [done|apply Hwf].
  - unfold enforceCapacityLocked. set (c1 := with_store c _ _).
    assert (store_wf (entries c1) (order c1)) as Hwf1 by by apply store_wf_push.
    split; [|split].
    + by apply (p3_enforce_loop_preserves (λ c', store_wf (entries c') (order c')));
        [intros; apply store_wf_remove|].
    + by rewrite p3_enforce_loop_capacity.
    + rewrite p3_enforce_loop_capacity.
      apply p3_enforce_loop_bound; [done|simpl; lia|done].
Qed.

Lemma p3_Get_inv k now c : inv c → inv (Get k now c).1.
Proof.
  intros Hinv. unfold Get. destruct (entries c !! k) as [e|]; [|done].
  destruct (isExpired e now); simpl; [by apply p3_removeElementLocked_inv|].
  destruct Hinv as (Hwf & Hpos & Hle). split; [by apply store_wf_move|].
  simpl. split; [done|]. unfold GoList.Len in *.
  rewrite MoveToFront_length; [done|apply Hwf].
Qed.

Lemma p3_removeExpiredLocked_inv now c : inv c → inv (removeExpiredLocked now c).
Proof.
  intros (Hwf & Hpos & Hle). split; [by apply p3_removeExpiredLocked_wf|].
  rewrite p3_removeExpiredLocked_capacity. split; [done|].
  pose proof (p3_removeExpiredLocked_length now c). unfold GoList.Len in *. lia.
Qed.

Lemma p3_Close_store c c' :
  Close c = Some c' →
  entries c' = entries c ∧ order c' = order c ∧ capacity c' = capacity c.
Proof.
  unfold Close. destruct (stopOnce c); [by intros [= <-]|].
  destruct (GoChan.close (stopCh c)); [|done]. by intros [= <-].
Qed.

Lemma p3_step_inv ev c : inv c → inv (step ev c).
Proof.
  intros Hinv. unfold step. destruct ev.2; simpl.
  - by apply p3_SetWithTTL_inv.
  - by apply p3_SetWithTTL_inv.
  - by apply p3_Get_inv.
  - unfold Delete. destruct (entries c !! key); [|done].
    by apply p3_removeElementLocked_inv.
  - by apply p3_removeExpiredLocked_inv.
  - done.
  - destruct (Close c) as [c'|] eqn:Hc; [|done]. simpl.
    apply p3_Close_store in Hc as (Hm & Hl & Hcap).
    unfold inv. by rewrite Hm, Hl, Hcap.
  - by apply p3_removeExpiredLocked_inv.
Qed.

Lemma p3_run_inv c0 h : inv c0 → inv (run c0 h).
Proof. intros H0. induction h as [|ev h IH]; simpl; [done|]. by apply p3_step_inv. Qed.

Lemma p3_SetWithTTL_capacity k v ttl now c :
  capacity (SetWithTTL k v ttl now c).1 = capacity c.
Proof.
  unfold SetWithTTL. destruct (ttl <? 0)%Z; [done|].
  destruct (entries c !! k); simpl; [done|].
  unfold enforceCapacityLocked. by rewrite p3_enforce_loop_capacity.
Qed.

Lemma p3_step_capacity ev c : capacity (step ev c) = capacity c.
Proof.
  unfold step. destruct ev.2; simpl.
  - apply p3_SetWithTTL_capacity.
  - apply p3_SetWithTTL_capacity.
  - unfold Get. destruct (entries c !! key) as [e|]; [|done]. by destruct (isExpired e _).
  - unfold Delete. by destruct (entries c !! key).
  - apply p3_removeExpiredLocked_capacity.
  - done.
  - destruct (Close c) as [c'|] eqn:Hc; [|done]. simpl.
    by apply p3_Close_store in Hc as (_ & _ & ->).
  - apply p3_removeExpiredLocked_capacity.
Qed.

Lemma p3_run_capacity c0 h : capacity (run c0 h) = capacity c0.
Proof.
  induction h as [|ev h IH]; simpl; [done|]. by rewrite p3_step_capacity.
Qed.
End Part003Facts.

(** * src/unnamed/part_003: the recency order *)

Lemma StronglySorted_rel_in {A : Type} (R R' : relation A) (l : list A) :
  (∀ a b, a ∈ l → b ∈ l → R a b → R' a b) →
  StronglySorted R l → StronglySorted R' l.
Proof.
  intros Himp Hs. induction Hs as [|a l Hs IH Hall]; [constructor|].
  constructor.
  - apply IH. intros x y Hx Hy. apply Himp; by right.
  - rewrite Forall_forall in Hall. apply Forall_forall. intros y Hy.
    apply Himp; [by left|by right|by apply Hall].
Qed.

Section Part003Recency.
Context `{Countable K} {V : Type}.
Import Part003.
Implicit Types (c : Cache K V) (k : K) (h : list (event K V)) (ev : event K V).

Lemma p3_last_touch_le c0 h k : last_touch c0 h k ≤ length h.
Proof.
  induction h as [|ev h IH]; simpl; [done|].
  destruct (decide (touch ev (run c0 h) = Some k)); lia.
Qed.

Lemma p3_sorted_untouched c0 ev h (l : list K) :
  (∀ x, x ∈ l → touch ev (run c0 h) ≠ Some x) →
  StronglySorted (newer c0 h) l → StronglySorted (newer c0 (ev :: h)) l.
Proof.
  intros Hun. apply StronglySorted_rel_in. intros a b Ha Hb.
  unfold newer. simpl.
  rewrite !decide_False by (by apply Hun). done.
Qed.

Lemma p3_sorted_touch c0 ev h k (l : list K) :
  touch ev (run c0 h) = Some k →
  StronglySorted (newer c0 h) l →
  StronglySorted (newer c0 (ev :: h)) (k :: GoList.Remove k l).
Proof.
  intros Hk Hs. constructor.
  - apply p3_sorted_untouched; [|by apply Remove_sorted].
    intros x [_ Hx]%Remove_elem_of. rewrite Hk. congruence.
  - apply Forall_forall. intros x [_ Hx]%Remove_elem_of.
    unfold newer. simpl.
    destruct (decide (touch ev (run c0 h) = Some x)) as [Hx'|_]; [congruence|].
    destruct (decide (touch ev (run c0 h) = Some k)); [|done].
    pose proof (p3_last_touch_le c0 h x). lia.
Qed.

Lemma p3_SetWithTTL_sorted c0 now k v ttl h :
  inv (run c0 h) → (0 ≤ ttl)%Z →
  StronglySorted (newer c0 h) (order (run c0 h)) →
  StronglySorted (newer c0 ((now, CallSetWithTTL k v ttl) :: h))
    (order (SetWithTTL k v ttl now (run c0 h)).1).
Proof.
  intros (Hwf & _) Httl Hs.
  assert (touch (now, CallSetWithTTL k v ttl) (run c0 h) = Some k) as Htouch.
  { unfold touch. simpl. destruct (Z.ltb_spec ttl 0); [lia|done]. }
  unfold SetWithTTL. destruct (Z.ltb_spec ttl 0); [lia|].
  destruct (entries (run c0 h) !! k) as [e|] eqn:Hk; simpl.
  - unfold GoList.MoveToFront. rewrite decide_True by (apply Hwf; eauto).
    by apply p3_sorted_touch.
  - apply (p3_enforce_loop_preserves (λ c', StronglySorted _ (order c'))).
    { intros k' c' Hc'. by apply Remove_sorted. }
    simpl. unfold GoList.PushFront.
    rewrite <-(Remove_absent k (order (run c0 h))) at 1.
    + by apply p3_sorted_touch.
    + intros Hin. apply Hwf in Hin as [? ?]. congruence.
Qed.

Lemma p3_step_sorted c0 ev h :
  inv (run c0 h) →
  StronglySorted (newer c0 h) (order (run c0 h)) →
  StronglySorted (newer c0 (ev :: h)) (order (step ev (run c0 h))).
Proof.
  intros Hinv Hs. pose proof Hinv as (Hwf & _).
  destruct ev as [now op]. unfold step.
  destruct op as [k v|k v ttl|k|k| | | |]; simpl.
  - apply (p3_SetWithTTL_sorted c0 now k v 0 h Hinv) in Hs; [|done].
    revert Hs. apply StronglySorted_rel_in. done.
  - destruct (Z.ltb_spec ttl 0) as [Hneg|Hpos].
    + assert (touch (now, CallSetWithTTL k v ttl) (run c0 h) = None) as Hnone.
      { unfold touch. simpl. destruct (Z.ltb_spec ttl 0); [done|lia]. }
      unfold SetWithTTL. destruct (Z.ltb_spec ttl 0); [|lia]. simpl.
      apply p3_sorted_untouched; [|done]. intros x _. by rewrite Hnone.
    + by apply p3_SetWithTTL_sorted.
  - assert (touch (now, CallGet k) (run c0 h)
            = match (Get k now (run c0 h)).2 with
              | Some _ => Some k | None => None end) as Htouch by done.
    unfold Get in Htouch |- *.
    destruct (entries (run c0 h) !! k) as [e|] eqn:Hk.
    + destruct (isExpired e now); simpl in Htouch |- *.
      * apply p3_sorted_untouched; [|by apply Remove_sorted].
        intros x _. by rewrite Htouch.
      * unfold GoList.MoveToFront. rewrite decide_True by (apply Hwf; eauto).
        by apply p3_sorted_touch.
    + simpl in Htouch |- *. apply p3_sorted_untouched; [|done].
      intros x _. by rewrite Htouch.
  - apply p3_sorted_untouched; [done|]. unfold Delete.
    destruct (entries _ !! k); [|done]. simpl. by apply Remove_sorted.
  - apply p3_sorted_untouched; [done|].
    by apply (sweep_sorted entries order removeElementLocked (λ e, isExpired e now)).
  - by apply p3_sorted_untouched.
  - apply p3_sorted_untouched; [done|].
    destruct (Close (run c0 h)) as [c'|] eqn:Hc; [|done]. simpl.
    apply p3_Close_store in Hc as (_ & -> & _). done.
  - apply p3_sorted_untouched; [done|].
    by apply (sweep_sorted entries order removeElementLocked (λ e, isExpired e now)).
Qed.

(** In every state reached from an empty cache, the list is ordered from
    the key touched last to the key touched first. *)
Lemma p3_run_sorted c0 h :
  inv c0 → order c0 = [] → StronglySorted (newer c0 h) (order (run c0 h)).
Proof.
  intros H0 Hnil. induction h as [|ev h IH]; simpl.
  - rewrite Hnil. constructor.
  - apply p3_step_sorted; [by apply p3_run_inv|done].
Qed.

Lemma p3_removeExpiredLocked_stored now c k :
  is_Some (entries (removeExpiredLocked now c) !! k) → is_Some (entries c !! k).
Proof.
  unfold removeExpiredLocked.
  rewrite (sweep_lookup entries removeElementLocked (λ e, isExpired e now)) by done.
  destruct (entries c !! k); [eauto|]. by intros [? ?].
Qed.

Lemma p3_enforce_loop_stored n c k :
  is_Some (entries (enforceCapacity_loop n c) !! k) → is_Some (entries c !! k).
Proof.
  revert k.
  apply (p3_enforce_loop_preserves
           (λ c', ∀ k, is_Some (entries c' !! k) → is_Some (entries c !! k))); [|done].
  intros tail c' Hc' k Hk. apply Hc'. simpl in Hk.
  apply lookup_delete_is_Some in Hk. tauto.
Qed.

Lemma p3_SetWithTTL_stored k' v ttl now c k :
  is_Some (entries (SetWithTTL k' v ttl now c).1 !! k) →
  ((ttl <? 0)%Z = false ∧ k = k') ∨ is_Some (entries c !! k).
Proof.
  intros Hk. revert Hk. unfold SetWithTTL. destruct (ttl <? 0)%Z; [by right|].
  destruct (decide (k = k')) as [->|Hne]; [by left|]. right. revert Hk.
  destruct (entries c !! k'); simpl; intros Hk.
  - by rewrite lookup_insert_ne in Hk.
  - apply p3_enforce_loop_stored in Hk. simpl in Hk.
    by rewrite lookup_insert_ne in Hk.
Qed.

(** A step stores no key but the one it touches. *)
Lemma p3_step_stored ev c k :
  is_Some (entries (step ev c) !! k) → touch ev c = Some k ∨ is_Some (entries c !! k).
Proof.
  destruct ev as [now op]. unfold step, touch.
  destruct op as [k' v|k' v ttl|k'|k'| | | |]; simpl.
  - intros [[_ ->]|Hk]%p3_SetWithTTL_stored; [by left|by right].
  - intros [[-> ->]|Hk]%p3_SetWithTTL_stored; [by left|by right].
  - unfold Get. destruct (entries c !! k') as [e|] eqn:Hk'; [|by right].
    destruct (isExpired e now); simpl; [|by right].
    intros Hk%lookup_delete_is_Some. right. tauto.
  - unfold Delete. destruct (entries c !! k'); [|by right]. simpl.
    intros Hk%lookup_delete_is_Some. right. tauto.
  - intros Hk%p3_removeExpiredLocked_stored. by right.
  - by right.
  - destruct (Close c) as [c'|] eqn:Hc; [|by right]. simpl.
    apply p3_Close_store in Hc as (-> & _). by right.
  - intros Hk%p3_removeExpiredLocked_stored. by right.
Qed.

(** A stored key has been touched: by a [Set] that was accepted or a [Get]
    that returned its value. *)
Lemma p3_stored_touched c0 h k :
  entries c0 = ∅ → is_Some (entries (run c0 h) !! k) → 0 < last_touch c0 h k.
Proof.
  intros Hempty. induction h as [|ev h IH]; simpl.
  - rewrite Hempty, lookup_empty. by intros [? ?].
  - destruct (decide (touch ev (run c0 h) = Some k)) as [|Hno]; [lia|].
    intros [Ht|Hk]%p3_step_stored; [done|by apply IH].
Qed.

(** On a full cache, inserting a new key removes the back of the list and
    nothing else. *)
Lemma p3_SetWithTTL_full k v ttl now c rest victim :
  inv c → GoList.Len (order c) = capacity c → order c = rest ++ [victim] →
  entries c !! k = None → (0 ≤ ttl)%Z →
  (SetWithTTL k v ttl now c).2 = None ∧
  order (SetWithTTL k v ttl now c).1 = k :: rest ∧
  entries (SetWithTTL k v ttl now c).1 !! victim = None ∧
  is_Some (entries (SetWithTTL k v ttl now c).1 !! k) ∧
  (∀ k', k' ≠ victim → k' ≠ k →
     entries (SetWithTTL k v ttl now c).1 !! k' = entries c !! k').
Proof.
  intros (Hwf & Hpos & _) Hfull Hord Hk Httl.
  assert (k ∉ order c) as Hknew.
  { intros Hin. apply Hwf in Hin as [? ?]. congruence. }
  assert (victim ≠ k) as Hne.
  { intros ->. apply Hknew. rewrite Hord. set_solver. }
  assert ((k ∉ rest) ∧ (victim ∉ rest)) as [Hk1 Hv1].
  { destruct Hwf as [Hnd _]. rewrite Hord in Hnd, Hknew.
    apply NoDup_app in Hnd as (_ & Hdis & _). split.
    - intros Hin. apply Hknew. set_solver.
    - intros Hin. apply (Hdis _ Hin). set_solver. }
  unfold SetWithTTL. destruct (Z.ltb_spec ttl 0); [lia|]. rewrite Hk.
  set (ent := Build_entry _ _). set (c1 := with_store c _ _).
  assert (order c1 = k :: order c) as Ho1 by done.
  assert (capacity c1 = capacity c) as Hc1 by done.
  assert (entries c1 = <[k := ent]> (entries c)) as He1 by done.
  clearbody c1 ent.
  assert (GoList.Remove victim (order c1) = k :: rest) as Hrest.
  { rewrite Ho1, Hord.
    change (k :: rest ++ [victim]) with ((k :: rest) ++ [victim]).
    apply Remove_back. rewrite not_elem_of_cons. by split. }
  assert (length (order c) = S (length rest)) as Hlen.
  { rewrite Hord, length_app. simpl. lia. }
  assert (enforceCapacityLocked c1 = removeElementLocked victim c1) as ->.
  { unfold enforceCapacityLocked. rewrite Ho1. simpl length.
    rewrite (p3_enforce_loop_step _ _ victim).
    - apply p3_enforce_loop_done. simpl. rewrite Hrest, Hc1.
      unfold GoList.Len in *. simpl length. rewrite Z.gtb_ltb. apply Z.ltb_ge. lia.
    - rewrite Ho1, Hc1. unfold GoList.Len in *. simpl length.
      rewrite Z.gtb_ltb. apply Z.ltb_lt. lia.
    - rewrite Ho1, Hord. apply (Back_snoc victim (k :: rest)). }
  simpl. rewrite Hrest, He1.
  split; [done|]. split; [done|]. split; [by rewrite lookup_delete_eq|].
  split.
  - rewrite lookup_delete_ne, lookup_insert_eq by done. eauto.
  - intros k' Hv Hk'. by rewrite lookup_delete_ne, lookup_insert_ne.
Qed.
End Part003Recency.

(** * C1: the eviction victim *)

(** C1.  In the cache of src/unnamed/part_003, in every state reached from
    [New] by any history of calls and sweeps: when the cache is full and
    [SetWithTTL] (hence [Set]) inserts a key that is not stored, the call
    succeeds, the entry removed is the one at the back of the recency list and
    no other entry is lost; and that victim is, among the stored keys, the one
    whose last touch, by a [Set] that was accepted or a [Get] that returned
    its value, is the oldest (the cache has no [Peek]).  In particular, with
    capacity 2, after [Set(a,1)], [Set(b,2)], [Get(a)], [Set(c,3)], whatever
    the clock readings, [Get(b)] reports not-found, [Get(a)] returns 1 and
    [Get(c)] returns 3. *)
Theorem c1_evicts_least_recently_touched :
  (∀ (K : Type) (EqK : EqDecision K) (CntK : Countable K) (V : Type)
     (capacity : Z) (opts : list Part003.Option) (c0 : Part003.Cache K V)
     (h : list (Part003.event K V)) (k : K) (v : V) (ttl : Duration) (now : Time),
     Part003.New capacity opts = inl c0 →
     GoList.Len (Part003.order (Part003.run c0 h)) =
       Part003.capacity (Part003.run c0 h) →
     Part003.entries (Part003.run c0 h) !! k = None →
     (0 ≤ ttl)%Z →
     ∃ victim rest,
       Part003.order (Part003.run c0 h) = rest ++ [victim] ∧
       GoList.Back (Part003.order (Part003.run c0 h)) = Some victim ∧
       0 < Part003.last_touch c0 h victim ∧
       (∀ k', is_Some (Part003.entries (Part003.run c0 h) !! k') → k' ≠ victim →
              Part003.last_touch c0 h victim < Part003.last_touch c0 h k') ∧
       (Part003.SetWithTTL k v ttl now (Part003.run c0 h)).2 = None ∧
       Part003.order (Part003.SetWithTTL k v ttl now (Part003.run c0 h)).1 = k :: rest ∧
       Part003.entries (Part003.SetWithTTL k v ttl now (Part003.run c0 h)).1 !! victim
         = None ∧
       is_Some (Part003.entries (Part003.SetWithTTL k v ttl now (Part003.run c0 h)).1 !! k) ∧
       (∀ k', k' ≠ victim → k' ≠ k →
          Part003.entries (Part003.SetWithTTL k v ttl now (Part003.run c0 h)).1 !! k' =
            Part003.entries (Part003.run c0 h) !! k'))
  ∧
  (∀ (c0 : Part003.Cache string Z) (t1 t2 t3 t4 t5 t6 t7 : Time),
     Part003.New 2 [] = inl c0 →
     let c1 := (Part003.Set_ "a" 1%Z t1 c0).1 in
     let c2 := (Part003.Set_ "b" 2%Z t2 c1).1 in
     let c3 := (Part003.Get "a" t3 c2).1 in
     let c4 := (Part003.Set_ "c" 3%Z t4 c3).1 in
     let r5 := Part003.Get "b" t5 c4 in
     let r6 := Part003.Get "a" t6 r5.1 in
     let r7 := Part003.Get "c" t7 r6.1 in
     r5.2 = None ∧ r6.2 = Some 1%Z ∧ r7.2 = Some 3%Z).
Proof.
  split.
  - intros K EqK CntK V capacity opts c0 h k v ttl now Hnew Hfull Hk Httl.
    pose proof (p3_New_inv _ _ _ Hnew) as Hinv0.
    pose proof (p3_New_inl _ _ _ Hnew) as (_ & _ & Hempty & Hnil & _).
    pose proof (p3_run_inv c0 h Hinv0) as Hinv.
    pose proof (p3_run_sorted c0 h Hinv0 Hnil) as Hsorted.
    pose proof (p3_stored_touched c0 h) as Htouched.
    set (c := Part003.run c0 h) in *.
    destruct (GoList.Back (Part003.order c)) as [victim|] eqn:Hback.
    + destruct (Back_Some _ _ Hback) as [rest Hord].
      exists victim, rest. split; [done|]. split; [done|]. split; [|split].
      * apply Htouched; [done|]. destruct Hinv as (Hwf & _). apply Hwf.
        rewrite Hord. set_solver.
      * intros k' Hres Hne. destruct Hinv as (Hwf & _).
        apply Hwf in Hres. rewrite Hord in Hres, Hsorted.
        apply elem_of_app in Hres as [Hin|Hin];
          [|by apply list_elem_of_singleton in Hin].
        apply (StronglySorted_app_1_elem_of _ _ _ k' victim Hsorted); set_solver.
      * by apply p3_SetWithTTL_full.
    + apply last_None in Hback. destruct Hinv as (_ & Hpos & _).
      unfold GoList.Len in Hfull. rewrite Hback in Hfull. simpl in Hfull. lia.
  - intros c0 t1 t2 t3 t4 t5 t6 t7 [= <-]. vm_compute. done.
Qed.

(** The scenario of C1 as a history: the cache is full after [Set(a,1)],
    [Set(b,2)], [Get(a)], and inserting [c] evicts [b]. *)
Lemma c1_evicts_least_recently_touched_witness :
  ∃ c0 : Part003.Cache string Z,
    Part003.New 2 [] = inl c0 ∧
    let h := [(12%Z, Part003.CallGet "a"); (11%Z, Part003.CallSet "b" 2%Z);
              (10%Z, Part003.CallSet "a" 1%Z)] in
    ∃ victim rest,
      Part003.order (Part003.run c0 h) = rest ++ [victim] ∧
      GoList.Back (Part003.order (Part003.run c0 h)) = Some victim ∧
      0 < Part003.last_touch c0 h victim ∧
      (∀ k', is_Some (Part003.entries (Part003.run c0 h) !! k') → k' ≠ victim →
             Part003.last_touch c0 h victim < Part003.last_touch c0 h k') ∧
      (Part003.SetWithTTL "c" 3%Z 0 13 (Part003.run c0 h)).2 = None ∧
      Part003.order (Part003.SetWithTTL "c" 3%Z 0 13 (Part003.run c0 h)).1 = "c" :: rest ∧
      Part003.entries (Part003.SetWithTTL "c" 3%Z 0 13 (Part003.run c0 h)).1 !! victim
        = None ∧
      is_Some (Part003.entries (Part003.SetWithTTL "c" 3%Z 0 13 (Part003.run c0 h)).1 !! "c") ∧
      (∀ k', k' ≠ victim → k' ≠ "c" →
         Part003.entries (Part003.SetWithTTL "c" 3%Z 0 13 (Part003.run c0 h)).1 !! k' =
           Part003.entries (Part003.run c0 h) !! k').
Proof.
  eexists. split; [reflexivity|]. intros h.
  apply (proj1 c1_evicts_least_recently_touched string _ _ Z 2%Z []);
    [reflexivity|vm_compute; reflexivity|vm_compute; reflexivity|lia].
Defined.

(** * src/agent11/lru/cache.go ([Cache]): invariants *)

Lemma foldl_pointwise {A B : Type} (f g : A → B → A) (a : A) (l : list B) :
  (∀ a b, f a b = g a b) → foldl f a l = foldl g a l.
Proof.
  intros Hfg. revert a. induction l as [|b l IH]; intros a; simpl; [done|].
  by rewrite Hfg, IH.
Qed.

Section Agent11Facts.
Context `{Countable K} {V : Type}.
Import Agent11.
Implicit Types (c : Cache K V) (k : K).

Lemma a11_purge_sweep now c :
  purgeExpiredLocked now c =
    foldl (λ st k, match items st.1 !! k with
                   | Some e => if isExpired e now
                               then (removeElementLocked k st.1, (st.2 + 1)%Z) else st
                   | None => st
                   end)
          (c, 0%Z) (reverse (evictionList c)).
Proof.
  unfold purgeExpiredLocked. apply foldl_pointwise. intros st k.
  destruct (items st.1 !! k) as [e|]; [|done]. by destruct (isExpired e now).
Qed.

Lemma a11_purge_wf now c :
  store_wf (items c) (evictionList c) →
  store_wf (items (purgeExpiredLocked now c).1) (evictionList (purgeExpiredLocked now c).1).
Proof.
  rewrite a11_purge_sweep.
  apply (sweep_wf (λ st : Cache K V * Z, items st.1) (λ st, evictionList st.1)
           (λ k st, (removeElementLocked k st.1, (st.2 + 1)%Z))
           (λ e, isExpired e now) (λ _ _, eq_refl) (λ _ _, eq_refl)
           (reverse (evictionList c)) (c, 0%Z)).
Qed.

Lemma a11_purge_length now c :
  length (evictionList (purgeExpiredLocked now c).1) ≤ length (evictionList c).
Proof.
  rewrite a11_purge_sweep.
  apply (sweep_length (λ st : Cache K V * Z, items st.1) (λ st, evictionList st.1)
           (λ k st, (removeElementLocked k st.1, (st.2 + 1)%Z))
           (λ e, isExpired e now) (λ _ _, eq_refl)
           (reverse (evictionList c)) (c, 0%Z)).
Qed.

Lemma a11_purge_capacity now c :
  capacity (purgeExpiredLocked now c).1 = capacity c.
Proof.
  unfold purgeExpiredLocked.
  apply (foldl_preserves (λ st : Cache K V * Z, capacity st.1 = capacity c)); [|done].
  intros st k <-. destruct (items st.1 !! k) as [e|]; [|done].
  by destruct (negb (isExpired e now)).
Qed.

Lemma a11_purge_inv now c : inv c → inv (purgeExpiredLocked now c).1.
Proof.
  intros (Hwf & Hpos & Hle). split; [by apply a11_purge_wf|].
  rewrite a11_purge_capacity. split; [done|].
  pose proof (a11_purge_length now c). unfold GoList.Len in *. lia.
Qed.

Lemma a11_removeElementLocked_inv k c : inv c → inv (removeElementLocked k c).
Proof.
  intros (Hwf & Hpos & Hle). split; [by apply store_wf_remove|]. simpl.
  split; [done|]. pose proof (Remove_length_le k (evictionList c)).
  unfold GoList.Len in *. lia.
Qed.

(** With a positive capacity the eviction loop returns, within as many
    iterations as the list has elements, and leaves room for one entry. *)
Lemma a11_evict_loop_returns n c :
  store_wf (items c) (evictionList c) → (0 < capacity c)%Z →
  length (evictionList c) ≤ n →
  ∃ c', evict_loop n c = Some c' ∧
        store_wf (items c') (evictionList c') ∧ capacity c' = capacity c ∧
        (GoList.Len (evictionList c') < capacity c)%Z ∧
        (∀ k, items c !! k = None → items c' !! k = None).
Proof.
  revert c. induction n as [|n IH]; intros c Hwf Hpos Hn; simpl.
  - destruct (Z.geb_spec (GoList.Len (evictionList c)) (capacity c)) as [Hge|Hlt].
    + unfold GoList.Len in Hge. lia.
    + by exists c.
  - destruct (Z.geb_spec (GoList.Len (evictionList c)) (capacity c)) as [Hge|Hlt];
      [|by exists c].
    unfold removeOldestLocked.
    destruct (GoList.Back (evictionList c)) as [tail|] eqn:Hback.
    + apply Back_Some in Hback as [l' Hl'].
      assert (S (length (GoList.Remove tail (evictionList c))) = length (evictionList c))
        as Hlen.
      { apply Remove_length; [apply Hwf|]. rewrite Hl'. set_solver. }
      destruct (IH (removeElementLocked tail c))
        as (c' & Hc' & Hwf' & Hcap' & Hlt' & Hnone');
        simpl; [by apply store_wf_remove|done|lia|].
      exists c'. repeat split; try done; try apply Hwf'.
      intros k Hk. apply Hnone'. simpl. rewrite lookup_delete_None. by right.
    + apply last_None in Hback. unfold GoList.Len in Hge. rewrite Hback in Hge.
      simpl in Hge. lia.
Qed.

Lemma a11_SetWithTTL_inv k v ttl now c :
  inv c → ∃ c', SetWithTTL k v ttl now c = Some c' ∧ inv c' ∧ capacity c' = capacity c.
Proof.
  intros Hinv. pose proof (a11_purge_capacity now c) as Hcap1.
  apply (a11_purge_inv now) in Hinv as (Hwf & Hpos & Hle).
  unfold SetWithTTL. set (c1 := (purgeExpiredLocked now c).1) in *. clearbody c1.
  destruct (items c1 !! k) as [e|] eqn:Hk.
  - eexists. split; [done|]. split; [|done]. split; [|split]; simpl; [|done|].
    + apply store_wf_update; [by eauto|]. by apply store_wf_move.
    + unfold GoList.Len in *. rewrite MoveToFront_length; [done|apply Hwf].
  - destruct (a11_evict_loop_returns (length (evictionList c1)) c1)
      as (c2 & -> & Hwf2 & Hcap2 & Hlt2 & Hnone2); [done..|].
    pose proof (Hnone2 k Hk) as Hk2.
    simpl. eexists. split; [done|]. split; [|simpl; congruence].
    split; [|split]; simpl.
    + by apply store_wf_push.
    + by rewrite Hcap2.
    + rewrite Hcap2. unfold GoList.Len, GoList.PushFront in *. simpl length. lia.
Qed.

Lemma a11_New_inv capacity opts c0 :
  New (K:=K) (V:=V) capacity opts = Some c0 → inv c0 ∧ Agent11.capacity c0 = capacity.
Proof.
  unfold New. destruct (Z.leb_spec capacity 0); [done|]. intros [= <-].
  split; [|done]. split; [apply store_wf_empty|]. simpl.
  unfold GoList.Len. simpl. lia.
Qed.

Lemma a11_Get_inv k now c : inv c → inv (Get k now c).1.
Proof.
  intros Hinv. unfold Get. destruct (items c !! k) as [e|]; [|done].
  destruct (isExpired e now); simpl; [by apply a11_removeElementLocked_inv|].
  destruct Hinv as (Hwf & Hpos & Hle). split; [by apply store_wf_move|].
  simpl. split; [done|]. unfold GoList.Len in *.
  rewrite MoveToFront_length; [done|apply Hwf].
Qed.

Lemma a11_Peek_inv k now c : inv c → inv (Peek k now c).1.
Proof.
  intros Hinv. unfold Peek. destruct (items c !! k) as [e|]; [|done].
  destruct (isExpired e now); simpl; [by apply a11_removeElementLocked_inv|done].
Qed.

Lemma a11_Close_store c c' :
  Close c = Some c' →
  items c' = items c ∧ evictionList c' = evictionList c ∧ capacity c' = capacity c.
Proof.
  unfold Close. destruct (stopOnce c); [by intros [= <-]|].
  destruct (stopCh c) as [ch|]; simpl.
  - destruct (GoChan.close ch); simpl; [|done]. by intros [= <-].
  - by intros [= <-].
Qed.

Lemma a11_step_inv ev c : inv c → inv (step ev c).
Proof.
  intros Hinv. unfold step. destruct ev.2; simpl.
  - unfold Set_. destruct (a11_SetWithTTL_inv key val (defaultTTL c) ev.1 c Hinv)
      as (c' & -> & Hinv' & _). done.
  - destruct (a11_SetWithTTL_inv key val ttl ev.1 c Hinv) as (c' & -> & Hinv' & _). done.
  - by apply a11_Get_inv.
  - by apply a11_Peek_inv.
  - unfold Delete. destruct (items c !! key); [|done].
    by apply a11_removeElementLocked_inv.
  - by apply a11_purge_inv.
  - by apply a11_purge_inv.
  - destruct (Close c) as [c'|] eqn:Hc; [|done]. simpl.
    apply a11_Close_store in Hc as (Hm & Hl & Hcap).
    unfold inv. by rewrite Hm, Hl, Hcap.
Qed.

Lemma a11_run_inv c0 h : inv c0 → inv (run c0 h).
Proof. intros H0. induction h as [|ev h IH]; simpl; [done|]. by apply a11_step_inv. Qed.

Lemma a11_run_capacity c0 h : inv c0 → capacity (run c0 h) = capacity c0.
Proof.
  intros H0. induction h as [|ev h IH]; simpl; [done|]. rewrite <-IH.
  pose proof (a11_run_inv c0 h H0) as Hinv. set (c := run c0 h) in *. clearbody c.
  unfold step. destruct ev.2; simpl.
  - unfold Set_. destruct (a11_SetWithTTL_inv key val (defaultTTL c) ev.1 c Hinv)
      as (c' & -> & _ & Hc'). done.
  - destruct (a11_SetWithTTL_inv key val ttl ev.1 c Hinv) as (c' & -> & _ & Hc'). done.
  - unfold Get. destruct (items c !! key) as [e|]; [|done]. by destruct (isExpired e _).
  - unfold Peek. destruct (items c !! key) as [e|]; [|done]. by destruct (isExpired e _).
  - unfold Delete. by destruct (items c !! key).
  - apply a11_purge_capacity.
  - apply a11_purge_capacity.
  - destruct (Close c) as [c'|] eqn:Hc; [|done]. simpl.
    by apply a11_Close_store in Hc as (_ & _ & ->).
Qed.
End Agent11Facts.

(** * src/agent3/lrucache/lrucache.go: invariants *)

Section Agent3Facts.
Context `{Countable K} {V : Type}.
Import Agent3.
Implicit Types (c : Cache K V) (k : K).

Lemma a3_New_inv maxEntries :
  (0 < maxEntries)%Z → inv (New (K:=K) (V:=V) maxEntries).
Proof.
  intros Hpos. split; [apply store_wf_empty|]. simpl. unfold GoList.Len. simpl. lia.
Qed.

Lemma a3_removeElement_inv k c : inv c → inv (removeElement k c).
Proof.
  intros (Hwf & Hpos & Hle). split; [by apply store_wf_remove|]. simpl.
  split; [done|]. pose proof (Remove_length_le k (ll c)).
  unfold GoList.Len in *. lia.
Qed.

Lemma a3_Add_inv k v ttl now c : inv c → inv (Add k v ttl now c).
Proof.
  intros (Hwf & Hpos & Hle). unfold Add.
  destruct (cache c !! k) as [e|] eqn:Hk.
  - split; [|split]; simpl; [|done|].
    + apply store_wf_update; [by eauto|]. by apply store_wf_move.
    + unfold GoList.Len in *. rewrite MoveToFront_length; [done|apply Hwf].
  - set (ent := Build_entry _ _). set (c1 := Build_Cache _ _ _).
    assert (store_wf (cache c1) (ll c1)) as Hwf1 by by apply store_wf_push.
    assert (maxEntries c1 = maxEntries c) as Hm1 by done.
    assert (ll c1 = k :: ll c) as Hl1 by done.
    clearbody c1.
    destruct (Z.eqb_spec (maxEntries c1) 0) as [|_]; [lia|]. simpl.
    destruct (Z.gtb_spec (GoList.Len (ll c1)) (maxEntries c1)) as [Hgt|Hle1].
    + unfold removeOldest. destruct (GoList.Back (ll c1)) as [tail|] eqn:Hback.
      * apply Back_Some in Hback as [l' Hl'].
        assert (S (length (GoList.Remove tail (ll c1))) = length (ll c1)) as Hlen.
        { apply Remove_length; [apply Hwf1|]. rewrite Hl'. set_solver. }
        split; [by apply store_wf_remove|]. simpl. rewrite Hm1. split; [done|].
        assert (length (ll c1) = S (length (ll c))) as Hlen1 by by rewrite Hl1.
        unfold GoList.Len in *. lia.
      * apply last_None in Hback. rewrite Hl1 in Hback. done.
    + split; [done|]. rewrite Hm1 in *. split; [done|]. lia.
Qed.

Lemma a3_Get_inv k now c : inv c → inv (Get k now c).1.
Proof.
  intros Hinv. unfold Get. destruct (cache c !! k) as [e|]; [|done].
  destruct (GoTime.After now (expiresAt e)); simpl; [by apply a3_removeElement_inv|].
  destruct Hinv as (Hwf & Hpos & Hle). split; [by apply store_wf_move|].
  simpl. split; [done|]. unfold GoList.Len in *.
  rewrite MoveToFront_length; [done|apply Hwf].
Qed.

Lemma a3_step_inv ev c : inv c → inv (step ev c).
Proof.
  intros Hinv. unfold step. destruct ev.2; simpl.
  - by apply a3_Add_inv.
  - by apply a3_Get_inv.
  - unfold Remove. destruct (cache c !! key); [|done]. by apply a3_removeElement_inv.
  - done.
Qed.

Lemma a3_run_inv c0 h : inv c0 → inv (run c0 h).
Proof. intros H0. induction h as [|ev h IH]; simpl; [done|]. by apply a3_step_inv. Qed.

Lemma a3_Add_maxEntries k v ttl now c : maxEntries (Add k v ttl now c) = maxEntries c.
Proof.
  unfold Add. destruct (cache c !! k); [done|].
  destruct (negb _ && _); [|done]. unfold removeOldest.
  by destruct (GoList.Back _).
Qed.

Lemma a3_run_maxEntries c0 h : maxEntries (run c0 h) = maxEntries c0.
Proof.
  induction h as [|ev h IH]; simpl; [done|]. rewrite <-IH.
  set (c := run c0 h). clearbody c. unfold step. destruct ev.2; simpl.
  - apply a3_Add_maxEntries.
  - unfold Get. destruct (cache c !! key) as [e|]; [|done].
    by destruct (GoTime.After _ _).
  - unfold Remove. by destruct (cache c !! key).
  - done.
Qed.
End Agent3Facts.


(** * C2: the capacity bound *)

(** C2.  In each of the three caches (src/unnamed/part_003,
    src/agent11/lru/cache.go and src/agent3/lrucache/lrucache.go), built with
    a positive capacity and driven through any history of operations: after
    a [Set] (resp. [SetWithTTL], [Add]) of a key that is not stored, the map
    holds at most [capacity] entries, and so does the list.  For agent11 the
    call is also shown to return (its eviction loop ends), for stored keys as
    well. *)
Theorem c2_capacity_never_exceeded :
  (∀ (K : Type) (EqK : EqDecision K) (CntK : Countable K) (V : Type)
     (capacity : Z) (opts : list Part003.Option) (c0 : Part003.Cache K V)
     (h : list (Part003.event K V)) (k : K) (v : V) (ttl : Duration) (now : Time),
     Part003.New capacity opts = inl c0 →
     Part003.entries (Part003.run c0 h) !! k = None →
     (0 ≤ ttl)%Z →
     (0 < capacity)%Z ∧
     (Z.of_nat (size (Part003.entries (Part003.SetWithTTL k v ttl now (Part003.run c0 h)).1))
        ≤ capacity)%Z ∧
     (GoList.Len (Part003.order (Part003.SetWithTTL k v ttl now (Part003.run c0 h)).1)
        ≤ capacity)%Z)
  ∧
  (∀ (K : Type) (EqK : EqDecision K) (CntK : Countable K) (V : Type)
     (capacity : Z) (opts : list Agent11.Option) (c0 : Agent11.Cache K V)
     (h : list (Agent11.event K V)) (k : K) (v : V) (ttl : Duration) (now : Time),
     Agent11.New capacity opts = Some c0 →
     (0 < capacity)%Z ∧
     ∃ c', Agent11.SetWithTTL k v ttl now (Agent11.run c0 h) = Some c' ∧
           (Z.of_nat (size (Agent11.items c')) ≤ capacity)%Z ∧
           (GoList.Len (Agent11.evictionList c') ≤ capacity)%Z)
  ∧
  (∀ (K : Type) (EqK : EqDecision K) (CntK : Countable K) (V : Type)
     (maxEntries : Z) (h : list (Agent3.event K V))
     (k : K) (v : V) (ttl : Duration) (now : Time),
     (0 < maxEntries)%Z →
     Agent3.cache (Agent3.run (Agent3.New maxEntries) h) !! k = None →
     (Z.of_nat (size (Agent3.cache
                        (Agent3.Add k v ttl now (Agent3.run (Agent3.New maxEntries) h))))
        ≤ maxEntries)%Z ∧
     (GoList.Len (Agent3.ll (Agent3.Add k v ttl now (Agent3.run (Agent3.New maxEntries) h)))
        ≤ maxEntries)%Z).
Proof.
  split; [|split].
  - intros K EqK CntK V capacity opts c0 h k v ttl now Hnew Hk Httl.
    pose proof (p3_New_inv _ _ _ Hnew) as Hinv0.
    pose proof (p3_New_inl _ _ _ Hnew) as (Hcap & Hpos & _).
    pose proof (p3_SetWithTTL_inv k v ttl now _ (p3_run_inv c0 h Hinv0))
      as (Hwf & _ & Hle).
    rewrite p3_SetWithTTL_capacity, p3_run_capacity, Hcap in Hle.
    split; [done|]. split; [|done].
    rewrite (store_wf_size _ _ Hwf). exact Hle.
  - intros K EqK CntK V capacity opts c0 h k v ttl now Hnew.
    destruct (a11_New_inv _ _ _ Hnew) as [Hinv0 Hcap].
    pose proof (a11_run_inv c0 h Hinv0) as Hinv.
    destruct (a11_SetWithTTL_inv k v ttl now _ Hinv)
      as (c' & Hset & (Hwf & Hpos & Hle) & Hc').
    rewrite Hc', (a11_run_capacity _ _ Hinv0), Hcap in Hle, Hpos.
    split; [done|]. exists c'. split; [done|]. split; [|done].
    rewrite (store_wf_size _ _ Hwf). exact Hle.
  - intros K EqK CntK V maxEntries h k v ttl now Hpos Hk.
    pose proof (a3_Add_inv k v ttl now _ (a3_run_inv _ h (a3_New_inv maxEntries Hpos)))
      as (Hwf & _ & Hle).
    rewrite a3_Add_maxEntries, a3_run_maxEntries in Hle. simpl in Hle.
    split; [|done].
    rewrite (store_wf_size _ _ Hwf). exact Hle.
Qed.

(** C2 at capacity 2, in each cache, with two keys stored and a third one
    inserted. *)
Lemma c2_capacity_never_exceeded_witness :
  (∃ c0 : Part003.Cache string Z,
     Part003.New 2 [] = inl c0 ∧
     let h := [(11%Z, Part003.CallSet "b" 2%Z); (10%Z, Part003.CallSet "a" 1%Z)] in
     (0 < 2)%Z ∧
     (Z.of_nat (size (Part003.entries
                        (Part003.SetWithTTL "c" 3%Z 0 13 (Part003.run c0 h)).1)) ≤ 2)%Z ∧
     (GoList.Len (Part003.order
                    (Part003.SetWithTTL "c" 3%Z 0 13 (Part003.run c0 h)).1) ≤ 2)%Z)
  ∧
  (∃ c0 : Agent11.Cache string Z,
     Agent11.New 2 [] = Some c0 ∧
     let h := [(11%Z, Agent11.CallSet "b" 2%Z); (10%Z, Agent11.CallSet "a" 1%Z)] in
     (0 < 2)%Z ∧
     ∃ c', Agent11.SetWithTTL "c" 3%Z 0 13 (Agent11.run c0 h) = Some c' ∧
           (Z.of_nat (size (Agent11.items c')) ≤ 2)%Z ∧
           (GoList.Len (Agent11.evictionList c') ≤ 2)%Z)
  ∧
  (let h := [(11%Z, Agent3.CallAdd "b" 2%Z GoTime.Second);
             (10%Z, Agent3.CallAdd "a" 1%Z GoTime.Second)] in
   (Z.of_nat (size (Agent3.cache
                      (Agent3.Add "c" 3%Z GoTime.Second 13
                         (Agent3.run (Agent3.New 2) h)))) ≤ 2)%Z ∧
   (GoList.Len (Agent3.ll (Agent3.Add "c" 3%Z GoTime.Second 13
                             (Agent3.run (Agent3.New 2) h))) ≤ 2)%Z).
Proof.
  split; [|split].
  - eexists. split; [reflexivity|]. intros h.
    apply (proj1 c2_capacity_never_exceeded string _ _ Z 2%Z []);
      [reflexivity|vm_compute; reflexivity|lia].
  - eexists. split; [reflexivity|]. intros h.
    apply (proj1 (proj2 c2_capacity_never_exceeded) string _ _ Z 2%Z []).
    reflexivity.
  - intros h.
    apply (proj2 (proj2 c2_capacity_never_exceeded) string _ _ Z 2%Z);
      [lia|vm_compute; reflexivity].
Defined.

(** * src/agent14/lru.go: invariants *)

Section Agent14Facts.
Context {V : Type}.
Import Agent14.
Implicit Types (c : Cache V) (k : string).

Lemma a14_New_inv cfg : inv (New (V:=V) cfg).
Proof.
  split; [apply store_wf_empty|]. unfold New. simpl. unfold GoList.Len. simpl.
  destruct (Z.leb_spec (Capacity cfg) 0); lia.
Qed.

Lemma a14_removeElementLocked_inv k c : inv c → inv (removeElementLocked k c).
Proof.
  intros (Hwf & Hpos & Hle). split; [by apply store_wf_remove|]. simpl.
  split; [done|]. pose proof (Remove_length_le k (order c)).
  unfold GoList.Len in *. lia.
Qed.

Lemma a14_Set_inv k v ttl now c : inv c → inv (Set_ k v ttl now c).
Proof.
  intros (Hwf & Hpos & Hle). unfold Set_.
  destruct (items c !! k) as [e|] eqn:Hk.
  - split; [|split]; simpl; [|done|].
    + apply store_wf_update; [by eauto|]. by apply store_wf_move.
    + unfold GoList.Len in *. rewrite MoveToFront_length; [done|apply Hwf].
  - set (ent := Build_entry _ _). set (c1 := with_store c _ _).
    assert (store_wf (items c1) (order c1)) as Hwf1 by by apply store_wf_push.
    assert (capacity c1 = capacity c) as Hc1 by done.
    assert (order c1 = k :: order c) as Ho1 by done.
    clearbody c1.
    assert (length (order c1) = S (length (order c))) as Hlen1 by by rewrite Ho1.
    rewrite (store_wf_size _ _ Hwf1).
    destruct (Z.gtb_spec (Z.of_nat (length (order c1))) (capacity c1)) as [Hgt|Hle1].
    + unfold removeOldestLocked. destruct (GoList.Back (order c1)) as [tail|] eqn:Hback.
      * apply Back_Some in Hback as [l' Hl'].
        assert (S (length (GoList.Remove tail (order c1))) = length (order c1)) as Hlen.
        { apply Remove_length; [apply Hwf1|]. rewrite Hl'. set_solver. }
        split; [by apply store_wf_remove|]. simpl. rewrite Hc1. split; [done|].
        unfold GoList.Len in *. lia.
      * apply last_None in Hback. rewrite Ho1 in Hback. done.
    + split; [done|]. rewrite Hc1 in *. split; [done|]. unfold GoList.Len. lia.
Qed.

Lemma a14_Get_inv k now c : inv c → inv (Get k now c).1.
Proof.
  intros Hinv. unfold Get. destruct (items c !! k) as [e|]; [|done].
  destruct (_ || _); simpl; [|by apply a14_removeElementLocked_inv].
  destruct Hinv as (Hwf & Hpos & Hle). split; [by apply store_wf_move|].
  simpl. split; [done|]. unfold GoList.Len in *.
  rewrite MoveToFront_length; [done|apply Hwf].
Qed.

Lemma a14_removeExpired_lookup now c k :
  items (removeExpired now c) !! k =
    match items c !! k with
    | Some e =>
        if bool_decide (k ∈ reverse (order c)) &&
           (negb (GoTime.IsZero (expiresAt e)) && GoTime.After now (expiresAt e))
        then None else Some e
    | None => None
    end.
Proof.
  apply (sweep_lookup items removeElementLocked
           (λ e, negb (GoTime.IsZero (expiresAt e)) && GoTime.After now (expiresAt e))).
  done.
Qed.

Lemma a14_removeExpired_inv now c : inv c → inv (removeExpired now c).
Proof.
  intros (Hwf & Hpos & Hle).
  pose proof (sweep_wf items order removeElementLocked
    (λ e, negb (GoTime.IsZero (expiresAt e)) && GoTime.After now (expiresAt e))
    (λ _ _, eq_refl) (λ _ _, eq_refl) (reverse (order c)) c Hwf) as Hwf'.
  pose proof (sweep_length items order removeElementLocked
    (λ e, negb (GoTime.IsZero (expiresAt e)) && GoTime.After now (expiresAt e))
    (λ _ _, eq_refl) (reverse (order c)) c) as Hlen'.
  split; [exact Hwf'|].
  assert (capacity (removeExpired now c) = capacity c) as ->.
  { unfold removeExpired.
    apply (foldl_preserves (λ c', capacity c' = capacity c)); [|done].
    intros c' k <-. destruct (items c' !! k) as [e|]; [|done].
    by destruct (_ && _). }
  split; [done|]. unfold removeExpired, GoList.Len in *. lia.
Qed.

Lemma a14_step_inv ev c : inv c → inv (step ev c).
Proof.
  intros Hinv. unfold step. destruct ev.2; simpl.
  - by apply a14_Set_inv.
  - by apply a14_Get_inv.
  - unfold Delete. destruct (items c !! key); [|done].
    by apply a14_removeElementLocked_inv.
  - done.
  - destruct Hinv as (_ & Hpos & _). split; [apply store_wf_empty|]. simpl.
    unfold GoList.Len. simpl. lia.
  - by apply a14_removeExpired_inv.
Qed.

Lemma a14_run_inv c0 h : inv c0 → inv (run c0 h).
Proof. intros H0. induction h as [|ev h IH]; simpl; [done|]. by apply a14_step_inv. Qed.

(** A [Set] always leaves its key stored, with the entry it wrote. *)
Lemma a14_Set_lookup k v ttl now c :
  inv c →
  items (Set_ k v ttl now c) !! k =
    Some {| value := v;
            expiresAt := if (ttl >? 0)%Z then GoTime.Add now ttl else GoTime.zero |}.
Proof.
  intros (Hwf & Hpos & Hle). unfold Set_.
  destruct (items c !! k) as [e|] eqn:Hk; [simpl; by rewrite lookup_insert_eq|].
  set (ent := Build_entry _ _). set (c1 := with_store c _ _).
  assert (store_wf (items c1) (order c1)) as Hwf1 by by apply store_wf_push.
  assert (items c1 !! k = Some ent) as Hk1 by apply lookup_insert_eq.
  assert (order c1 = k :: order c) as Ho1 by done.
  assert (capacity c1 = capacity c) as Hc1 by done.
  clearbody c1 ent.
  rewrite (store_wf_size _ _ Hwf1), Ho1, Hc1.
  destruct (Z.gtb_spec (Z.of_nat (length (k :: order c))) (capacity c)) as [Hgt|_];
    [|done].
  unfold removeOldestLocked. rewrite Ho1.
  destruct (order c) as [|k0 l] eqn:Ho.
  - simpl in Hgt. lia.
  - assert (GoList.Back (k :: k0 :: l) = GoList.Back (k0 :: l)) as -> by done.
    destruct (GoList.Back (k0 :: l)) as [tail|] eqn:Hback; [|done].
    simpl. rewrite lookup_delete_ne; [done|].
    intros ->. apply last_Some_elem_of in Hback.
    apply Hwf in Hback as [? ?]. congruence.
Qed.
End Agent14Facts.

(** * C3: the expiry test at the boundary *)

(** C3, as the code has it.  For an entry whose expiry is set: in
    src/unnamed/part_003 ([isExpired], and [Get] through it) and in
    src/agent14/lru.go ([Get]) the entry is expired exactly when the clock
    reading is at or after the expiry, so [Get] at a reading equal to the
    expiry reports not-found; in src/agent13/lru.go [Get] treats it as
    expired exactly when the reading is strictly after the expiry, so at a
    reading equal to the expiry [Get] still returns the value. *)
Theorem c3_expiry_test :
  (∀ (V : Type) (ent : Part003.entry V) (now : Time),
     Part003.expiresAt ent ≠ GoTime.zero →
     (Part003.isExpired ent now = true ↔ (Part003.expiresAt ent ≤ now)%Z))
  ∧
  (∀ (K : Type) (EqK : EqDecision K) (CntK : Countable K) (V : Type)
     (c : Part003.Cache K V) (k : K) (ent : Part003.entry V) (now : Time),
     Part003.entries c !! k = Some ent →
     Part003.expiresAt ent ≠ GoTime.zero →
     ((Part003.Get k now c).2 = None ↔ (Part003.expiresAt ent ≤ now)%Z))
  ∧
  (∀ (V : Type) (c : Agent14.Cache V) (k : string) (ent : Agent14.entry V) (now : Time),
     Agent14.items c !! k = Some ent →
     Agent14.expiresAt ent ≠ GoTime.zero →
     ((Agent14.Get k now c).2 = inr Agent14.ErrNotFound ↔ (Agent14.expiresAt ent ≤ now)%Z))
  ∧
  (∀ (V : Type) (c : Agent13.Cache V) (k : string) (ent : Agent13.entry V) (now : Time),
     Agent13.items c !! k = Some ent →
     Agent13.expiration ent ≠ GoTime.zero →
     ((Agent13.Get k now c).2 = None ↔ (Agent13.expiration ent < now)%Z)).
Proof.
  assert (∀ (V : Type) (ent : Part003.entry V) (now : Time),
     Part003.expiresAt ent ≠ GoTime.zero →
     (Part003.isExpired ent now = true ↔ (Part003.expiresAt ent ≤ now)%Z)) as Hexp.
  { intros V ent now Hset. unfold Part003.isExpired, GoTime.IsZero, GoTime.After.
    unfold GoTime.zero in Hset.
    destruct (Z.eqb_spec (Part003.expiresAt ent) 0); [done|].
    destruct (Z.ltb_spec now (Part003.expiresAt ent)); simpl; split; (done || lia). }
  split; [exact Hexp|]. split; [|split].
  - intros K EqK CntK V c k ent now Hk Hset. rewrite <-(Hexp V ent now Hset).
    unfold Part003.Get. rewrite Hk.
    destruct (Part003.isExpired ent now); simpl; split; done.
  - intros V c k ent now Hk Hset. unfold Agent14.Get. rewrite Hk.
    unfold GoTime.IsZero, GoTime.Before. unfold GoTime.zero in Hset.
    destruct (Z.eqb_spec (Agent14.expiresAt ent) 0); [done|].
    destruct (Z.ltb_spec now (Agent14.expiresAt ent)); simpl; split; (done || lia).
  - intros V c k ent now Hk Hset. unfold Agent13.Get. rewrite Hk.
    unfold GoTime.IsZero, GoTime.After. unfold GoTime.zero in Hset.
    destruct (Z.eqb_spec (Agent13.expiration ent) 0); [done|].
    destruct (Z.ltb_spec (Agent13.expiration ent) now); simpl; split; (done || lia).
Qed.

(** C3 at the boundary: an entry that expires at 10, read at 10, in each of
    the three caches. *)
Lemma c3_expiry_test_witness :
  (Part003.isExpired {| Part003.value := 7%Z; Part003.expiresAt := 10 |} 10 = true
     ↔ (10 ≤ 10)%Z)
  ∧
  ((Agent14.Get "k" 10
      (Agent14.Set_ "k" 7%Z 10 0
         (Agent14.New {| Agent14.Capacity := 1; Agent14.CleanupInterval := 0 |}))).2
     = inr Agent14.ErrNotFound ↔ (10 ≤ 10)%Z)
  ∧
  ((Agent13.Get "k" 10 (Agent13.Set_ "k" 7%Z 10 0 (Agent13.New 1 0))).2 = None
     ↔ (10 < 10)%Z).
Proof.
  split; [|split].
  - apply (proj1 c3_expiry_test Z {| Part003.value := 7%Z; Part003.expiresAt := 10 |} 10%Z).
    vm_compute. discriminate.
  - apply (proj1 (proj2 (proj2 c3_expiry_test)) Z _ "k"
             {| Agent14.value := 7%Z; Agent14.expiresAt := 10 |} 10%Z);
      [vm_compute; reflexivity|vm_compute; discriminate].
  - apply (proj2 (proj2 (proj2 c3_expiry_test)) Z _ "k"
             {| Agent13.value := 7%Z; Agent13.expiration := 10 |} 10%Z);
      [vm_compute; reflexivity|vm_compute; discriminate].
Defined.

(** In src/agent13/lru.go an entry set at reading 0 with a TTL of 10 expires
    at 10; [Get] at reading 10 still finds it, and first misses at 11. *)
Lemma c3_counterexample_agent13 :
  let c := Agent13.Set_ "k" 7%Z 10 0 (Agent13.New 1 0) in
  Agent13.items c !! "k" = Some {| Agent13.value := 7%Z; Agent13.expiration := 10 |} ∧
  (Agent13.Get "k" 10 c).2 = Some 7%Z ∧
  (Agent13.Get "k" 11 c).2 = None.
Proof. vm_compute. done. Qed.

(** * C4: a TTL that is zero or negative *)

(** C4, as the code has it.  In src/agent14/lru.go, in every state reached
    from [New], a [Set] with a TTL of zero or less stores the entry with its
    expiry unset: after any number of sweeps, at any clock readings, the key
    is still stored and [Get] returns the value.  In src/agent1/lru.go
    ([Set]) and src/agent3/lrucache/lrucache.go ([Add]) the expiry is always
    the reading of the call plus the TTL: for a TTL of zero or less, [Get] at
    any later reading reports not-found. *)
Theorem c4_ttl_zero_or_negative :
  (∀ (V : Type) (cfg : Agent14.Config) (h : list (Agent14.event V))
     (k : string) (v : V) (ttl : Duration) (now : Time),
     (ttl ≤ 0)%Z →
     ∀ (sweeps : list Time) (now' : Time),
       Agent14.items
         (foldr Agent14.removeExpired
            (Agent14.Set_ k v ttl now (Agent14.run (Agent14.New cfg) h)) sweeps) !! k
         = Some {| Agent14.value := v; Agent14.expiresAt := GoTime.zero |} ∧
       (Agent14.Get k now'
          (foldr Agent14.removeExpired
             (Agent14.Set_ k v ttl now (Agent14.run (Agent14.New cfg) h)) sweeps)).2
         = inl v)
  ∧
  (∀ (V : Type) (c : Agent1.LRUCache V) (k : string) (v : V)
     (ttl : Duration) (now now' : Time),
     (ttl ≤ 0)%Z → (now < now')%Z →
     (Agent1.Get k now' (Agent1.Set_ k v ttl now c)).2 = None)
  ∧
  (∀ (K : Type) (EqK : EqDecision K) (CntK : Countable K) (V : Type)
     (c : Agent3.Cache K V) (k : K) (v : V) (ttl : Duration) (now now' : Time),
     (ttl ≤ 0)%Z → (now < now')%Z →
     (Agent3.Get k now' (Agent3.Add k v ttl now c)).2 = None).
Proof.
  split; [|split].
  - intros V cfg h k v ttl now Httl sweeps now'.
    pose proof (a14_Set_lookup k v ttl now _ (a14_run_inv _ h (a14_New_inv cfg))) as Hk.
    destruct (Z.gtb_spec ttl 0) as [|_]; [lia|].
    set (c := Agent14.Set_ k v ttl now _) in *. clearbody c.
    assert (Agent14.items (foldr Agent14.removeExpired c sweeps) !! k
            = Some {| Agent14.value := v; Agent14.expiresAt := GoTime.zero |}) as Hk'.
    { induction sweeps as [|t sweeps IH]; simpl; [done|].
      rewrite a14_removeExpired_lookup, IH. simpl. by rewrite andb_false_r. }
    split; [done|]. unfold Agent14.Get. by rewrite Hk'.
  - intros V c k v ttl now now' Httl Hlater.
    assert (GoTime.After now' (GoTime.Add now ttl) = true) as Hexp.
    { unfold GoTime.After, GoTime.Add. apply Z.ltb_lt. lia. }
    unfold Agent1.Set_. set (ent := Agent1.Build_entry _ _).
    assert (Agent1.expiresAt ent = GoTime.Add now ttl) as He by done. clearbody ent.
    destruct (Agent1.items c !! k) as [e|] eqn:Hk.
    + unfold Agent1.Get. simpl. by rewrite lookup_insert_eq, He, Hexp.
    + destruct (_ >? _)%Z.
      * unfold Agent1.evictLRU. simpl.
        destruct (GoList.Back _) as [tail|]; unfold Agent1.Get; simpl.
        -- destruct (decide (tail = k)) as [->|Hne].
           ++ by rewrite lookup_delete_eq.
           ++ by rewrite lookup_delete_ne, lookup_insert_eq, He, Hexp.
        -- by rewrite lookup_insert_eq, He, Hexp.
      * unfold Agent1.Get. simpl. by rewrite lookup_insert_eq, He, Hexp.
  - intros K EqK CntK V c k v ttl now now' Httl Hlater.
    assert (GoTime.After now' (GoTime.Add now ttl) = true) as Hexp.
    { unfold GoTime.After, GoTime.Add. apply Z.ltb_lt. lia. }
    unfold Agent3.Add. set (ent := Agent3.Build_entry _ _).
    assert (Agent3.expiresAt ent = GoTime.Add now ttl) as He by done. clearbody ent.
    destruct (Agent3.cache c !! k) as [e|] eqn:Hk.
    + unfold Agent3.Get. simpl. by rewrite lookup_insert_eq, He, Hexp.
    + destruct (_ && _).
      * unfold Agent3.removeOldest. simpl.
        destruct (GoList.Back _) as [tail|]; unfold Agent3.Get; simpl.
        -- destruct (decide (tail = k)) as [->|Hne].
           ++ by rewrite lookup_delete_eq.
           ++ by rewrite lookup_delete_ne, lookup_insert_eq, He, Hexp.
        -- by rewrite lookup_insert_eq, He, Hexp.
      * unfold Agent3.Get. simpl. by rewrite lookup_insert_eq, He, Hexp.
Qed.

(** C4 with a TTL of zero set at reading 5: agent14 still returns the value
    at reading 9 after two sweeps; agent1 and agent3 miss at reading 6. *)
Lemma c4_ttl_zero_or_negative_witness :
  (Agent14.items
     (foldr Agent14.removeExpired
        (Agent14.Set_ "k" 7%Z 0 5
           (Agent14.run
              (Agent14.New {| Agent14.Capacity := 1; Agent14.CleanupInterval := 1 |}) []))
        [8%Z; 6%Z]) !! "k"
     = Some {| Agent14.value := 7%Z; Agent14.expiresAt := GoTime.zero |} ∧
   (Agent14.Get "k" 9
      (foldr Agent14.removeExpired
         (Agent14.Set_ "k" 7%Z 0 5
            (Agent14.run
               (Agent14.New {| Agent14.Capacity := 1; Agent14.CleanupInterval := 1 |}) []))
         [8%Z; 6%Z])).2 = inl 7%Z)
  ∧ (Agent1.Get "k" 6 (Agent1.Set_ "k" 7%Z 0 5 (Agent1.New 1))).2 = None
  ∧ (Agent3.Get "k" 6 (Agent3.Add "k" 7%Z 0 5 (Agent3.New 1))).2 = None.
Proof.
  split; [|split].
  - apply (proj1 c4_ttl_zero_or_negative Z). lia.
  - apply (proj1 (proj2 c4_ttl_zero_or_negative) Z); lia.
  - apply (proj2 (proj2 c4_ttl_zero_or_negative) string _ _ Z); lia.
Defined.

(** In src/agent1/lru.go and src/agent3/lrucache/lrucache.go an entry stored
    with a TTL of 0 at reading 5 is gone at reading 6, and one stored with a
    TTL of -1 is gone at the very reading of the call; the sweep of agent1
    removes the former. *)
Lemma c4_counterexample_agent1_agent3 :
  (Agent1.Get "k" 6 (Agent1.Set_ "k" 7%Z 0 5 (Agent1.New 1))).2 = None ∧
  (Agent1.Get "k" 5 (Agent1.Set_ "k" 7%Z (-1) 5 (Agent1.New 1))).2 = None ∧
  Agent1.items (Agent1.removeExpired 6 (Agent1.Set_ "k" 7%Z 0 5 (Agent1.New 1))) !! "k"
    = None ∧
  (Agent3.Get "k" 6 (Agent3.Add "k" 7%Z 0 5 (Agent3.New 1))).2 = None ∧
  (Agent3.Get "k" 5 (Agent3.Add "k" 7%Z (-1) 5 (Agent3.New 1))).2 = None.
Proof. vm_compute. done. Qed.

(** * C5: what [Len] counts *)

(** On a store whose map and list agree, [Len] of src/unnamed/part_003
    returns the number of entries that are not expired and keeps exactly
    those. *)
Lemma p3_Len_live `{Countable K} {V : Type} (now : Time) (c : Part003.Cache K V) :
  store_wf (Part003.entries c) (Part003.order c) →
  (Part003.Len now c).2 = Z.of_nat (size (Part003.live now c)) ∧
  Part003.entries (Part003.Len now c).1 = Part003.live now c.
Proof.
  intros Hwf. unfold Part003.Len. simpl.
  rewrite <-(p3_removeExpiredLocked_entries now _ Hwf). split; [|done].
  unfold GoList.Len. f_equal. symmetry. apply store_wf_size.
  by apply p3_removeExpiredLocked_wf.
Qed.

(** C5, as the code has it.  In src/unnamed/part_003, in every state reached
    from [New], [Len()] at a clock reading returns the number of stored keys
    whose entry is not expired at that reading, and leaves exactly those
    entries stored.  In src/agent14/lru.go, in every state reached from
    [New], [Len()] returns the number of stored entries, the expired ones
    included: the live ones plus the stale ones. *)
Theorem c5_len_counts :
  (∀ (K : Type) (EqK : EqDecision K) (CntK : Countable K) (V : Type)
     (capacity : Z) (opts : list Part003.Option) (c0 : Part003.Cache K V)
     (h : list (Part003.event K V)) (now : Time),
     Part003.New capacity opts = inl c0 →
     (Part003.Len now (Part003.run c0 h)).2
       = Z.of_nat (size (Part003.live now (Part003.run c0 h))) ∧
     Part003.entries (Part003.Len now (Part003.run c0 h)).1
       = Part003.live now (Part003.run c0 h))
  ∧
  (∀ (V : Type) (cfg : Agent14.Config) (h : list (Agent14.event V)) (now : Time),
     Agent14.Len (Agent14.run (Agent14.New cfg) h)
       = Z.of_nat (length (Agent14.order (Agent14.run (Agent14.New cfg) h))) ∧
     Agent14.Len (Agent14.run (Agent14.New cfg) h)
       = (Z.of_nat (size (Agent14.live now (Agent14.run (Agent14.New cfg) h))) +
          Z.of_nat (size (Agent14.stale now (Agent14.run (Agent14.New cfg) h))))%Z).
Proof.
  split.
  - intros K EqK CntK V capacity opts c0 h now Hnew.
    pose proof (p3_run_inv c0 h (p3_New_inv _ _ _ Hnew)) as (Hwf & _).
    by apply p3_Len_live.
  - intros V cfg h now.
    pose proof (a14_run_inv _ h (a14_New_inv (V:=V) cfg)) as (Hwf & _).
    set (c := Agent14.run _ h) in *. clearbody c. unfold Agent14.Len.
    split; [by rewrite (store_wf_size _ _ Hwf)|].
    unfold Agent14.live, Agent14.stale. rewrite <-Nat2Z.inj_add. f_equal.
    rewrite <-map_size_disj_union by apply map_disjoint_filter_complement.
    by rewrite map_filter_union_complement.
Qed.

(** C5 on part_003 after [SetWithTTL(soon, 1, 20)] and
    [SetWithTTL(later, 2, 200)] at reading 0, read at 60. *)
Lemma c5_len_counts_witness :
  ∃ c0 : Part003.Cache string Z,
    Part003.New 2 [] = inl c0 ∧
    let h := [(0%Z, Part003.CallSetWithTTL "later" 2%Z 200);
              (0%Z, Part003.CallSetWithTTL "soon" 1%Z 20)] in
    (Part003.Len 60 (Part003.run c0 h)).2
      = Z.of_nat (size (Part003.live 60 (Part003.run c0 h))) ∧
    Part003.entries (Part003.Len 60 (Part003.run c0 h)).1
      = Part003.live 60 (Part003.run c0 h).
Proof.
  eexists. split; [reflexivity|]. intros h.
  apply (proj1 c5_len_counts string _ _ Z 2%Z []). reflexivity.
Defined.

(** In src/agent14/lru.go, an entry set at reading 0 with a TTL of 10 is
    expired at reading 20 ([Get] reports not-found, no stored entry is live),
    and [Len()] still counts it. *)
Lemma c5_counterexample_agent14 :
  let c := Agent14.Set_ "k" 7%Z 10 0
             (Agent14.New {| Agent14.Capacity := 2; Agent14.CleanupInterval := 0 |}) in
  Agent14.Len c = 1%Z ∧
  size (Agent14.live 20 c) = 0 ∧
  (Agent14.Get "k" 20 c).2 = inr Agent14.ErrNotFound.
Proof. vm_compute. done. Qed.

(** * C6: construction with a capacity that is not positive *)

(** C6, as the code has it.  In src/unnamed/part_003, [New] with a capacity
    of zero or less returns the error [ErrInvalidCapacity] and no cache,
    whatever the options, and a cache it does return has the positive
    capacity it was asked for.  In src/agent14/lru.go, [New] with a capacity
    of zero or less returns an empty cache of capacity 128, and keeps a
    positive capacity as given. *)
Theorem c6_invalid_capacity :
  (∀ (K : Type) (EqK : EqDecision K) (CntK : Countable K) (V : Type)
     (capacity : Z) (opts : list Part003.Option),
     (capacity ≤ 0)%Z →
     Part003.New (K:=K) (V:=V) capacity opts = inr Part003.ErrInvalidCapacity)
  ∧
  (∀ (K : Type) (EqK : EqDecision K) (CntK : Countable K) (V : Type)
     (capacity : Z) (opts : list Part003.Option) (c : Part003.Cache K V),
     Part003.New capacity opts = inl c →
     (0 < capacity)%Z ∧ Part003.capacity c = capacity)
  ∧
  (∀ (V : Type) (cfg : Agent14.Config),
     (Agent14.Capacity cfg ≤ 0)%Z →
     Agent14.capacity (Agent14.New (V:=V) cfg) = 128%Z ∧
     Agent14.items (Agent14.New (V:=V) cfg) = ∅ ∧
     Agent14.order (Agent14.New (V:=V) cfg) = [])
  ∧
  (∀ (V : Type) (cfg : Agent14.Config),
     (0 < Agent14.Capacity cfg)%Z →
     Agent14.capacity (Agent14.New (V:=V) cfg) = Agent14.Capacity cfg).
Proof.
  split; [|split; [|split]].
  - intros K EqK CntK V capacity opts Hcap. unfold Part003.New.
    destruct (Z.leb_spec capacity 0); [done|lia].
  - intros K EqK CntK V capacity opts c Hnew.
    apply p3_New_inl in Hnew as (Hcap & Hpos & _). done.
  - intros V cfg Hcap. unfold Agent14.New. simpl.
    destruct (Z.leb_spec (Agent14.Capacity cfg) 0); [done|lia].
  - intros V cfg Hcap. unfold Agent14.New. simpl.
    destruct (Z.leb_spec (Agent14.Capacity cfg) 0); [lia|done].
Qed.

(** C6 at capacity 0 and -1 for part_003, and at capacity 0 for agent14. *)
Lemma c6_invalid_capacity_witness :
  Part003.New (K:=string) (V:=Z) 0 [] = inr Part003.ErrInvalidCapacity ∧
  Part003.New (K:=string) (V:=Z) (-1) [Part003.WithDefaultTTL GoTime.Second]
    = inr Part003.ErrInvalidCapacity ∧
  (Agent14.capacity
     (Agent14.New (V:=Z) {| Agent14.Capacity := 0; Agent14.CleanupInterval := 0 |})
     = 128%Z ∧
   Agent14.items
     (Agent14.New (V:=Z) {| Agent14.Capacity := 0; Agent14.CleanupInterval := 0 |}) = ∅ ∧
   Agent14.order
     (Agent14.New (V:=Z) {| Agent14.Capacity := 0; Agent14.CleanupInterval := 0 |}) = []).
Proof.
  split; [|split].
  - apply (proj1 c6_invalid_capacity string _ _ Z). lia.
  - apply (proj1 c6_invalid_capacity string _ _ Z). lia.
  - apply (proj1 (proj2 (proj2 c6_invalid_capacity)) Z). simpl. lia.
Defined.

(** In src/agent14/lru.go, [New] with capacity 0 or -5 yields a cache of
    capacity 128 that stores and returns entries. *)
Lemma c6_counterexample_agent14 :
  let c := Agent14.New (V:=Z) {| Agent14.Capacity := 0; Agent14.CleanupInterval := 0 |} in
  Agent14.capacity c = 128%Z ∧
  Agent14.capacity
    (Agent14.New (V:=Z) {| Agent14.Capacity := -5; Agent14.CleanupInterval := 0 |})
    = 128%Z ∧
  (Agent14.Get "k" 1 (Agent14.Set_ "k" 7%Z 0 0 c)).2 = inl 7%Z ∧
  Agent14.Len (Agent14.Set_ "k" 7%Z 0 0 c) = 1%Z.
Proof. vm_compute. done. Qed.

(** * C7: one sweep pass *)

Section SweepComplete.
Context `{Countable K} {V : Type}.

(** The sweep of src/unnamed/part_003 removes every expired entry, wherever
    it sits in the list, and keeps every other entry. *)
Lemma p3_sweep_complete (now : Time) (c : Part003.Cache K V) :
  store_wf (Part003.entries c) (Part003.order c) →
  (∀ k ent, Part003.entries c !! k = Some ent → Part003.isExpired ent now = true →
     Part003.entries (Part003.removeExpiredLocked now c) !! k = None ∧
     k ∉ Part003.order (Part003.removeExpiredLocked now c)) ∧
  (∀ k ent, Part003.entries c !! k = Some ent → Part003.isExpired ent now = false →
     Part003.entries (Part003.removeExpiredLocked now c) !! k = Some ent ∧
     k ∈ Part003.order (Part003.removeExpiredLocked now c)).
Proof.
  intros Hwf. pose proof (p3_removeExpiredLocked_wf now c Hwf) as [_ Hdom].
  pose proof (p3_removeExpiredLocked_entries now c Hwf) as Hlive.
  split; intros k ent Hk Hexp.
  - assert (Part003.entries (Part003.removeExpiredLocked now c) !! k = None) as Hnone.
    { rewrite Hlive. apply map_lookup_filter_None. right. intros e He. simpl.
      assert (e = ent) as -> by congruence. by rewrite Hexp. }
    split; [done|]. rewrite Hdom, Hnone. by intros [? ?].
  - assert (Part003.entries (Part003.removeExpiredLocked now c) !! k = Some ent) as Hsome.
    { rewrite Hlive. by apply map_lookup_filter_Some. }
    split; [done|]. rewrite Hdom, Hsome. eauto.
Qed.
End SweepComplete.

(** The sweep of src/agent14/lru.go removes every entry whose expiry is set
    and strictly before the reading, wherever it sits in the list. *)
Lemma a14_sweep_complete {V : Type} (now : Time) (c : Agent14.Cache V) k ent :
  store_wf (Agent14.items c) (Agent14.order c) →
  Agent14.items c !! k = Some ent →
  Agent14.expiresAt ent ≠ GoTime.zero → (Agent14.expiresAt ent < now)%Z →
  Agent14.items (Agent14.removeExpired now c) !! k = None.
Proof.
  intros [_ Hdom] Hk Hset Hlt. rewrite a14_removeExpired_lookup, Hk.
  rewrite bool_decide_eq_true_2 by (rewrite elem_of_reverse, Hdom; eauto).
  unfold GoTime.IsZero, GoTime.After. unfold GoTime.zero in Hset.
  destruct (Z.eqb_spec (Agent14.expiresAt ent) 0); [done|].
  destruct (Z.ltb_spec (Agent14.expiresAt ent) now); [done|lia].
Qed.

(** At a reading equal to the expiry, [Get] of src/agent14/lru.go reports
    not-found while its sweep keeps the entry. *)
Lemma a14_sweep_boundary :
  let c := Agent14.Set_ "k" 7%Z 10 0
             (Agent14.New {| Agent14.Capacity := 2; Agent14.CleanupInterval := 1 |}) in
  (Agent14.Get "k" 10 c).2 = inr Agent14.ErrNotFound ∧
  Agent14.items (Agent14.removeExpired 10 c) !! "k"
    = Some {| Agent14.value := 7%Z; Agent14.expiresAt := 10 |}.
Proof. vm_compute. done. Qed.

(** C7 fails on the [cleanup] of the [LRU] of src/agent11/lru/cache.go.
    [Put(y, 1, 1h)] then [Put(x, 2, 1ms)] at reading 0 leave [x] in front of
    [y].  At the tick one minute later, [x] is expired and lies closer to the
    front than [y], which is not; the sweep stops at [y] and leaves the cache
    as it was, [x] included. *)
Theorem c7_agent11_cleanup_stops_at_live_entry :
  let lru := Agent11LRU.Put "x" 2%Z GoTime.Millisecond 0
               (Agent11LRU.Put "y" 1%Z (60 * GoTime.Minute) 0 (Agent11LRU.New 2)) in
  Agent11LRU.lst lru = ["x"; "y"] ∧
  (Agent11LRU.Get "x" GoTime.Minute lru).2 = None ∧
  (Agent11LRU.Get "y" GoTime.Minute lru).2 = Some 1%Z ∧
  Agent11LRU.cleanup_tick GoTime.Minute lru = lru ∧
  is_Some (Agent11LRU.items (Agent11LRU.cleanup_tick GoTime.Minute lru) !! "x").
Proof. vm_compute. split_and!; eauto. Qed.

(** * C8: [Peek] *)

(** C8.  In src/unnamed/part_006 and in the [Cache] of
    src/agent11/lru/cache.go: [Peek] reports what [Get] reports, for every
    key; for a stored key that is not expired it returns the value and leaves
    the whole cache, recency list included, as it was, where [Get] moves the
    key to the front; so the back of the list, the next eviction victim, is
    the same after a [Peek], and a following [Set] is the one the cache would
    have done without it.  For any key, [Peek] never moves an element (the
    list is unchanged or has lost the expired key), and a repeated [Peek]
    changes nothing more. *)
Theorem c8_peek_never_promotes :
  (∀ (K : Type) (EqK : EqDecision K) (CntK : Countable K) (V : Type)
     (c : Part006.Cache K V) (k : K) (ent : Part006.entry V) (now : Time),
     Part006.items c !! k = Some ent →
     (Part006.ttl ent >? 0)%Z && GoTime.After now (Part006.expiresAt ent) = false →
     Part006.Peek k now c = (c, Some (Part006.value ent)) ∧
     (Part006.Get k now c).2 = Some (Part006.value ent) ∧
     Part006.lst (Part006.Get k now c).1 = GoList.MoveToFront k (Part006.lst c) ∧
     GoList.Back (Part006.lst (Part006.Peek k now c).1) = GoList.Back (Part006.lst c) ∧
     (∀ k' v' ttl' now', Part006.Set_ k' v' ttl' now' (Part006.Peek k now c).1
                         = Part006.Set_ k' v' ttl' now' c))
  ∧
  (∀ (K : Type) (EqK : EqDecision K) (CntK : Countable K) (V : Type)
     (c : Part006.Cache K V) (k : K) (now : Time),
     (Part006.Peek k now c).2 = (Part006.Get k now c).2 ∧
     (Part006.lst (Part006.Peek k now c).1 = Part006.lst c ∨
      Part006.lst (Part006.Peek k now c).1 = GoList.Remove k (Part006.lst c)) ∧
     Part006.Peek k now (Part006.Peek k now c).1 = Part006.Peek k now c)
  ∧
  (∀ (K : Type) (EqK : EqDecision K) (CntK : Countable K) (V : Type)
     (c : Agent11.Cache K V) (k : K) (ent : Agent11.entry V) (now : Time),
     Agent11.items c !! k = Some ent →
     Agent11.isExpired ent now = false →
     Agent11.Peek k now c = (c, Some (Agent11.value ent)) ∧
     (Agent11.Get k now c).2 = Some (Agent11.value ent) ∧
     Agent11.evictionList (Agent11.Get k now c).1
       = GoList.MoveToFront k (Agent11.evictionList c) ∧
     GoList.Back (Agent11.evictionList (Agent11.Peek k now c).1)
       = GoList.Back (Agent11.evictionList c) ∧
     (∀ k' v' ttl' now', Agent11.SetWithTTL k' v' ttl' now' (Agent11.Peek k now c).1
                         = Agent11.SetWithTTL k' v' ttl' now' c))
  ∧
  (∀ (K : Type) (EqK : EqDecision K) (CntK : Countable K) (V : Type)
     (c : Agent11.Cache K V) (k : K) (now : Time),
     (Agent11.Peek k now c).2 = (Agent11.Get k now c).2 ∧
     (Agent11.evictionList (Agent11.Peek k now c).1 = Agent11.evictionList c ∨
      Agent11.evictionList (Agent11.Peek k now c).1
        = GoList.Remove k (Agent11.evictionList c)) ∧
     Agent11.Peek k now (Agent11.Peek k now c).1 = Agent11.Peek k now c).
Proof.
  split; [|split; [|split]].
  - intros K EqK CntK V c k ent now Hk Hlive.
    assert (Part006.Peek k now c = (c, Some (Part006.value ent))) as HP.
    { unfold Part006.Peek. by rewrite Hk, Hlive. }
    rewrite HP. unfold Part006.Get. rewrite Hk, Hlive. done.
  - intros K EqK CntK V c k now. unfold Part006.Peek, Part006.Get.
    destruct (Part006.items c !! k) as [ent|] eqn:Hk.
    + destruct (_ && _) eqn:Hexp; simpl.
      * split; [done|]. split; [by right|]. by rewrite lookup_delete_eq.
      * split; [done|]. split; [by left|]. by rewrite Hk, Hexp.
    + simpl. split; [done|]. split; [by left|]. by rewrite Hk.
  - intros K EqK CntK V c k ent now Hk Hlive.
    assert (Agent11.Peek k now c = (c, Some (Agent11.value ent))) as HP.
    { unfold Agent11.Peek. by rewrite Hk, Hlive. }
    rewrite HP. unfold Agent11.Get. rewrite Hk, Hlive. done.
  - intros K EqK CntK V c k now. unfold Agent11.Peek, Agent11.Get.
    destruct (Agent11.items c !! k) as [ent|] eqn:Hk.
    + destruct (Agent11.isExpired ent now) eqn:Hexp; simpl.
      * split; [done|]. split; [by right|]. by rewrite lookup_delete_eq.
      * split; [done|]. split; [by left|]. by rewrite Hk, Hexp.
    + simpl. split; [done|]. split; [by left|]. by rewrite Hk.
Qed.

(** C8 on a cache of capacity 2 holding [a] then [b], in both
    implementations. *)
Lemma c8_peek_never_promotes_witness :
  (∃ c0 : Part006.Cache string Z,
     Part006.New 2 [] = Some c0 ∧
     let c := Part006.Set_ "b" 2%Z 0 1 (Part006.Set_ "a" 1%Z 0 0 c0) in
     Part006.Peek "a" 5 c = (c, Some 1%Z) ∧
     (Part006.Get "a" 5 c).2 = Some 1%Z ∧
     Part006.lst (Part006.Get "a" 5 c).1 = GoList.MoveToFront "a" (Part006.lst c) ∧
     GoList.Back (Part006.lst (Part006.Peek "a" 5 c).1) = GoList.Back (Part006.lst c) ∧
     (∀ k' v' ttl' now', Part006.Set_ k' v' ttl' now' (Part006.Peek "a" 5 c).1
                         = Part006.Set_ k' v' ttl' now' c))
  ∧
  (∃ c0 : Agent11.Cache string Z,
     Agent11.New 2 [] = Some c0 ∧
     let c := Agent11.run c0 [(1%Z, Agent11.CallSet "b" 2%Z);
                              (0%Z, Agent11.CallSet "a" 1%Z)] in
     Agent11.Peek "a" 5 c = (c, Some 1%Z) ∧
     (Agent11.Get "a" 5 c).2 = Some 1%Z ∧
     Agent11.evictionList (Agent11.Get "a" 5 c).1
       = GoList.MoveToFront "a" (Agent11.evictionList c) ∧
     GoList.Back (Agent11.evictionList (Agent11.Peek "a" 5 c).1)
       = GoList.Back (Agent11.evictionList c) ∧
     (∀ k' v' ttl' now', Agent11.SetWithTTL k' v' ttl' now' (Agent11.Peek "a" 5 c).1
                         = Agent11.SetWithTTL k' v' ttl' now' c)).
Proof.
  split.
  - eexists. split; [reflexivity|]. intros c.
    apply (proj1 c8_peek_never_promotes string _ _ Z c "a"
             {| Part006.value := 1%Z; Part006.expiresAt := GoTime.zero;
                Part006.ttl := 0 |} 5%Z); vm_compute; reflexivity.
  - eexists. split; [reflexivity|]. intros c.
    apply (proj1 (proj2 (proj2 c8_peek_never_promotes)) string _ _ Z c "a"
             {| Agent11.value := 1%Z; Agent11.expires := GoTime.zero |} 5%Z);
      vm_compute; reflexivity.
Defined.

(** With capacity 2 and [a], [b] stored in that order: after [Peek(a)] a
    [Set(c)] evicts [a], the key it would have evicted without the [Peek];
    after [Get(a)] it evicts [b]. *)
Lemma peek_then_set_scenario :
  ∃ c0 : Part006.Cache string Z,
    Part006.New 2 [] = Some c0 ∧
    let c := Part006.Set_ "b" 2%Z 0 1 (Part006.Set_ "a" 1%Z 0 0 c0) in
    Part006.lst (Part006.Set_ "c" 3%Z 0 6 (Part006.Peek "a" 5 c).1) = ["c"; "b"] ∧
    Part006.lst (Part006.Set_ "c" 3%Z 0 6 c) = ["c"; "b"] ∧
    Part006.lst (Part006.Set_ "c" 3%Z 0 6 (Part006.Get "a" 5 c).1) = ["c"; "a"].
Proof. eexists. split; [reflexivity|]. vm_compute. done. Qed.

(** * C9: [Close] called more than once *)

Section Part003Close.
Context `{Countable K} {V : Type}.
Import Part003.
Implicit Types (c : Cache K V).

Lemma p3_step_stop ev c :
  GoChan.closed (stopCh c) = stopOnce c →
  GoChan.closed (stopCh (step ev c)) = stopOnce (step ev c).
Proof.
  intros Hinv.
  assert (∀ c', stopOnce c' = stopOnce c ∧ stopCh c' = stopCh c →
                GoChan.closed (stopCh c') = stopOnce c') as Hsame.
  { intros c' [-> ->]. done. }
  assert (∀ now, stopOnce (removeExpiredLocked now c) = stopOnce c ∧
                 stopCh (removeExpiredLocked now c) = stopCh c) as Hsweep.
  { intros now. unfold removeExpiredLocked.
    apply (foldl_preserves (λ c', stopOnce c' = stopOnce c ∧ stopCh c' = stopCh c));
      [|done].
    intros c' k Hc'. destruct (entries c' !! k) as [e|]; [|done].
    by destruct (isExpired e now). }
  assert (∀ k v ttl now, stopOnce (SetWithTTL k v ttl now c).1 = stopOnce c ∧
                         stopCh (SetWithTTL k v ttl now c).1 = stopCh c) as Hset.
  { intros k v ttl now. unfold SetWithTTL. destruct (ttl <? 0)%Z; [done|].
    destruct (entries c !! k); [done|]. simpl. unfold enforceCapacityLocked.
    by apply (p3_enforce_loop_preserves
                (λ c', stopOnce c' = stopOnce c ∧ stopCh c' = stopCh c)). }
  unfold step. destruct ev.2; simpl.
  - apply Hsame, Hset.
  - apply Hsame, Hset.
  - apply Hsame. unfold Get. destruct (entries c !! key) as [e|]; [|done].
    by destruct (isExpired e _).
  - apply Hsame. unfold Delete. by destruct (entries c !! key).
  - apply Hsame, Hsweep.
  - done.
  - unfold Close. destruct (stopOnce c) eqn:Hso; simpl; [by rewrite Hso|].
    unfold GoChan.close. rewrite Hinv. simpl. done.
  - apply Hsame, Hsweep.
Qed.

(** In every state reached from [New], [Close] of src/unnamed/part_003
    returns without a panic and leaves the store alone, and every further
    [Close] changes nothing. *)
Lemma p3_Close_idempotent capacity opts (c0 : Cache K V) h :
  New capacity opts = inl c0 →
  ∃ c1, Close (run c0 h) = Some c1 ∧ Close c1 = Some c1 ∧
        GoChan.closed (stopCh c1) = true ∧
        entries c1 = entries (run c0 h) ∧ order c1 = order (run c0 h).
Proof.
  intros Hnew.
  assert (GoChan.closed (stopCh (run c0 h)) = stopOnce (run c0 h)) as Hinv.
  { induction h as [|ev h IH]; simpl; [|by apply p3_step_stop].
    revert Hnew. unfold New. destruct (capacity <=? 0)%Z; [done|].
    destruct (_ <? 0)%Z; [done|]. by intros [= <-]. }
  set (c := run c0 h) in *. clearbody c. unfold Close.
  destruct (stopOnce c) eqn:Hso.
  - exists c. rewrite Hso. auto.
  - unfold GoChan.close. rewrite Hinv. simpl. eexists. split; [done|].
    simpl. done.
Qed.
End Part003Close.

(** [Close] of src/agent12/internal/lru/lru.go on a new cache returns,
    whatever sweeps run while it waits, with the cleanup goroutine returned
    and the counter at 0, and every further [Close] changes nothing. *)
Lemma a12_Close_idempotent {V : Type} maxSize cleanupInterval (c0 : Agent12.Cache V)
    (sweeps : list Time) :
  Agent12.New maxSize cleanupInterval = Some c0 →
  ∃ c1, Agent12.Close sweeps c0 = Some c1 ∧
        (∀ sweeps', Agent12.Close sweeps' c1 = Some c1) ∧
        Agent12.wg c1 = 0%Z ∧ Agent12.cleanup_ c1 = Agent12.Returned ∧
        GoChan.closed (Agent12.stopCh c1) = true.
Proof.
  unfold Agent12.New. destruct (maxSize <=? 0)%Z; [done|].
  destruct (_ <=? 0)%Z; [done|]. intros [= <-].
  unfold Agent12.Close. simpl.
  set (c1 := {| Agent12.maxSize := maxSize; Agent12.items := ∅; Agent12.lst := [];
                Agent12.stopCh := {| GoChan.closed := true |}; Agent12.wg := 1;
                Agent12.closeOnce := true; Agent12.cleanup_ := Agent12.Running |}).
  assert (foldl (λ c now, Agent12.cleanup_select (Agent12.CaseTick now) c) c1 sweeps
          = c1) as ->.
  { induction sweeps as [|t sweeps IH]; [done|]. simpl. exact IH. }
  simpl. eexists. split; [reflexivity|]. done.
Qed.

Section Agent14Close.
Context {V : Type}.
Import Agent14.

Lemma a14_run_stopCh cfg (h : list (event V)) :
  GoChan.closed (stopCh (run (New cfg) h)) = false.
Proof.
  induction h as [|ev h IH]; simpl; [done|].
  set (c := run (New cfg) h) in *. clearbody c.
  unfold step. destruct ev.2; simpl; try done.
  - unfold Set_. destruct (items c !! key); [done|].
    destruct (_ >? _)%Z; [|done]. unfold removeOldestLocked.
    by destruct (GoList.Back _).
  - unfold Get. destruct (items c !! key) as [e|]; [|done]. by destruct (_ || _).
  - unfold Delete. by destruct (items c !! key).
  - unfold removeExpired.
    apply (foldl_preserves (λ c', GoChan.closed (stopCh c') = false)); [|done].
    intros c' k Hc'. destruct (items c' !! k) as [e|]; [|done]. by destruct (_ && _).
Qed.
End Agent14Close.

(** C9 fails on src/agent14/lru.go.  In every state reached from [New], the
    first [Close] closes the stop channel and returns; a second [Close]
    closes the channel again, which is a panic, where the specification asks
    for a call without effect. *)
Theorem c9_agent14_second_close_panics :
  ∀ (V : Type) (cfg : Agent14.Config) (h : list (Agent14.event V)),
    ∃ c1, Agent14.Close (Agent14.run (Agent14.New cfg) h) = Some c1 ∧
          Agent14.items c1 = Agent14.items (Agent14.run (Agent14.New cfg) h) ∧
          Agent14.Close c1 = None.
Proof.
  intros V cfg h. pose proof (a14_run_stopCh cfg h) as Hopen.
  set (c := Agent14.run _ h) in *. clearbody c.
  unfold Agent14.Close at 1. unfold GoChan.close. rewrite Hopen.
  eexists. split; [reflexivity|]. split; [done|]. reflexivity.
Qed.

(** ** Invariants of src/unnamed/part_006 *)

Section Part006Facts.
Context `{Countable K} {V : Type}.
Import Part006.
Implicit Types (c : Cache K V) (k : K).

Lemma p6_opts_store (opts : list (Option (K:=K) (V:=V))) c :
  Forall exported opts →
  items (foldl (λ c o, o c) c opts) = items c ∧
  lst (foldl (λ c o, o c) c opts) = lst c.
Proof.
  intros Hopts. revert c. induction Hopts as [|o opts Ho _ IH]; intros c; simpl; [done|].
  destruct (IH (o c)) as [-> ->].
  destruct Ho as [[n ->]|[d ->]]; [done|].
  unfold WithJanitorInterval. by destruct (janitor_ c).
Qed.

Lemma p6_startJanitor_Some c c0 : startJanitor c = Some c0 → c0 = c.
Proof.
  unfold startJanitor. destruct (janitor_ c) as [j|]; [|by intros [= <-]].
  destruct (interval j <=? 0)%Z; [done|by intros [= <-]].
Qed.

Lemma p6_New_inv capacity (opts : list (Option (K:=K) (V:=V))) c0 :
  Forall exported opts → New capacity opts = Some c0 → inv c0.
Proof.
  intros Hopts. unfold New. destruct (capacity <=? 0)%Z; [done|].
  intros ->%p6_startJanitor_Some.
  unfold inv. destruct (p6_opts_store opts
    {| cap := capacity; items := ∅; lst := [];
       janitor_ := Some {| interval := (30 * GoTime.Second)%Z; stop := GoChan.make |} |}
    Hopts) as [-> ->].
  simpl. split; [apply store_wf_empty|]. unfold GoList.Len. simpl. lia.
Qed.

(** Whether [New] returns does not depend on a [WithCapacity] applied
    last, which then sets the limit. *)
Lemma p6_New_WithCapacity capacity (opts : list (Option (K:=K) (V:=V))) c0 n :
  New capacity opts = Some c0 →
  ∃ c1, New capacity (opts ++ [WithCapacity n]) = Some c1 ∧ cap c1 = n.
Proof.
  unfold New. destruct (capacity <=? 0)%Z; [done|]. rewrite foldl_app. simpl.
  intros Hc0. pose proof (p6_startJanitor_Some _ _ Hc0) as ->.
  revert Hc0. unfold startJanitor. simpl.
  destruct (janitor_ _) as [j|]; [|by eauto].
  destruct (interval j <=? 0)%Z; [done|by eauto].
Qed.

Lemma p6_opts_janitor (opts : list (Option (K:=K) (V:=V))) c :
  Forall exported opts → is_Some (janitor_ c) →
  is_Some (janitor_ (foldl (λ c o, o c) c opts)).
Proof.
  intros Hopts. revert c. induction Hopts as [|o opts Ho _ IH]; intros c Hj; simpl;
    [done|].
  apply IH. destruct Ho as [[n ->]|[d ->]]; [done|].
  unfold WithJanitorInterval. destruct (janitor_ c); [by eauto|done].
Qed.

(** With the exported options, [New] returns a cache only when the janitor
    interval the options leave is positive. *)
Lemma p6_New_interval capacity (opts : list (Option (K:=K) (V:=V))) c0 :
  Forall exported opts → New capacity opts = Some c0 →
  ∃ j, janitor_ c0 = Some j ∧ (0 < interval j)%Z.
Proof.
  intros Hopts. unfold New. destruct (capacity <=? 0)%Z; [done|].
  intros Hc0. pose proof (p6_startJanitor_Some _ _ Hc0) as ->.
  destruct (p6_opts_janitor opts
    {| cap := capacity; items := ∅; lst := [];
       janitor_ := Some {| interval := (30 * GoTime.Second)%Z; stop := GoChan.make |} |}
    Hopts) as [j Hj]; [by eauto|].
  revert Hc0. unfold startJanitor. rewrite Hj.
  destruct (Z.leb_spec (interval j) 0); [done|]. intros _. eauto.
Qed.

Lemma p6_New_bad_interval capacity (opts : list (Option (K:=K) (V:=V))) d :
  Forall exported opts → (d ≤ 0)%Z →
  New capacity (opts ++ [WithJanitorInterval d]) = None.
Proof.
  intros Hopts Hd. unfold New. destruct (capacity <=? 0)%Z; [done|].
  rewrite foldl_app. simpl.
  destruct (p6_opts_janitor opts
    {| cap := capacity; items := ∅; lst := [];
       janitor_ := Some {| interval := (30 * GoTime.Second)%Z; stop := GoChan.make |} |}
    Hopts) as [j Hj]; [by eauto|].
  unfold WithJanitorInterval. rewrite Hj. unfold startJanitor. simpl.
  destruct (Z.leb_spec d 0); [done|lia].
Qed.

Lemma p6_remove_inv k c : inv c → inv (removeElementLocked k c).
Proof.
  intros (Hwf & Hle). split; [by apply store_wf_remove|]. simpl.
  pose proof (Remove_length_le k (lst c)). unfold GoList.Len in *. lia.
Qed.

Lemma p6_Set_inv k v ttl now c : inv c → inv (Set_ k v ttl now c).
Proof.
  intros (Hwf & Hle). unfold Set_.
  destruct (items c !! k) as [e|] eqn:Hk.
  - split; simpl.
    + apply store_wf_update; [by eauto|]. by apply store_wf_move.
    + unfold GoList.Len in *. rewrite MoveToFront_length; [done|apply Hwf].
  - destruct (Z.geb_spec (GoList.Len (lst c)) (cap c)) as [Hge|Hlt].
    + unfold removeOldestLocked.
      destruct (GoList.Back (lst c)) as [tail|] eqn:Hback.
      * apply Back_Some in Hback as [l' Hl'].
        assert (S (length (GoList.Remove tail (lst c))) = length (lst c)) as Hlen.
        { apply Remove_length; [apply Hwf|]. rewrite Hl'.
          apply elem_of_app. right. by left. }
        split; simpl.
        -- apply store_wf_push; [|by apply store_wf_remove].
           destruct (decide (k = tail)) as [->|Hne].
           ++ apply lookup_delete_eq.
           ++ by rewrite lookup_delete_ne.
        -- unfold GoList.Len, GoList.PushFront in *. simpl. lia.
      * apply last_None in Hback. split; simpl.
        -- by apply store_wf_push.
        -- unfold GoList.Len, GoList.PushFront. rewrite Hback. simpl. lia.
    + split; simpl.
      * by apply store_wf_push.
      * unfold GoList.Len, GoList.PushFront in *. simpl. lia.
Qed.

Lemma p6_Get_inv k now c : inv c → inv (Get k now c).1.
Proof.
  intros Hinv. unfold Get. destruct (items c !! k) as [e|]; [|done].
  destruct (_ && _); simpl; [by apply p6_remove_inv|].
  destruct Hinv as (Hwf & Hle). split; [by apply store_wf_move|].
  simpl. unfold GoList.Len in *. rewrite MoveToFront_length; [done|apply Hwf].
Qed.

Lemma p6_expireScan_inv now c : inv c → inv (expireScan now c).
Proof.
  unfold expireScan. apply (foldl_preserves inv).
  intros c' k Hinv. destruct (items c' !! k) as [e|]; [|done].
  destruct (_ && _); [|done]. by apply p6_remove_inv.
Qed.

Lemma p6_Close_store c :
  ∃ c1, Close c = Some c1 ∧ Close c1 = Some c1 ∧
        items c1 = items c ∧ lst c1 = lst c ∧ cap c1 = cap c.
Proof.
  unfold Close. destruct (janitor_ c) as [j|] eqn:Hj.
  - destruct (GoChan.closed (stop j)) eqn:Hcl.
    + exists c. by rewrite Hj, Hcl.
    + unfold GoChan.close. rewrite Hcl. simpl. eexists. split; [reflexivity|]. done.
  - exists c. by rewrite Hj.
Qed.

Lemma p6_step_inv ev c : inv c → inv (step ev c).
Proof.
  intros Hinv. unfold step. destruct ev.2; simpl.
  - by apply p6_Set_inv.
  - by apply p6_Get_inv.
  - unfold Peek. destruct (items c !! key) as [e|]; [|done].
    destruct (_ && _); simpl; [by apply p6_remove_inv|done].
  - unfold Delete. destruct (items c !! key); [|done]. by apply p6_remove_inv.
  - done.
  - destruct (p6_Close_store c) as (c1 & -> & _ & Hm & Hl & Hc). simpl.
    unfold inv. by rewrite Hm, Hl, Hc.
  - by apply p6_expireScan_inv.
Qed.

Lemma p6_run_inv c0 (h : list (event K V)) : inv c0 → inv (run c0 h).
Proof. intros H0. induction h as [|ev h IH]; simpl; [done|]. by apply p6_step_inv. Qed.

Lemma p6_step_cap ev c : cap (step ev c) = cap c.
Proof.
  unfold step. destruct ev.2; simpl.
  - unfold Set_. destruct (items c !! key); [done|]. simpl.
    destruct (_ >=? _)%Z; [|done]. unfold removeOldestLocked.
    by destruct (GoList.Back _).
  - unfold Get. destruct (items c !! key) as [e|]; [|done]. by destruct (_ && _).
  - unfold Peek. destruct (items c !! key) as [e|]; [|done]. by destruct (_ && _).
  - unfold Delete. by destruct (items c !! key).
  - done.
  - destruct (p6_Close_store c) as (c1 & -> & _ & _ & _ & Hc). done.
  - unfold expireScan.
    apply (foldl_preserves (λ c' : Cache K V, cap c' = cap c)); [|done].
    intros c' k <-. destruct (items c' !! k) as [e|]; [|done]. by destruct (_ && _).
Qed.

Lemma p6_run_cap c0 (h : list (event K V)) : cap (run c0 h) = cap c0.
Proof. induction h as [|ev h IH]; simpl; [done|]. by rewrite p6_step_cap. Qed.
End Part006Facts.

(** * C10: [Delete] of an expired entry *)

(** C10, as the code has it.  In src/unnamed/part_003, src/unnamed/part_006
    and src/agent14/lru.go: for a key that is stored and whose entry is
    expired at the clock reading, [Delete] returns true and removes the key
    from the map and from the list, although [Get] at that reading reports
    not-found for it.  In part_003, in every state reached from [New], the
    key is also outside the entries that [Len()] counts at that reading.  In
    part_006 (in every state reached from [New]) and in agent14, [Len()]
    still counts the key: it is the number of stored entries, expired or
    not, and the [Delete] lowers it by one. *)
Theorem c10_delete_ignores_expiry :
  (∀ (K : Type) (EqK : EqDecision K) (CntK : Countable K) (V : Type)
     (capacity : Z) (opts : list Part003.Option) (c0 : Part003.Cache K V)
     (h : list (Part003.event K V)) (k : K) (ent : Part003.entry V) (now : Time),
     Part003.New capacity opts = inl c0 →
     Part003.entries (Part003.run c0 h) !! k = Some ent →
     Part003.isExpired ent now = true →
     (Part003.Delete k (Part003.run c0 h)).2 = true ∧
     Part003.entries (Part003.Delete k (Part003.run c0 h)).1 !! k = None ∧
     (k ∉ Part003.order (Part003.Delete k (Part003.run c0 h)).1) ∧
     (Part003.Get k now (Part003.run c0 h)).2 = None ∧
     Part003.live now (Part003.run c0 h) !! k = None ∧
     (Part003.Len now (Part003.run c0 h)).2
       = Z.of_nat (size (Part003.live now (Part003.run c0 h))))
  ∧
  (∀ (K : Type) (EqK : EqDecision K) (CntK : Countable K) (V : Type)
     (c : Part006.Cache K V) (k : K) (ent : Part006.entry V) (now : Time),
     Part006.items c !! k = Some ent →
     (Part006.ttl ent >? 0)%Z && GoTime.After now (Part006.expiresAt ent) = true →
     (Part006.Delete k c).2 = true ∧
     Part006.items (Part006.Delete k c).1 !! k = None ∧
     (k ∉ Part006.lst (Part006.Delete k c).1) ∧
     (Part006.Get k now c).2 = None)
  ∧
  (∀ (V : Type) (c : Agent14.Cache V) (k : string) (ent : Agent14.entry V) (now : Time),
     Agent14.items c !! k = Some ent →
     GoTime.IsZero (Agent14.expiresAt ent) || GoTime.Before now (Agent14.expiresAt ent)
       = false →
     (Agent14.Delete k c).2 = true ∧
     Agent14.items (Agent14.Delete k c).1 !! k = None ∧
     (k ∉ Agent14.order (Agent14.Delete k c).1) ∧
     (Agent14.Get k now c).2 = inr Agent14.ErrNotFound)
  ∧
  (∀ (K : Type) (EqK : EqDecision K) (CntK : Countable K) (V : Type)
     (capacity : Z) (opts : list (Part006.Option (K:=K) (V:=V)))
     (c0 : Part006.Cache K V) (h : list (Part006.event K V))
     (k : K) (ent : Part006.entry V) (now : Time),
     Forall Part006.exported opts →
     Part006.New capacity opts = Some c0 →
     Part006.items (Part006.run c0 h) !! k = Some ent →
     (Part006.ttl ent >? 0)%Z && GoTime.After now (Part006.expiresAt ent) = true →
     (Part006.Get k now (Part006.run c0 h)).2 = None ∧
     Part006.Len (Part006.run c0 h)
       = Z.of_nat (size (Part006.items (Part006.run c0 h))) ∧
     (1 ≤ Part006.Len (Part006.run c0 h))%Z ∧
     Part006.Len (Part006.Delete k (Part006.run c0 h)).1
       = (Part006.Len (Part006.run c0 h) - 1)%Z)
  ∧
  (∀ (V : Type) (c : Agent14.Cache V) (k : string) (ent : Agent14.entry V) (now : Time),
     Agent14.items c !! k = Some ent →
     GoTime.IsZero (Agent14.expiresAt ent) || GoTime.Before now (Agent14.expiresAt ent)
       = false →
     (Agent14.Get k now c).2 = inr Agent14.ErrNotFound ∧
     Agent14.Len c = Z.of_nat (size (Agent14.items c)) ∧
     (1 ≤ Agent14.Len c)%Z ∧
     Agent14.Len (Agent14.Delete k c).1 = (Agent14.Len c - 1)%Z).
Proof.
  split; [|split; [|split; [|split]]].
  - intros K EqK CntK V capacity opts c0 h k ent now Hnew Hk Hexp.
    pose proof (p3_run_inv c0 h (p3_New_inv _ _ _ Hnew)) as (Hwf & _).
    pose proof (p3_Len_live now _ Hwf) as [HLen _].
    set (c := Part003.run c0 h) in *. clearbody c.
    unfold Part003.Delete, Part003.Get. rewrite Hk, Hexp. simpl.
    split; [done|]. split; [by rewrite lookup_delete_eq|].
    split; [rewrite Remove_elem_of; tauto|]. split; [done|]. split; [|done].
    apply map_lookup_filter_None. right. intros e He. simpl.
    assert (e = ent) as -> by congruence. by rewrite Hexp.
  - intros K EqK CntK V c k ent now Hk Hexp.
    unfold Part006.Delete, Part006.Get. rewrite Hk, Hexp. simpl.
    split; [done|]. split; [by rewrite lookup_delete_eq|].
    split; [rewrite Remove_elem_of; tauto|done].
  - intros V c k ent now Hk Hexp.
    unfold Agent14.Delete, Agent14.Get. rewrite Hk, Hexp. simpl.
    split; [done|]. split; [by rewrite lookup_delete_eq|].
    split; [rewrite Remove_elem_of; tauto|done].
  - intros K EqK CntK V capacity opts c0 h k ent now Hopts Hnew Hk Hexp.
    pose proof (p6_run_inv c0 h (p6_New_inv _ _ _ Hopts Hnew)) as (Hwf & _).
    set (c := Part006.run c0 h) in *. clearbody c.
    assert (k ∈ Part006.lst c) as Hin by (apply Hwf; eauto).
    pose proof (Remove_length k (Part006.lst c) (proj1 Hwf) Hin) as Hlen.
    unfold Part006.Delete, Part006.Get, Part006.Len, GoList.Len.
    rewrite Hk, Hexp. simpl.
    split; [done|]. split; [by rewrite (store_wf_size _ _ Hwf)|]. lia.
  - intros V c k ent now Hk Hexp.
    unfold Agent14.Delete, Agent14.Get, Agent14.Len. rewrite Hk, Hexp. simpl.
    split; [done|]. split; [done|].
    pose proof (map_size_delete_Some k (Agent14.items c) (mk_is_Some _ _ Hk)) as Hsz.
    assert (size (Agent14.items c) ≠ 0) as Hnz.
    { intros H0. apply map_size_empty_inv in H0. by rewrite H0 in Hk. }
    lia.
Qed.

(** C10 on an entry set at reading 0 with a TTL of 10 and deleted at
    reading 20, in each of the three caches. *)
Lemma c10_delete_ignores_expiry_witness :
  (∃ c0 : Part003.Cache string Z,
     Part003.New 2 [] = inl c0 ∧
     let h := [(0%Z, Part003.CallSetWithTTL "k" 7%Z 10)] in
     (Part003.Delete "k" (Part003.run c0 h)).2 = true ∧
     Part003.entries (Part003.Delete "k" (Part003.run c0 h)).1 !! "k" = None ∧
     ("k" ∉ Part003.order (Part003.Delete "k" (Part003.run c0 h)).1) ∧
     (Part003.Get "k" 20 (Part003.run c0 h)).2 = None ∧
     Part003.live 20 (Part003.run c0 h) !! "k" = None ∧
     (Part003.Len 20 (Part003.run c0 h)).2
       = Z.of_nat (size (Part003.live 20 (Part003.run c0 h))))
  ∧
  (∃ c0 : Part006.Cache string Z,
     Part006.New 2 [] = Some c0 ∧
     let c := Part006.Set_ "k" 7%Z 10 0 c0 in
     (Part006.Delete "k" c).2 = true ∧
     Part006.items (Part006.Delete "k" c).1 !! "k" = None ∧
     ("k" ∉ Part006.lst (Part006.Delete "k" c).1) ∧
     (Part006.Get "k" 20 c).2 = None)
  ∧
  (let c := Agent14.Set_ "k" 7%Z 10 0
              (Agent14.New {| Agent14.Capacity := 2; Agent14.CleanupInterval := 0 |}) in
   (Agent14.Delete "k" c).2 = true ∧
   Agent14.items (Agent14.Delete "k" c).1 !! "k" = None ∧
   ("k" ∉ Agent14.order (Agent14.Delete "k" c).1) ∧
   (Agent14.Get "k" 20 c).2 = inr Agent14.ErrNotFound)
  ∧
  (∃ c0 : Part006.Cache string Z,
     Part006.New 2 [] = Some c0 ∧
     let c := Part006.run c0 [(0%Z, Part006.CallSet "k" 7%Z 10)] in
     (Part006.Get "k" 20 c).2 = None ∧
     Part006.Len c = Z.of_nat (size (Part006.items c)) ∧
     (1 ≤ Part006.Len c)%Z ∧
     Part006.Len (Part006.Delete "k" c).1 = (Part006.Len c - 1)%Z)
  ∧
  (let c := Agent14.Set_ "k" 7%Z 10 0
              (Agent14.New {| Agent14.Capacity := 2; Agent14.CleanupInterval := 0 |}) in
   (Agent14.Get "k" 20 c).2 = inr Agent14.ErrNotFound ∧
   Agent14.Len c = Z.of_nat (size (Agent14.items c)) ∧
   (1 ≤ Agent14.Len c)%Z ∧
   Agent14.Len (Agent14.Delete "k" c).1 = (Agent14.Len c - 1)%Z).
Proof.
  split; [|split; [|split; [|split]]].
  - eexists. split; [reflexivity|]. intros h.
    apply (proj1 c10_delete_ignores_expiry string _ _ Z 2%Z [] _ h "k"
             {| Part003.value := 7%Z; Part003.expiresAt := 10 |} 20%Z);
      vm_compute; reflexivity.
  - eexists. split; [reflexivity|]. intros c.
    apply (proj1 (proj2 c10_delete_ignores_expiry) string _ _ Z c "k"
             {| Part006.value := 7%Z; Part006.expiresAt := 10; Part006.ttl := 10 |} 20%Z);
      vm_compute; reflexivity.
  - intros c.
    apply (proj1 (proj2 (proj2 c10_delete_ignores_expiry)) Z c "k"
             {| Agent14.value := 7%Z; Agent14.expiresAt := 10 |} 20%Z);
      vm_compute; reflexivity.
  - eexists. split; [reflexivity|]. intros c.
    apply (proj1 (proj2 (proj2 (proj2 c10_delete_ignores_expiry))) string _ _ Z 2%Z []
             _ [(0%Z, Part006.CallSet "k" 7%Z 10)] "k"
             {| Part006.value := 7%Z; Part006.expiresAt := 10; Part006.ttl := 10 |} 20%Z);
      [constructor|reflexivity|vm_compute; reflexivity|vm_compute; reflexivity].
  - intros c.
    apply (proj2 (proj2 (proj2 (proj2 c10_delete_ignores_expiry))) Z c "k"
             {| Agent14.value := 7%Z; Agent14.expiresAt := 10 |} 20%Z);
      vm_compute; reflexivity.
Defined.

(** The claim as the spec words it fails in src/unnamed/part_006 and in
    src/agent14/lru.go: an entry set at reading 0 with a TTL of 10 is expired
    at reading 20, [Get] reports not-found and [Delete] returns true, but
    [Len()] is 1: the key is not excluded from it. *)
Lemma c10_counterexample_len :
  (∃ c0 : Part006.Cache string Z,
     Part006.New 2 [] = Some c0 ∧
     let c := Part006.Set_ "k" 7%Z 10 0 c0 in
     (Part006.Get "k" 20 c).2 = None ∧
     (Part006.Delete "k" c).2 = true ∧
     Part006.Len c = 1%Z)
  ∧
  (let c := Agent14.Set_ "k" 7%Z 10 0
              (Agent14.New {| Agent14.Capacity := 2; Agent14.CleanupInterval := 0 |}) in
   (Agent14.Get "k" 20 c).2 = inr Agent14.ErrNotFound ∧
   (Agent14.Delete "k" c).2 = true ∧
   Agent14.Len c = 1%Z).
Proof.
  split.
  - eexists. split; [reflexivity|]. vm_compute. done.
  - vm_compute. done.
Qed.

(** * Further properties of the embedded code *)

(** After a sweep the list is the old list without the removed elements, in
    the same order. *)
Lemma sweep_order `{Countable K} {E S : Type}
    (get_items : S → gmap K E) (get_order : S → list K) (rm : K → S → S)
    (dead : E → bool)
    (rm_items : ∀ k s, get_items (rm k s) = delete k (get_items s))
    (rm_order : ∀ k s, get_order (rm k s) = GoList.Remove k (get_order s))
    (ks : list K) (s : S) :
  store_wf (get_items s) (get_order s) →
  get_order (foldl (λ s k, match get_items s !! k with
                           | Some e => if dead e then rm k s else s
                           | None => s
                           end) s ks)
  = filter (λ k, is_Some (get_items
                            (foldl (λ s k, match get_items s !! k with
                                           | Some e => if dead e then rm k s else s
                                           | None => s
                                           end) s ks) !! k))
      (get_order s).
Proof.
  revert s. induction ks as [|k ks IH]; intros s Hwf.
  - simpl. destruct Hwf as [_ Hdom]. symmetry.
    assert (∀ x, x ∈ get_order s → is_Some (get_items s !! x)) as Hall
      by (intros x; apply Hdom).
    clear Hdom. induction (get_order s) as [|x l IHl]; [done|].
    rewrite filter_cons_True by (apply Hall; left).
    f_equal. apply IHl. intros k Hk. apply Hall. by right.
  - simpl. destruct (get_items s !! k) as [e|] eqn:Hk; [|by apply IH].
    destruct (dead e); [|by apply IH].
    rewrite IH by (rewrite rm_items, rm_order; by apply store_wf_remove).
    rewrite rm_order. unfold GoList.Remove. rewrite list_filter_filter.
    apply list_filter_iff. intros x. split; [tauto|]. intros Hx. split; [done|].
    intros ->. revert Hx.
    rewrite (sweep_lookup get_items rm dead rm_items), rm_items, lookup_delete_eq.
    by intros [? ?].
Qed.

(** ** src/unnamed/part_003 *)

Section Part003More.
Context `{Countable K} {V : Type}.
Import Part003.
Implicit Types (c : Cache K V) (k : K).

Lemma p3_step_defaultTTL ev c : defaultTTL (step ev c) = defaultTTL c.
Proof.
  unfold step. destruct ev.2; simpl.
  - unfold Set_, SetWithTTL. destruct (0 <? 0)%Z; [done|].
    destruct (entries c !! key); [done|]. simpl. unfold enforceCapacityLocked.
    by apply (p3_enforce_loop_preserves (λ c', defaultTTL c' = defaultTTL c)).
  - unfold SetWithTTL. destruct (ttl <? 0)%Z; [done|].
    destruct (entries c !! key); [done|]. simpl. unfold enforceCapacityLocked.
    by apply (p3_enforce_loop_preserves (λ c', defaultTTL c' = defaultTTL c)).
  - unfold Get. destruct (entries c !! key) as [e|]; [|done]. by destruct (isExpired e _).
  - unfold Delete. by destruct (entries c !! key).
  - unfold removeExpiredLocked.
    apply (foldl_preserves (λ c', defaultTTL c' = defaultTTL c)); [|done].
    intros c' k <-. destruct (entries c' !! k) as [e|]; [|done].
    by destruct (isExpired e _).
  - done.
  - unfold Close. destruct (stopOnce c); [done|].
    by destruct (GoChan.close (stopCh c)).
  - unfold removeExpiredEntries, removeExpiredLocked.
    apply (foldl_preserves (λ c', defaultTTL c' = defaultTTL c)); [|done].
    intros c' k <-. destruct (entries c' !! k) as [e|]; [|done].
    by destruct (isExpired e _).
Qed.

Lemma p3_run_defaultTTL c0 h : defaultTTL (run c0 h) = defaultTTL c0.
Proof.
  induction h as [|ev h IH]; simpl; [done|]. by rewrite p3_step_defaultTTL.
Qed.

(** With a positive capacity the eviction loop never removes the element at
    the front. *)
Lemma p3_enforce_loop_keeps_front n c k rest :
  NoDup (order c) → order c = k :: rest → (0 < capacity c)%Z →
  entries (enforceCapacity_loop n c) !! k = entries c !! k ∧
  ∃ rest', order (enforceCapacity_loop n c) = k :: rest'.
Proof.
  revert c rest. induction n as [|n IH]; intros c rest Hnd Hord Hpos; simpl; [eauto|].
  destruct (Z.gtb_spec (GoList.Len (order c)) (capacity c)) as [Hgt|_]; [|eauto].
  destruct (GoList.Back (order c)) as [tail|] eqn:Hback; [|eauto].
  assert (tail ∈ rest ∧ tail ≠ k) as [Hin Hne].
  { rewrite Hord in Hback, Hnd, Hgt. apply NoDup_cons in Hnd as [Hk _].
    destruct rest as [|x rest'].
    - unfold GoList.Len in Hgt. simpl in Hgt. lia.
    - assert (GoList.Back (k :: x :: rest') = GoList.Back (x :: rest')) as Heq by done.
      rewrite Heq in Hback. apply last_Some_elem_of in Hback.
      split; [done|]. by intros ->. }
  destruct (IH (removeElementLocked tail c) (GoList.Remove tail rest))
    as [Hk' Hord']; simpl.
  - by apply Remove_NoDup.
  - rewrite Hord. unfold GoList.Remove. by rewrite filter_cons_True by done.
  - done.
  - split; [|done]. rewrite Hk'. simpl. by rewrite lookup_delete_ne.
Qed.

(** An accepted [SetWithTTL] leaves its key stored, with the entry it wrote,
    at the front of the list. *)
Lemma p3_SetWithTTL_lookup k v ttl now c :
  inv c → (0 ≤ ttl)%Z →
  (SetWithTTL k v ttl now c).2 = None ∧
  entries (SetWithTTL k v ttl now c).1 !! k =
    Some {| value := v;
            expiresAt :=
              if ((if (ttl =? 0)%Z then defaultTTL c else ttl) >? 0)%Z
              then GoTime.Add now (if (ttl =? 0)%Z then defaultTTL c else ttl)
              else GoTime.zero |} ∧
  GoList.Front (order (SetWithTTL k v ttl now c).1) = Some k.
Proof.
  intros (Hwf & Hpos & _) Httl. unfold SetWithTTL.
  destruct (Z.ltb_spec ttl 0); [lia|].
  destruct (entries c !! k) as [e|] eqn:Hk; simpl.
  - split; [done|]. rewrite lookup_insert_eq. split; [done|].
    unfold GoList.MoveToFront. by rewrite decide_True by (apply Hwf; eauto).
  - split; [done|]. set (ent := Build_entry _ _). set (c1 := with_store c _ _).
    destruct (p3_enforce_loop_keeps_front (length (order c1)) c1 k (order c))
      as [Hk1 [rest' Hord1]]; [| done | done |].
    + apply (store_wf_push k ent) in Hwf; [apply Hwf|done].
    + unfold enforceCapacityLocked. rewrite Hk1, Hord1. simpl.
      by rewrite lookup_insert_eq.
Qed.
End Part003More.

(** X1.  [New] of src/unnamed/part_003 validates its options: with a
    positive capacity it fails with [ErrNegativeTTL] exactly when the default
    TTL left by the options is negative (the last [WithDefaultTTL] wins), and
    a cache it returns is empty, open, has a default TTL that is not negative
    and a positive cleanup interval: an interval of zero or less is replaced
    by one second. *)
Theorem x1_p3_New_validates_options :
  ∀ (K : Type) (EqK : EqDecision K) (CntK : Countable K) (V : Type)
    (capacity : Z) (opts : list Part003.Option) (d i : Duration),
    (0 < capacity)%Z →
    (Part003.New (K:=K) (V:=V) capacity (opts ++ [Part003.WithDefaultTTL d])
       = inr Part003.ErrNegativeTTL ↔ (d < 0)%Z) ∧
    ((0 ≤ d)%Z →
     ∃ c : Part003.Cache K V,
       Part003.New capacity
         (opts ++ [Part003.WithCleanupInterval i; Part003.WithDefaultTTL d]) = inl c ∧
       Part003.defaultTTL c = d ∧
       Part003.cleanupInterval c = (if (i <=? 0)%Z then GoTime.Second else i) ∧
       (0 < Part003.cleanupInterval c)%Z ∧
       Part003.capacity c = capacity ∧
       Part003.entries c = ∅ ∧ Part003.order c = [] ∧
       Part003.stopOnce c = false ∧ GoChan.closed (Part003.stopCh c) = false ∧
       ∀ now, (Part003.Len now c).2 = 0%Z).
Proof.
  intros K EqK CntK V capacity opts d i Hcap. split.
  - unfold Part003.New. destruct (Z.leb_spec capacity 0); [lia|].
    rewrite foldl_app. simpl.
    destruct (Z.ltb_spec d 0); split; (done || lia).
  - intros Hd. unfold Part003.New. destruct (Z.leb_spec capacity 0); [lia|].
    rewrite foldl_app. simpl. destruct (Z.ltb_spec d 0); [lia|].
    eexists. split; [reflexivity|]. simpl.
    repeat split; try done.
    destruct (Z.leb_spec i 0); [done|lia].
Qed.

(** X1 with capacity 3, a default TTL of one second set after a negative
    one, and a cleanup interval of zero. *)
Lemma x1_p3_New_validates_options_witness :
  (Part003.New (K:=string) (V:=Z) 3
     ([Part003.WithDefaultTTL (-5)] ++ [Part003.WithDefaultTTL GoTime.Second])
     = inr Part003.ErrNegativeTTL ↔ (GoTime.Second < 0)%Z) ∧
  ((0 ≤ GoTime.Second)%Z →
   ∃ c : Part003.Cache string Z,
     Part003.New 3
       ([Part003.WithDefaultTTL (-5)] ++
        [Part003.WithCleanupInterval 0; Part003.WithDefaultTTL GoTime.Second]) = inl c ∧
     Part003.defaultTTL c = GoTime.Second ∧
     Part003.cleanupInterval c = (if (0 <=? 0)%Z then GoTime.Second else 0%Z) ∧
     (0 < Part003.cleanupInterval c)%Z ∧
     Part003.capacity c = 3%Z ∧
     Part003.entries c = ∅ ∧ Part003.order c = [] ∧
     Part003.stopOnce c = false ∧ GoChan.closed (Part003.stopCh c) = false ∧
     ∀ now, (Part003.Len now c).2 = 0%Z).
Proof.
  apply (x1_p3_New_validates_options string _ _ Z 3%Z [Part003.WithDefaultTTL (-5)]
           GoTime.Second 0%Z).
  lia.
Defined.

(** X2.  [SetWithTTL] and [Get] of src/unnamed/part_003 round-trip, in every
    state reached from [New]: a negative TTL is rejected with
    [ErrNegativeTTL] and changes nothing; otherwise the call succeeds and
    moves the key to the front, the effective TTL [e] being the argument, or
    the default TTL when the argument is zero.  With [e = 0] every later [Get]
    returns the value.  With [e > 0] the expiry is [now + e]: when that is
    not the zero time, [Get] returns the value exactly at the readings
    before [now + e]; when it is the zero time, which the injected clock of
    [WithClock] can bring about, the entry never expires and every [Get]
    returns the value. *)
Theorem x2_p3_set_get_round_trip :
  ∀ (K : Type) (EqK : EqDecision K) (CntK : Countable K) (V : Type)
    (capacity : Z) (opts : list Part003.Option) (c0 : Part003.Cache K V)
    (h : list (Part003.event K V)) (k : K) (v : V) (ttl e : Duration) (now : Time),
    Part003.New capacity opts = inl c0 →
    e = (if (ttl =? 0)%Z then Part003.defaultTTL c0 else ttl) →
    ((ttl < 0)%Z →
     Part003.SetWithTTL k v ttl now (Part003.run c0 h)
       = (Part003.run c0 h, Some Part003.ErrNegativeTTL)) ∧
    ((0 ≤ ttl)%Z →
     (Part003.SetWithTTL k v ttl now (Part003.run c0 h)).2 = None ∧
     GoList.Front (Part003.order (Part003.SetWithTTL k v ttl now (Part003.run c0 h)).1)
       = Some k ∧
     (e = 0%Z → ∀ now',
        (Part003.Get k now' (Part003.SetWithTTL k v ttl now (Part003.run c0 h)).1).2
          = Some v) ∧
     ((0 < e)%Z → (now + e)%Z ≠ 0%Z → ∀ now',
        ((now' < now + e)%Z →
         (Part003.Get k now' (Part003.SetWithTTL k v ttl now (Part003.run c0 h)).1).2
           = Some v) ∧
        ((now + e ≤ now')%Z →
         (Part003.Get k now' (Part003.SetWithTTL k v ttl now (Part003.run c0 h)).1).2
           = None)) ∧
     ((0 < e)%Z → (now + e)%Z = 0%Z → ∀ now',
        (Part003.Get k now' (Part003.SetWithTTL k v ttl now (Part003.run c0 h)).1).2
          = Some v)).
Proof.
  intros K EqK CntK V capacity opts c0 h k v ttl e now Hnew He. split.
  - intros Hneg. unfold Part003.SetWithTTL. destruct (Z.ltb_spec ttl 0); [done|lia].
  - intros Httl.
    pose proof (p3_run_inv c0 h (p3_New_inv _ _ _ Hnew)) as Hinv.
    destruct (p3_SetWithTTL_lookup k v ttl now _ Hinv Httl) as (Herr & Hk & Hfront).
    rewrite (p3_run_defaultTTL c0 h), <-He in Hk.
    split; [done|]. split; [done|]. split; [|split].
    + intros -> now'. unfold Part003.Get. rewrite Hk. simpl. done.
    + intros Hpos Hnz now'. unfold Part003.Get. rewrite Hk.
      destruct (Z.gtb_spec e 0); [|lia]. unfold Part003.isExpired. simpl.
      unfold GoTime.IsZero, GoTime.Add, GoTime.After.
      destruct (Z.eqb_spec (now + e) 0); [done|].
      destruct (Z.ltb_spec now' (now + e)); simpl; split; (done || lia).
    + intros Hpos Hz now'. unfold Part003.Get. rewrite Hk.
      destruct (Z.gtb_spec e 0); [|lia]. unfold Part003.isExpired. simpl.
      unfold GoTime.IsZero, GoTime.Add. rewrite Hz. done.
Qed.

(** X2 with a default TTL of 40, [Set] at reading 0, read at 39 and 60. *)
Lemma x2_p3_set_get_round_trip_witness :
  ∃ c0 : Part003.Cache string Z,
    Part003.New 2 [Part003.WithDefaultTTL 40] = inl c0 ∧
    ((-1 < 0)%Z →
     Part003.SetWithTTL "x" 10%Z (-1) 0 (Part003.run c0 [])
       = (Part003.run c0 [], Some Part003.ErrNegativeTTL)) ∧
    (Part003.Get "x" 39 (Part003.SetWithTTL "x" 10%Z 0 0 (Part003.run c0 [])).1).2
      = Some 10%Z ∧
    (Part003.Get "x" 60 (Part003.SetWithTTL "x" 10%Z 0 0 (Part003.run c0 [])).1).2
      = None ∧
    (Part003.Get "x" 60 (Part003.SetWithTTL "x" 10%Z 5 (-5) (Part003.run c0 [])).1).2
      = Some 10%Z.
Proof.
  eexists. split; [reflexivity|]. split.
  - apply (proj1 (x2_p3_set_get_round_trip string _ _ Z 2%Z [Part003.WithDefaultTTL 40]
                    _ [] "x" 10%Z (-1)%Z (-1)%Z 0%Z eq_refl eq_refl)).
  - pose proof (proj2 (x2_p3_set_get_round_trip string _ _ Z 2%Z
                         [Part003.WithDefaultTTL 40] _ [] "x" 10%Z 0%Z 40%Z 0%Z
                         eq_refl eq_refl)) as Hrt.
    destruct Hrt as (_ & _ & _ & Hwin & _); [lia|].
    pose proof (proj2 (x2_p3_set_get_round_trip string _ _ Z 2%Z
                         [Part003.WithDefaultTTL 40] _ [] "x" 10%Z 5%Z 5%Z (-5)%Z
                         eq_refl eq_refl)) as Hz.
    destruct Hz as (_ & _ & _ & _ & Hnever); [lia|].
    split; [apply (Hwin ltac:(lia) ltac:(lia) 39%Z); lia|].
    split; [apply (Hwin ltac:(lia) ltac:(lia) 60%Z); lia|].
    apply (Hnever ltac:(lia) ltac:(lia) 60%Z).
Defined.

(** X3.  Lazy expiration in [Get] of src/unnamed/part_003: in every state
    reached from [New], a [Get] of a stored key whose entry is expired reports
    not-found and removes the entry from the map and from the list, which
    gets one element shorter; the other entries are untouched, and the key
    stays absent for every following [Get]. *)
Theorem x3_p3_get_removes_expired :
  ∀ (K : Type) (EqK : EqDecision K) (CntK : Countable K) (V : Type)
    (capacity : Z) (opts : list Part003.Option) (c0 : Part003.Cache K V)
    (h : list (Part003.event K V)) (k : K) (ent : Part003.entry V) (now : Time),
    Part003.New capacity opts = inl c0 →
    Part003.entries (Part003.run c0 h) !! k = Some ent →
    Part003.isExpired ent now = true →
    (Part003.Get k now (Part003.run c0 h)).2 = None ∧
    Part003.entries (Part003.Get k now (Part003.run c0 h)).1 !! k = None ∧
    (k ∉ Part003.order (Part003.Get k now (Part003.run c0 h)).1) ∧
    (GoList.Len (Part003.order (Part003.Get k now (Part003.run c0 h)).1)
       = GoList.Len (Part003.order (Part003.run c0 h)) - 1)%Z ∧
    (∀ k', k' ≠ k →
       Part003.entries (Part003.Get k now (Part003.run c0 h)).1 !! k'
         = Part003.entries (Part003.run c0 h) !! k') ∧
    (∀ now', Part003.Get k now' (Part003.Get k now (Part003.run c0 h)).1
             = ((Part003.Get k now (Part003.run c0 h)).1, None)).
Proof.
  intros K EqK CntK V capacity opts c0 h k ent now Hnew Hk Hexp.
  pose proof (p3_run_inv c0 h (p3_New_inv _ _ _ Hnew)) as (Hwf & _).
  set (c := Part003.run c0 h) in *. clearbody c.
  assert (Part003.Get k now c = (Part003.removeElementLocked k c, None)) as ->.
  { unfold Part003.Get. by rewrite Hk, Hexp. }
  simpl.
  split; [done|]. split; [by rewrite lookup_delete_eq|].
  split; [rewrite Remove_elem_of; tauto|]. split; [|split].
  - unfold GoList.Len.
    rewrite <-(Remove_length k (Part003.order c)); [lia|apply Hwf|apply Hwf; eauto].
  - intros k' Hne. by rewrite lookup_delete_ne.
  - intros now'. unfold Part003.Get. simpl. by rewrite lookup_delete_eq.
Qed.

(** X3 on an entry set with a TTL of 10 at reading 0 and read at 10. *)
Lemma x3_p3_get_removes_expired_witness :
  ∃ c0 : Part003.Cache string Z,
    Part003.New 2 [] = inl c0 ∧
    let c := Part003.run c0 [(0%Z, Part003.CallSetWithTTL "k" 7%Z 10)] in
    (Part003.Get "k" 10 c).2 = None ∧
    Part003.entries (Part003.Get "k" 10 c).1 !! "k" = None ∧
    ("k" ∉ Part003.order (Part003.Get "k" 10 c).1) ∧
    (GoList.Len (Part003.order (Part003.Get "k" 10 c).1)
       = GoList.Len (Part003.order c) - 1)%Z ∧
    (∀ k', k' ≠ "k" →
       Part003.entries (Part003.Get "k" 10 c).1 !! k' = Part003.entries c !! k') ∧
    (∀ now', Part003.Get "k" now' (Part003.Get "k" 10 c).1
             = ((Part003.Get "k" 10 c).1, None)).
Proof.
  eexists. split; [reflexivity|]. intros c.
  apply (x3_p3_get_removes_expired string _ _ Z 2%Z [] _
           [(0%Z, Part003.CallSetWithTTL "k" 7%Z 10)] "k"
           {| Part003.value := 7%Z; Part003.expiresAt := 10 |} 10%Z);
    vm_compute; reflexivity.
Defined.

(** X4.  [SetWithTTL] on a key that is already stored, in every state of
    src/unnamed/part_003 reached from [New]: the number of entries does not
    change, the key moves to the front of the list with the other keys in
    their order, the value is replaced and the expiry is computed afresh from
    the reading of this call (nothing of the old expiry is kept), and every
    other entry is untouched. *)
Theorem x4_p3_set_existing_key :
  ∀ (K : Type) (EqK : EqDecision K) (CntK : Countable K) (V : Type)
    (capacity : Z) (opts : list Part003.Option) (c0 : Part003.Cache K V)
    (h : list (Part003.event K V)) (k : K) (old : Part003.entry V)
    (v : V) (ttl : Duration) (now : Time),
    Part003.New capacity opts = inl c0 →
    Part003.entries (Part003.run c0 h) !! k = Some old →
    (0 ≤ ttl)%Z →
    size (Part003.entries (Part003.SetWithTTL k v ttl now (Part003.run c0 h)).1)
      = size (Part003.entries (Part003.run c0 h)) ∧
    Part003.order (Part003.SetWithTTL k v ttl now (Part003.run c0 h)).1
      = k :: GoList.Remove k (Part003.order (Part003.run c0 h)) ∧
    length (Part003.order (Part003.SetWithTTL k v ttl now (Part003.run c0 h)).1)
      = length (Part003.order (Part003.run c0 h)) ∧
    Part003.entries (Part003.SetWithTTL k v ttl now (Part003.run c0 h)).1 !! k
      = Some {| Part003.value := v;
                Part003.expiresAt :=
                  if ((if (ttl =? 0)%Z then Part003.defaultTTL c0 else ttl) >? 0)%Z
                  then (now + (if (ttl =? 0)%Z then Part003.defaultTTL c0 else ttl))%Z
                  else 0%Z |} ∧
    (∀ k', k' ≠ k →
       Part003.entries (Part003.SetWithTTL k v ttl now (Part003.run c0 h)).1 !! k'
         = Part003.entries (Part003.run c0 h) !! k').
Proof.
  intros K EqK CntK V capacity opts c0 h k old v ttl now Hnew Hk Httl.
  pose proof (p3_run_inv c0 h (p3_New_inv _ _ _ Hnew)) as (Hwf & _).
  pose proof (p3_run_defaultTTL c0 h) as Hd.
  set (c := Part003.run c0 h) in *. clearbody c.
  unfold Part003.SetWithTTL. destruct (Z.ltb_spec ttl 0); [lia|].
  rewrite Hk, Hd. simpl.
  assert (k ∈ Part003.order c) as Hin by (apply Hwf; eauto).
  split; [by apply map_size_insert_Some|].
  unfold GoList.MoveToFront. rewrite decide_True by done.
  split; [done|]. split; [simpl; by apply Remove_length; [apply Hwf|]|].
  split; [by rewrite lookup_insert_eq|].
  intros k' Hne. by rewrite lookup_insert_ne.
Qed.

(** X4 on the update of scenario 3: [a] set with a TTL of 10 at reading 0 and
    again with a TTL of 20 at reading 5. *)
Lemma x4_p3_set_existing_key_witness :
  ∃ c0 : Part003.Cache string Z,
    Part003.New 2 [] = inl c0 ∧
    let c := Part003.run c0 [(0%Z, Part003.CallSetWithTTL "a" 1%Z 10)] in
    size (Part003.entries (Part003.SetWithTTL "a" 2%Z 20 5 c).1)
      = size (Part003.entries c) ∧
    Part003.order (Part003.SetWithTTL "a" 2%Z 20 5 c).1
      = "a" :: GoList.Remove "a" (Part003.order c) ∧
    length (Part003.order (Part003.SetWithTTL "a" 2%Z 20 5 c).1)
      = length (Part003.order c) ∧
    Part003.entries (Part003.SetWithTTL "a" 2%Z 20 5 c).1 !! "a"
      = Some {| Part003.value := 2%Z;
                Part003.expiresAt :=
                  if ((if (20 =? 0)%Z then Part003.defaultTTL c0 else 20) >? 0)%Z
                  then (5 + (if (20 =? 0)%Z then Part003.defaultTTL c0 else 20))%Z
                  else 0%Z |} ∧
    (∀ k', k' ≠ "a" →
       Part003.entries (Part003.SetWithTTL "a" 2%Z 20 5 c).1 !! k'
         = Part003.entries c !! k').
Proof.
  eexists. split; [reflexivity|]. intros c.
  apply (x4_p3_set_existing_key string _ _ Z 2%Z [] _
           [(0%Z, Part003.CallSetWithTTL "a" 1%Z 10)] "a"
           {| Part003.value := 1%Z; Part003.expiresAt := 10 |} 2%Z 20%Z 5%Z);
    [reflexivity|vm_compute; reflexivity|lia].
Defined.

(** X5.  [Delete] of src/unnamed/part_003, in any state: it returns true
    exactly when the key is stored; afterwards the key is not stored, [Get]
    of it reports not-found at every reading, a second [Delete] returns false
    and changes nothing, and every other entry is as before.  [Delete] of a
    key that is not stored changes nothing. *)
Theorem x5_p3_delete_round_trip :
  ∀ (K : Type) (EqK : EqDecision K) (CntK : Countable K) (V : Type)
    (c : Part003.Cache K V) (k : K),
    ((Part003.Delete k c).2 = true ↔ is_Some (Part003.entries c !! k)) ∧
    (Part003.entries c !! k = None → Part003.Delete k c = (c, false)) ∧
    Part003.entries (Part003.Delete k c).1 !! k = None ∧
    (∀ now, (Part003.Get k now (Part003.Delete k c).1).2 = None) ∧
    Part003.Delete k (Part003.Delete k c).1 = ((Part003.Delete k c).1, false) ∧
    (∀ k', k' ≠ k →
       Part003.entries (Part003.Delete k c).1 !! k' = Part003.entries c !! k').
Proof.
  intros K EqK CntK V c k.
  assert (Part003.entries (Part003.Delete k c).1 !! k = None) as Hgone.
  { unfold Part003.Delete. destruct (Part003.entries c !! k) eqn:Hk; simpl;
      [by rewrite lookup_delete_eq|done]. }
  split; [|split; [|split; [done|split; [|split]]]].
  - unfold Part003.Delete. destruct (Part003.entries c !! k); simpl.
    + split; eauto.
    + split; [done|]. by intros [? ?].
  - intros Hk. unfold Part003.Delete. by rewrite Hk.
  - intros now. unfold Part003.Get. by rewrite Hgone.
  - unfold Part003.Delete at 1. by rewrite Hgone.
  - intros k' Hne. unfold Part003.Delete. destruct (Part003.entries c !! k); simpl;
      [by rewrite lookup_delete_ne|done].
Qed.

(** X6.  The entry store of src/unnamed/part_003 stays consistent: in every
    state reached from [New] by any history of calls and sweeps, the list has
    no duplicates, lists exactly the keys of the map (so both have the same
    size), holds at most [capacity] elements, and the capacity is the one
    given to [New]. *)
Theorem x6_p3_store_consistent :
  ∀ (K : Type) (EqK : EqDecision K) (CntK : Countable K) (V : Type)
    (capacity : Z) (opts : list Part003.Option) (c0 : Part003.Cache K V)
    (h : list (Part003.event K V)),
    Part003.New capacity opts = inl c0 →
    NoDup (Part003.order (Part003.run c0 h)) ∧
    (∀ k, k ∈ Part003.order (Part003.run c0 h)
          ↔ is_Some (Part003.entries (Part003.run c0 h) !! k)) ∧
    size (Part003.entries (Part003.run c0 h))
      = length (Part003.order (Part003.run c0 h)) ∧
    (Z.of_nat (size (Part003.entries (Part003.run c0 h))) ≤ capacity)%Z ∧
    Part003.Capacity (Part003.run c0 h) = capacity.
Proof.
  intros K EqK CntK V capacity opts c0 h Hnew.
  pose proof (p3_run_inv c0 h (p3_New_inv _ _ _ Hnew)) as (Hwf & _ & Hle).
  pose proof (p3_New_inl _ _ _ Hnew) as (Hcap & _).
  unfold Part003.Capacity. rewrite p3_run_capacity in Hle |- *. rewrite Hcap in Hle |- *.
  split; [apply Hwf|]. split; [apply Hwf|].
  rewrite (store_wf_size _ _ Hwf). done.
Qed.

(** X6 after three insertions into a cache of capacity 2, a hit, a deletion
    and a sweep. *)
Lemma x6_p3_store_consistent_witness :
  ∃ c0 : Part003.Cache string Z,
    Part003.New 2 [] = inl c0 ∧
    let h := [(9%Z, Part003.Tick); (8%Z, Part003.CallDelete "c");
              (7%Z, Part003.CallGet "b"); (3%Z, Part003.CallSetWithTTL "c" 3%Z 5);
              (2%Z, Part003.CallSet "b" 2%Z); (1%Z, Part003.CallSet "a" 1%Z)] in
    NoDup (Part003.order (Part003.run c0 h)) ∧
    (∀ k, k ∈ Part003.order (Part003.run c0 h)
          ↔ is_Some (Part003.entries (Part003.run c0 h) !! k)) ∧
    size (Part003.entries (Part003.run c0 h))
      = length (Part003.order (Part003.run c0 h)) ∧
    (Z.of_nat (size (Part003.entries (Part003.run c0 h))) ≤ 2)%Z ∧
    Part003.Capacity (Part003.run c0 h) = 2%Z.
Proof.
  eexists. split; [reflexivity|]. intros h.
  apply (x6_p3_store_consistent string _ _ Z 2%Z []). reflexivity.
Defined.

(** X7.  [Close] of src/unnamed/part_003 can be called any number of times:
    in every state reached from [New] (earlier [Close] calls included) it
    returns without a panic with the stop channel closed, a further [Close]
    changes nothing, and the cache stays usable: the entries and their order
    are untouched and every [Get] answers as before the [Close]. *)
Theorem x7_p3_close_idempotent :
  ∀ (K : Type) (EqK : EqDecision K) (CntK : Countable K) (V : Type)
    (capacity : Z) (opts : list Part003.Option) (c0 : Part003.Cache K V)
    (h : list (Part003.event K V)),
    Part003.New capacity opts = inl c0 →
    ∃ c1, Part003.Close (Part003.run c0 h) = Some c1 ∧
          Part003.Close c1 = Some c1 ∧
          GoChan.closed (Part003.stopCh c1) = true ∧
          Part003.entries c1 = Part003.entries (Part003.run c0 h) ∧
          Part003.order c1 = Part003.order (Part003.run c0 h) ∧
          ∀ k now, (Part003.Get k now c1).2 = (Part003.Get k now (Part003.run c0 h)).2.
Proof.
  intros K EqK CntK V capacity opts c0 h Hnew.
  destruct (p3_Close_idempotent capacity opts c0 h Hnew)
    as (c1 & Hc1 & Hc2 & Hcl & He & Ho).
  exists c1. repeat split; try done.
  intros k now. unfold Part003.Get. rewrite He.
  destruct (Part003.entries (Part003.run c0 h) !! k) as [e|]; [|done].
  by destruct (Part003.isExpired e now).
Qed.

(** X7 on a cache that was already closed once. *)
Lemma x7_p3_close_idempotent_witness :
  ∃ c0 : Part003.Cache string Z,
    Part003.New 2 [] = inl c0 ∧
    let h := [(2%Z, Part003.CallClose); (1%Z, Part003.CallSet "a" 1%Z)] in
    ∃ c1, Part003.Close (Part003.run c0 h) = Some c1 ∧
          Part003.Close c1 = Some c1 ∧
          GoChan.closed (Part003.stopCh c1) = true ∧
          Part003.entries c1 = Part003.entries (Part003.run c0 h) ∧
          Part003.order c1 = Part003.order (Part003.run c0 h) ∧
          ∀ k now, (Part003.Get k now c1).2 = (Part003.Get k now (Part003.run c0 h)).2.
Proof.
  eexists. split; [reflexivity|]. intros h.
  apply (x7_p3_close_idempotent string _ _ Z 2%Z []). reflexivity.
Defined.

(** X8.  One sweep ([removeExpiredEntries]) of src/unnamed/part_003, in every
    state reached from [New]: afterwards the map holds exactly the entries
    that were not expired at the reading of the sweep, and the list is the
    old list without the removed keys, in the same order. *)
Theorem x8_p3_sweep_exact :
  ∀ (K : Type) (EqK : EqDecision K) (CntK : Countable K) (V : Type)
    (capacity : Z) (opts : list Part003.Option) (c0 : Part003.Cache K V)
    (h : list (Part003.event K V)) (now : Time),
    Part003.New capacity opts = inl c0 →
    Part003.entries (Part003.removeExpiredEntries now (Part003.run c0 h))
      = Part003.live now (Part003.run c0 h) ∧
    Part003.order (Part003.removeExpiredEntries now (Part003.run c0 h))
      = filter (λ k, is_Some (Part003.live now (Part003.run c0 h) !! k))
          (Part003.order (Part003.run c0 h)) ∧
    (∀ k ent,
       Part003.entries (Part003.removeExpiredEntries now (Part003.run c0 h)) !! k
         = Some ent →
       Part003.isExpired ent now = false ∧
       (Part003.Get k now (Part003.removeExpiredEntries now (Part003.run c0 h))).2
         = Some (Part003.value ent)).
Proof.
  intros K EqK CntK V capacity opts c0 h now Hnew.
  pose proof (p3_run_inv c0 h (p3_New_inv _ _ _ Hnew)) as (Hwf & _).
  set (c := Part003.run c0 h) in *. clearbody c.
  unfold Part003.removeExpiredEntries.
  pose proof (p3_removeExpiredLocked_entries now c Hwf) as He.
  split; [done|]. split.
  - rewrite <-He. unfold Part003.removeExpiredLocked.
    apply (sweep_order Part003.entries Part003.order Part003.removeElementLocked
             (λ e, Part003.isExpired e now) (λ _ _, eq_refl) (λ _ _, eq_refl)
             (reverse (Part003.order c)) c Hwf).
  - intros k ent Hk. pose proof Hk as Hk'. rewrite He in Hk'.
    apply map_lookup_filter_Some in Hk' as [_ Hlive]. simpl in Hlive.
    split; [done|]. unfold Part003.Get. by rewrite Hk, Hlive.
Qed.

(** X8 on a cache holding [soon] (TTL 20) and [later] (TTL 200), swept at
    60. *)
Lemma x8_p3_sweep_exact_witness :
  ∃ c0 : Part003.Cache string Z,
    Part003.New 2 [] = inl c0 ∧
    let c := Part003.run c0 [(0%Z, Part003.CallSetWithTTL "later" 2%Z 200);
                             (0%Z, Part003.CallSetWithTTL "soon" 1%Z 20)] in
    Part003.entries (Part003.removeExpiredEntries 60 c) = Part003.live 60 c ∧
    Part003.order (Part003.removeExpiredEntries 60 c)
      = filter (λ k, is_Some (Part003.live 60 c !! k)) (Part003.order c) ∧
    (∀ k ent,
       Part003.entries (Part003.removeExpiredEntries 60 c) !! k = Some ent →
       Part003.isExpired ent 60 = false ∧
       (Part003.Get k 60 (Part003.removeExpiredEntries 60 c)).2
         = Some (Part003.value ent)).
Proof.
  eexists. split; [reflexivity|]. intros c.
  apply (x8_p3_sweep_exact string _ _ Z 2%Z []). reflexivity.
Defined.

(** X9.  A cache of src/unnamed/part_003 with capacity 1 keeps only the key
    set last: in every state reached from [New(1)], after an accepted
    [SetWithTTL] the list is that key alone and the map holds that key
    alone. *)
Theorem x9_p3_capacity_one :
  ∀ (K : Type) (EqK : EqDecision K) (CntK : Countable K) (V : Type)
    (opts : list Part003.Option) (c0 : Part003.Cache K V)
    (h : list (Part003.event K V)) (k : K) (v : V) (ttl : Duration) (now : Time),
    Part003.New 1 opts = inl c0 →
    (0 ≤ ttl)%Z →
    Part003.order (Part003.SetWithTTL k v ttl now (Part003.run c0 h)).1 = [k] ∧
    dom (Part003.entries (Part003.SetWithTTL k v ttl now (Part003.run c0 h)).1)
      = {[ k ]} ∧
    (∀ k' now', k' ≠ k →
       (Part003.Get k' now' (Part003.SetWithTTL k v ttl now (Part003.run c0 h)).1).2
         = None).
Proof.
  intros K EqK CntK V opts c0 h k v ttl now Hnew Httl.
  pose proof (p3_run_inv c0 h (p3_New_inv _ _ _ Hnew)) as Hinv.
  pose proof (p3_SetWithTTL_inv k v ttl now _ Hinv) as (Hwf & _ & Hle).
  destruct (p3_SetWithTTL_lookup k v ttl now _ Hinv Httl) as (_ & _ & Hfront).
  rewrite p3_SetWithTTL_capacity, p3_run_capacity in Hle.
  pose proof (p3_New_inl _ _ _ Hnew) as (Hcap & _). rewrite Hcap in Hle.
  set (c' := (Part003.SetWithTTL k v ttl now (Part003.run c0 h)).1) in *. clearbody c'.
  assert (Part003.order c' = [k]) as Hord.
  { apply head_Some in Hfront as [l' Hl']. rewrite Hl' in Hle |- *.
    unfold GoList.Len in Hle. simpl in Hle. destruct l'; [done|simpl in Hle; lia]. }
  assert (∀ k', is_Some (Part003.entries c' !! k') ↔ k' = k) as Hdom.
  { intros k'. destruct Hwf as [_ Hdom]. rewrite <-Hdom, Hord.
    apply list_elem_of_singleton. }
  split; [done|]. split.
  - apply set_eq. intros k'. rewrite elem_of_dom, Hdom. by rewrite elem_of_singleton.
  - intros k' now' Hne. unfold Part003.Get.
    destruct (Part003.entries c' !! k') as [e|] eqn:Hk'; [|done].
    exfalso. apply Hne, Hdom. eauto.
Qed.

(** X9 after [a] and then [b] were set in a cache of capacity 1. *)
Lemma x9_p3_capacity_one_witness :
  ∃ c0 : Part003.Cache string Z,
    Part003.New 1 [] = inl c0 ∧
    let c := Part003.run c0 [(1%Z, Part003.CallSet "a" 1%Z)] in
    Part003.order (Part003.SetWithTTL "b" 2%Z 0 2 c).1 = ["b"] ∧
    dom (Part003.entries (Part003.SetWithTTL "b" 2%Z 0 2 c).1) = {[ "b" ]} ∧
    (∀ k' now', k' ≠ "b" →
       (Part003.Get k' now' (Part003.SetWithTTL "b" 2%Z 0 2 c).1).2 = None).
Proof.
  eexists. split; [reflexivity|]. intros c.
  apply (x9_p3_capacity_one string _ _ Z []); [reflexivity|lia].
Defined.

(** ** src/agent14/lru.go *)

Section Agent14More.
Context {V : Type}.
Import Agent14.
Implicit Types (c : Cache V) (k : string).

Lemma a14_step_capacity ev c : capacity (step ev c) = capacity c.
Proof.
  unfold step. destruct ev.2; simpl; try done.
  - unfold Set_. destruct (items c !! key); [done|].
    destruct (_ >? _)%Z; [|done]. unfold removeOldestLocked.
    by destruct (GoList.Back _).
  - unfold Get. destruct (items c !! key) as [e|]; [|done]. by destruct (_ || _).
  - unfold Delete. by destruct (items c !! key).
  - unfold removeExpired.
    apply (foldl_preserves (λ c', capacity c' = capacity c)); [|done].
    intros c' k <-. destruct (items c' !! k) as [e|]; [|done]. by destruct (_ && _).
Qed.

Lemma a14_run_capacity c0 h : capacity (run c0 h) = capacity c0.
Proof.
  induction h as [|ev h IH]; simpl; [done|]. by rewrite a14_step_capacity.
Qed.
End Agent14More.

(** X10.  The store of src/agent14/lru.go stays consistent although [Set]
    tests the size of the map and evicts from the list: in every state reached
    from [New], the list has no duplicates and lists exactly the keys of the
    map, [Len()] is the length of the list and at most the capacity, and the
    capacity is the configured one, or 128 when that is zero or less. *)
Theorem x10_a14_store_consistent :
  ∀ (V : Type) (cfg : Agent14.Config) (h : list (Agent14.event V)),
    NoDup (Agent14.order (Agent14.run (Agent14.New cfg) h)) ∧
    (∀ k, k ∈ Agent14.order (Agent14.run (Agent14.New cfg) h)
          ↔ is_Some (Agent14.items (Agent14.run (Agent14.New cfg) h) !! k)) ∧
    Agent14.Len (Agent14.run (Agent14.New cfg) h)
      = GoList.Len (Agent14.order (Agent14.run (Agent14.New cfg) h)) ∧
    (Agent14.Len (Agent14.run (Agent14.New cfg) h)
       ≤ Agent14.capacity (Agent14.run (Agent14.New cfg) h))%Z ∧
    Agent14.capacity (Agent14.run (Agent14.New cfg) h)
      = (if (Agent14.Capacity cfg <=? 0)%Z then 128%Z else Agent14.Capacity cfg).
Proof.
  intros V cfg h.
  pose proof (a14_run_inv _ h (a14_New_inv (V:=V) cfg)) as (Hwf & _ & Hle).
  rewrite a14_run_capacity in *. unfold Agent14.Len.
  rewrite (store_wf_size _ _ Hwf). split; [apply Hwf|]. split; [apply Hwf|]. done.
Qed.

(** X11.  [Clear] of src/agent14/lru.go empties map and list and leaves
    capacity and stop channel as they are, in every state.  In every state
    reached from [New] by calls other than [Close], the cleared cache is the
    cache [New] returned, so what follows a [Clear] is what would follow
    [New].  After a [Close] this is no longer so: [Clear] does not reopen
    the stop channel, the cleared cache differs from the one [New] returned,
    and a [Close] of it panics. *)
Theorem x11_a14_clear_resets :
  ∀ (V : Type) (cfg : Agent14.Config) (h h' : list (Agent14.event V)) (t : Time),
    (∀ c : Agent14.Cache V,
       Agent14.items (Agent14.Clear c) = ∅ ∧
       Agent14.order (Agent14.Clear c) = [] ∧
       Agent14.capacity (Agent14.Clear c) = Agent14.capacity c ∧
       Agent14.stopCh (Agent14.Clear c) = Agent14.stopCh c ∧
       Agent14.Len (Agent14.Clear c) = 0%Z ∧
       (∀ k now, (Agent14.Get k now (Agent14.Clear c)).2 = inr Agent14.ErrNotFound)) ∧
    Agent14.Clear (Agent14.run (Agent14.New cfg) h) = Agent14.New cfg ∧
    Agent14.run (Agent14.New cfg) (h' ++ (t, Agent14.CallClear) :: h)
      = Agent14.run (Agent14.New cfg) h' ∧
    (∃ c1, Agent14.Close (Agent14.run (Agent14.New cfg) h) = Some c1 ∧
           Agent14.Clear c1 ≠ Agent14.New cfg ∧
           GoChan.closed (Agent14.stopCh (Agent14.Clear c1)) = true ∧
           Agent14.Close (Agent14.Clear c1) = None).
Proof.
  intros V cfg h h' t.
  pose proof (a14_run_stopCh cfg h) as Hopen.
  assert (Agent14.Clear (Agent14.run (Agent14.New cfg) h) = Agent14.New cfg) as Hclear.
  { pose proof (a14_run_capacity (Agent14.New cfg) h) as Hcap.
    unfold Agent14.Clear, Agent14.with_store. rewrite Hcap.
    destruct (Agent14.stopCh (Agent14.run (Agent14.New cfg) h)) as [b].
    simpl in Hopen. subst b. done. }
  split; [|split; [done|split]].
  - intros c. done.
  - unfold Agent14.run. rewrite foldr_app. simpl. unfold Agent14.step at 2. simpl.
    fold (Agent14.run (Agent14.New cfg) h). by rewrite Hclear.
  - unfold Agent14.Close, GoChan.close. rewrite Hopen.
    eexists. split; [reflexivity|]. simpl. split; [|done].
    intros Heq. apply (f_equal (λ c, GoChan.closed (Agent14.stopCh c))) in Heq.
    simpl in Heq. done.
Qed.

(** X12.  One sweep ([removeExpired]) of src/agent14/lru.go, in every state
    reached from [New]: an entry is stored afterwards exactly when it was
    stored before and its expiry is unset or not before the reading of the
    sweep, and the list keeps the remaining keys in their order.  An entry
    whose expiry equals the reading is kept. *)
Theorem x12_a14_sweep_exact :
  ∀ (V : Type) (cfg : Agent14.Config) (h : list (Agent14.event V)) (now : Time),
    (∀ k ent,
       Agent14.items (Agent14.removeExpired now (Agent14.run (Agent14.New cfg) h)) !! k
         = Some ent ↔
       Agent14.items (Agent14.run (Agent14.New cfg) h) !! k = Some ent ∧
       (Agent14.expiresAt ent = 0%Z ∨ (now ≤ Agent14.expiresAt ent)%Z)) ∧
    Agent14.order (Agent14.removeExpired now (Agent14.run (Agent14.New cfg) h))
      = filter (λ k, is_Some (Agent14.items
                                (Agent14.removeExpired now
                                   (Agent14.run (Agent14.New cfg) h)) !! k))
          (Agent14.order (Agent14.run (Agent14.New cfg) h)).
Proof.
  intros V cfg h now.
  pose proof (a14_run_inv _ h (a14_New_inv (V:=V) cfg)) as (Hwf & _).
  set (c := Agent14.run _ h) in *. clearbody c. split.
  - intros k ent. rewrite a14_removeExpired_lookup.
    destruct (Agent14.items c !! k) as [e|] eqn:Hk.
    + rewrite bool_decide_eq_true_2 by (rewrite elem_of_reverse; apply Hwf; eauto).
      simpl. unfold GoTime.IsZero, GoTime.After.
      destruct (Z.eqb_spec (Agent14.expiresAt e) 0) as [Hz|Hz]; simpl.
      * split; [intros [= <-]; auto|]. by intros [? _].
      * destruct (Z.ltb_spec (Agent14.expiresAt e) now); simpl.
        -- split; [done|]. intros [[= <-] [?|?]]; lia.
        -- split; [intros [= <-]; auto|]. by intros [? _].
    + split; [done|]. by intros [? _].
  - apply (sweep_order Agent14.items Agent14.order Agent14.removeElementLocked
             (λ e, negb (GoTime.IsZero (Agent14.expiresAt e)) &&
                   GoTime.After now (Agent14.expiresAt e))
             (λ _ _, eq_refl) (λ _ _, eq_refl) (reverse (Agent14.order c)) c Hwf).
Qed.

(** X13.  [Set] with a positive TTL and [Get] of src/agent14/lru.go, in every
    state reached from [New]: the key is stored and, the expiry [now + ttl]
    not being the zero time, [Get] returns the value at every reading before
    [now + ttl] and reports [ErrNotFound] at every reading from [now + ttl]
    on. *)
Theorem x13_a14_set_get_window :
  ∀ (V : Type) (cfg : Agent14.Config) (h : list (Agent14.event V))
    (k : string) (v : V) (ttl : Duration) (now now' : Time),
    (0 < ttl)%Z → (now + ttl)%Z ≠ 0%Z →
    ((now' < now + ttl)%Z →
     (Agent14.Get k now' (Agent14.Set_ k v ttl now (Agent14.run (Agent14.New cfg) h))).2
       = inl v) ∧
    ((now + ttl ≤ now')%Z →
     (Agent14.Get k now' (Agent14.Set_ k v ttl now (Agent14.run (Agent14.New cfg) h))).2
       = inr Agent14.ErrNotFound).
Proof.
  intros V cfg h k v ttl now now' Httl Hnz.
  pose proof (a14_Set_lookup k v ttl now _ (a14_run_inv _ h (a14_New_inv cfg))) as Hk.
  destruct (Z.gtb_spec ttl 0); [|lia].
  unfold Agent14.Get. rewrite Hk. simpl.
  unfold GoTime.IsZero, GoTime.Before, GoTime.Add.
  destruct (Z.eqb_spec (now + ttl) 0); [done|].
  destruct (Z.ltb_spec now' (now + ttl)); simpl; split; (done || lia).
Qed.

(** X13 on the expiration test of the package: a TTL of 50 set at reading
    0, read at 49 and at 50. *)
Lemma x13_a14_set_get_window_witness :
  (Agent14.Get "a" 49
     (Agent14.Set_ "a" 1%Z 50 0
        (Agent14.run
           (Agent14.New {| Agent14.Capacity := 2; Agent14.CleanupInterval := 0 |}) []))).2
    = inl 1%Z ∧
  (Agent14.Get "a" 50
     (Agent14.Set_ "a" 1%Z 50 0
        (Agent14.run
           (Agent14.New {| Agent14.Capacity := 2; Agent14.CleanupInterval := 0 |}) []))).2
    = inr Agent14.ErrNotFound.
Proof.
  split.
  - apply (proj1 (x13_a14_set_get_window Z _ [] "a" 1%Z 50%Z 0%Z 49%Z
                    ltac:(lia) ltac:(lia))). lia.
  - apply (proj2 (x13_a14_set_get_window Z _ [] "a" 1%Z 50%Z 0%Z 50%Z
                    ltac:(lia) ltac:(lia))). lia.
Defined.

(** ** Sweeps that collect the expired elements first *)

Lemma filter_iff_in {A : Type} (P Q : A → Prop)
    `{!∀ x, Decision (P x), !∀ x, Decision (Q x)} (l : list A) :
  (∀ x, x ∈ l → (P x ↔ Q x)) → filter P l = filter Q l.
Proof.
  induction l as [|x l IH]; intros Hiff; [done|].
  assert (filter P l = filter Q l) as Hl by (apply IH; intros y Hy; apply Hiff; by right).
  destruct (decide (P x)) as [HP|HP].
  - rewrite !filter_cons_True; [by rewrite Hl|by apply Hiff; [left|]|done].
  - rewrite !filter_cons_False; [done| |done]. intros HQ. apply HP, Hiff; [left|done].
Qed.

Section RemoveAllFacts.
Context `{Countable K} {E S : Type}.
Context (get_items : S → gmap K E) (get_order : S → list K) (rm : K → S → S).
Hypothesis rm_items : ∀ k s, get_items (rm k s) = delete k (get_items s).
Hypothesis rm_order : ∀ k s, get_order (rm k s) = GoList.Remove k (get_order s).

Lemma remove_all_lookup (l : list K) (s : S) (k : K) :
  get_items (foldl (λ s k, rm k s) s l) !! k
  = if bool_decide (k ∈ l) then None else get_items s !! k.
Proof.
  revert s. induction l as [|k0 l IH]; intros s; simpl; [done|].
  rewrite IH, rm_items. destruct (decide (k ∈ l)) as [Hin|Hin].
  - by rewrite !bool_decide_eq_true_2 by (by try right).
  - rewrite (bool_decide_eq_false_2 (k ∈ l)) by done.
    destruct (decide (k = k0)) as [->|Hne].
    + rewrite lookup_delete_eq. by rewrite bool_decide_eq_true_2 by left.
    + rewrite lookup_delete_ne by done. rewrite bool_decide_eq_false_2; [done|].
      rewrite elem_of_cons. tauto.
Qed.

Lemma remove_all_wf (l : list K) (s : S) :
  store_wf (get_items s) (get_order s) →
  store_wf (get_items (foldl (λ s k, rm k s) s l))
           (get_order (foldl (λ s k, rm k s) s l)).
Proof.
  apply (foldl_preserves (λ s, store_wf (get_items s) (get_order s))).
  intros s' k Hwf. rewrite rm_items, rm_order. by apply store_wf_remove.
Qed.

Lemma remove_all_length (l : list K) (s : S) :
  length (get_order (foldl (λ s k, rm k s) s l)) ≤ length (get_order s).
Proof.
  apply (foldl_preserves (λ s', length (get_order s') ≤ length (get_order s))); [|done].
  intros s' k Hs. rewrite rm_order. pose proof (Remove_length_le k (get_order s')). lia.
Qed.

Lemma remove_all_order (l : list K) (s : S) :
  get_order (foldl (λ s k, rm k s) s l) = filter (λ k, k ∉ l) (get_order s).
Proof.
  revert s. induction l as [|k0 l IH]; intros s; simpl.
  - induction (get_order s) as [|x xs IHx]; [done|].
    rewrite filter_cons_True by apply not_elem_of_nil. by rewrite <-IHx.
  - rewrite IH, rm_order. unfold GoList.Remove. rewrite list_filter_filter.
    apply list_filter_iff. intros x. rewrite not_elem_of_cons. tauto.
Qed.
End RemoveAllFacts.

(** ** src/agent13/lru.go *)

Section Agent13Facts.
Context {V : Type}.
Import Agent13.
Implicit Types (c : Cache V) (k : string).

Lemma a13_New_inv capacity cleanupInterval : inv (New (V:=V) capacity cleanupInterval).
Proof.
  split; [apply store_wf_empty|]. unfold New. simpl. unfold GoList.Len. simpl.
  destruct (Z.leb_spec capacity 0); lia.
Qed.

Lemma a13_removeElement_inv k c : inv c → inv (removeElement k c).
Proof.
  intros (Hwf & Hpos & Hle). split; [by apply store_wf_remove|]. simpl.
  split; [done|]. pose proof (Remove_length_le k (evictList c)).
  unfold GoList.Len in *. lia.
Qed.

Lemma a13_Set_inv k v ttl now c : inv c → inv (Set_ k v ttl now c).
Proof.
  intros (Hwf & Hpos & Hle). unfold Set_.
  destruct (items c !! k) as [e|] eqn:Hk.
  - split; [|split]; simpl; [|done|].
    + apply store_wf_update; [by eauto|]. by apply store_wf_move.
    + unfold GoList.Len in *. rewrite MoveToFront_length; [done|apply Hwf].
  - set (ent := Build_entry _ _). set (c1 := with_store c _ _).
    assert (store_wf (items c1) (evictList c1)) as Hwf1 by by apply store_wf_push.
    assert (capacity c1 = capacity c) as Hc1 by done.
    assert (evictList c1 = k :: evictList c) as Ho1 by done.
    clearbody c1.
    assert (length (evictList c1) = S (length (evictList c))) as Hlen1 by by rewrite Ho1.
    destruct (Z.gtb_spec (GoList.Len (evictList c1)) (capacity c1)) as [Hgt|Hle1].
    + unfold removeOldest. destruct (GoList.Back (evictList c1)) as [tail|] eqn:Hback.
      * apply Back_Some in Hback as [l' Hl'].
        assert (S (length (GoList.Remove tail (evictList c1))) = length (evictList c1))
          as Hlen.
        { apply Remove_length; [apply Hwf1|]. rewrite Hl'.
          apply elem_of_app. right. by left. }
        split; [by apply store_wf_remove|]. simpl. rewrite Hc1. split; [done|].
        unfold GoList.Len in *. lia.
      * apply last_None in Hback. rewrite Ho1 in Hback. done.
    + split; [done|]. rewrite Hc1 in *. split; [done|]. done.
Qed.

Lemma a13_Get_inv k now c : inv c → inv (Get k now c).1.
Proof.
  intros Hinv. unfold Get. destruct (items c !! k) as [e|]; [|done].
  destruct (_ && _); simpl; [by apply a13_removeElement_inv|].
  destruct Hinv as (Hwf & Hpos & Hle). split; [by apply store_wf_move|].
  simpl. split; [done|]. unfold GoList.Len in *.
  rewrite MoveToFront_length; [done|apply Hwf].
Qed.

Lemma a13_removeExpiredItems_inv now c : inv c → inv (removeExpiredItems now c).
Proof.
  intros (Hwf & Hpos & Hle). unfold removeExpiredItems.
  set (l := filter _ _). clearbody l.
  split; [|split].
  - by apply (remove_all_wf items evictList removeElement (λ _ _, eq_refl)
                (λ _ _, eq_refl)).
  - by apply (foldl_preserves (λ c', (0 < capacity c')%Z)).
  - assert (capacity (foldl (λ c elem, removeElement elem c) c l) = capacity c) as ->.
    { by apply (foldl_preserves (λ c', capacity c' = capacity c)). }
    pose proof (remove_all_length evictList removeElement (λ _ _, eq_refl) l c).
    unfold GoList.Len in *. lia.
Qed.

Lemma a13_step_inv ev c : inv c → inv (step ev c).
Proof.
  intros Hinv. unfold step. destruct ev.2; simpl.
  - by apply a13_Set_inv.
  - by apply a13_Get_inv.
  - unfold Delete. destruct (items c !! key); [|done]. by apply a13_removeElement_inv.
  - done.
  - destruct Hinv as (_ & Hpos & _). split; [apply store_wf_empty|]. simpl.
    unfold GoList.Len. simpl. lia.
  - by apply a13_removeExpiredItems_inv.
Qed.

Lemma a13_run_inv c0 h : inv c0 → inv (run c0 h).
Proof. intros H0. induction h as [|ev h IH]; simpl; [done|]. by apply a13_step_inv. Qed.
End Agent13Facts.

(** X14.  The sweep of src/agent13/lru.go ([removeExpiredItems], which first
    collects the expired elements and then removes them), in every state
    reached from [New]: an entry is stored afterwards exactly when it was
    stored before and its expiry is unset or not before the reading; the
    list keeps the remaining keys in their order; and the sweep agrees with
    [Get]: every key stored after a sweep is returned by [Get] at the same
    reading. *)
Theorem x14_a13_sweep_exact :
  ∀ (V : Type) (capacity : Z) (cleanupInterval : Duration)
    (h : list (Agent13.event V)) (now : Time),
    (∀ k ent,
       Agent13.items
         (Agent13.removeExpiredItems now
            (Agent13.run (Agent13.New capacity cleanupInterval) h)) !! k = Some ent ↔
       Agent13.items (Agent13.run (Agent13.New capacity cleanupInterval) h) !! k
         = Some ent ∧
       (Agent13.expiration ent = 0%Z ∨ (now ≤ Agent13.expiration ent)%Z)) ∧
    Agent13.evictList
      (Agent13.removeExpiredItems now
         (Agent13.run (Agent13.New capacity cleanupInterval) h))
      = filter (λ k, is_Some (Agent13.items
                                (Agent13.removeExpiredItems now
                                   (Agent13.run (Agent13.New capacity cleanupInterval) h))
                              !! k))
          (Agent13.evictList (Agent13.run (Agent13.New capacity cleanupInterval) h)) ∧
    (∀ k ent,
       Agent13.items
         (Agent13.removeExpiredItems now
            (Agent13.run (Agent13.New capacity cleanupInterval) h)) !! k = Some ent →
       (Agent13.Get k now
          (Agent13.removeExpiredItems now
             (Agent13.run (Agent13.New capacity cleanupInterval) h))).2
         = Some (Agent13.value ent)).
Proof.
  intros V capacity cleanupInterval h now.
  pose proof (a13_run_inv _ h (a13_New_inv (V:=V) capacity cleanupInterval))
    as (Hwf & _).
  set (c := Agent13.run _ h) in *. clearbody c.
  assert (∀ k ent,
    Agent13.items (Agent13.removeExpiredItems now c) !! k = Some ent ↔
    Agent13.items c !! k = Some ent ∧
    (Agent13.expiration ent = 0%Z ∨ (now ≤ Agent13.expiration ent)%Z)) as Hchar.
  { intros k ent. unfold Agent13.removeExpiredItems.
    rewrite (remove_all_lookup Agent13.items Agent13.removeElement (λ _ _, eq_refl)).
    destruct (Agent13.items c !! k) as [e|] eqn:Hk.
    - assert (k ∈ reverse (Agent13.evictList c)) as Hin
        by (rewrite elem_of_reverse; apply Hwf; eauto).
      unfold GoTime.IsZero, GoTime.After.
      destruct (Z.eqb_spec (Agent13.expiration e) 0) as [Hz|Hz];
        [|destruct (Z.ltb_spec (Agent13.expiration e) now) as [Hlt|Hge]].
      + rewrite bool_decide_eq_false_2.
        * split; [intros [= <-]; auto|]. by intros [? _].
        * rewrite list_elem_of_filter, Hk. unfold GoTime.IsZero.
          destruct (Z.eqb_spec (Agent13.expiration e) 0); [|done]. simpl.
          intros [? _]. done.
      + rewrite bool_decide_eq_true_2.
        * split; [done|]. intros [[= <-] [?|?]]; lia.
        * rewrite list_elem_of_filter, Hk. unfold GoTime.IsZero, GoTime.After.
          destruct (Z.eqb_spec (Agent13.expiration e) 0); [done|]. simpl.
          split; [|done]. by apply Z.ltb_lt.
      + rewrite bool_decide_eq_false_2.
        * split; [intros [= <-]; auto|]. by intros [? _].
        * rewrite list_elem_of_filter, Hk. unfold GoTime.IsZero, GoTime.After.
          destruct (Z.eqb_spec (Agent13.expiration e) 0); [done|]. simpl.
          intros [Hlt _]. apply Z.ltb_lt in Hlt. lia.
    - destruct (bool_decide _); (split; [done|by intros [? _]]). }
  split; [exact Hchar|]. split.
  - unfold Agent13.removeExpiredItems.
    rewrite (remove_all_order Agent13.evictList Agent13.removeElement (λ _ _, eq_refl)).
    apply filter_iff_in. intros x Hx.
    rewrite (remove_all_lookup Agent13.items Agent13.removeElement (λ _ _, eq_refl)).
    apply Hwf in Hx. case_bool_decide as Hin.
    + split; [done|]. by intros [? ?].
    + done.
  - intros k ent Hk. unfold Agent13.Get. rewrite Hk.
    apply Hchar in Hk as [_ Hlive]. unfold GoTime.IsZero, GoTime.After.
    destruct (Z.eqb_spec (Agent13.expiration ent) 0); [done|]. simpl.
    destruct (Z.ltb_spec (Agent13.expiration ent) now); [lia|done].
Qed.

(** ** src/agent12/internal/lru/lru.go *)

Lemma count_foldl {A : Type} (f : A → bool) (l : list A) (n : Z) :
  foldl (λ count x, if f x then (count + 1)%Z else count) n l
  = (n + Z.of_nat (length (filter (λ x, f x = true) l)))%Z.
Proof.
  revert n. induction l as [|x l IH]; intros n; simpl; [lia|].
  rewrite IH. destruct (f x) eqn:Hf.
  - rewrite filter_cons_True by done. simpl. lia.
  - rewrite filter_cons_False by (by rewrite Hf). lia.
Qed.

Lemma store_wf_filter `{Countable K} {E : Type} (P : E → bool)
    (m : gmap K E) (l : list K) :
  store_wf m l →
  store_wf (filter (λ kv, P kv.2 = true) m)
           (filter (λ k, match m !! k with Some e => P e | None => false end = true) l).
Proof.
  intros [Hnd Hdom]. split; [by apply NoDup_filter|].
  intros k. rewrite list_elem_of_filter, Hdom.
  destruct (m !! k) as [e|] eqn:Hk.
  - split.
    + intros [HP _]. exists e. by apply map_lookup_filter_Some.
    + intros [e' [He' HP]%map_lookup_filter_Some]. simpl in HP.
      assert (e' = e) as -> by congruence. eauto.
  - split; [by intros [? _]|]. intros [e' [He' _]%map_lookup_filter_Some]. congruence.
Qed.

Section Agent12Facts.
Context {V : Type}.
Import Agent12.
Implicit Types (c : Cache V) (k : string).

(** [New] returns a cache exactly for a positive size and an interval that
    is not negative. *)
Lemma a12_New_Some maxSize cleanupInterval c0 :
  New (V:=V) maxSize cleanupInterval = Some c0 →
  (0 < maxSize)%Z ∧ (0 ≤ cleanupInterval)%Z ∧
  c0 = {| maxSize := maxSize; items := ∅; lst := []; stopCh := GoChan.make;
          wg := 1; closeOnce := false; cleanup_ := Running |}.
Proof.
  unfold New. destruct (Z.leb_spec maxSize 0); [done|].
  destruct (Z.eqb_spec cleanupInterval 0) as [->|Hnz].
  - destruct (Z.leb_spec GoTime.Minute 0); [done|]. intros [= <-]. done.
  - destruct (Z.leb_spec cleanupInterval 0); [done|]. intros [= <-].
    split; [done|]. split; [lia|done].
Qed.

Lemma a12_New_inv maxSize cleanupInterval c0 :
  New (V:=V) maxSize cleanupInterval = Some c0 → inv c0 ∧ sync_inv c0.
Proof.
  intros (Hpos & _ & ->)%a12_New_Some. split; [|done].
  split; [apply store_wf_empty|]. simpl. unfold GoList.Len. simpl. lia.
Qed.

Lemma a12_removeElement_inv k c : inv c → inv (removeElement k c).
Proof.
  intros (Hwf & Hpos & Hle). split; [by apply store_wf_remove|]. simpl.
  split; [done|]. pose proof (Remove_length_le k (lst c)).
  unfold GoList.Len in *. lia.
Qed.

Lemma a12_Set_inv k v ttl now c : inv c → inv (Set_ k v ttl now c).
Proof.
  intros (Hwf & Hpos & Hle). unfold Set_.
  destruct (items c !! k) as [e|] eqn:Hk.
  - split; [|split]; simpl; [|done|].
    + apply store_wf_update; [by eauto|]. by apply store_wf_move.
    + unfold GoList.Len in *. rewrite MoveToFront_length; [done|apply Hwf].
  - set (ent := Build_entry _ _). set (c1 := with_store c _ _).
    assert (store_wf (items c1) (lst c1)) as Hwf1 by by apply store_wf_push.
    assert (maxSize c1 = maxSize c) as Hc1 by done.
    assert (lst c1 = k :: lst c) as Ho1 by done.
    clearbody c1.
    assert (length (lst c1) = S (length (lst c))) as Hlen1 by by rewrite Ho1.
    destruct (Z.gtb_spec (GoList.Len (lst c1)) (maxSize c1)) as [Hgt|Hle1].
    + unfold evict. destruct (GoList.Back (lst c1)) as [tail|] eqn:Hback.
      * apply Back_Some in Hback as [l' Hl'].
        assert (S (length (GoList.Remove tail (lst c1))) = length (lst c1)) as Hlen.
        { apply Remove_length; [apply Hwf1|]. rewrite Hl'.
          apply elem_of_app. right. by left. }
        split; [by apply store_wf_remove|]. simpl. rewrite Hc1. split; [done|].
        unfold GoList.Len in *. lia.
      * apply last_None in Hback. rewrite Ho1 in Hback. done.
    + split; [done|]. rewrite Hc1 in *. split; [done|]. done.
Qed.

Lemma a12_Get_inv k now c : inv c → inv (Get k now c).1.
Proof.
  intros Hinv. unfold Get. destruct (items c !! k) as [e|]; [|done].
  destruct (_ && _); simpl; [by apply a12_removeElement_inv|].
  destruct Hinv as (Hwf & Hpos & Hle). split; [by apply store_wf_move|].
  simpl. split; [done|]. unfold GoList.Len in *.
  rewrite MoveToFront_length; [done|apply Hwf].
Qed.

Lemma a12_removeExpired_inv now c : inv c → inv (removeExpired now c).
Proof.
  intros (Hwf & Hpos & Hle). unfold removeExpired.
  set (l := filter _ _). clearbody l.
  split; [|split].
  - by apply (remove_all_wf items lst removeElement (λ _ _, eq_refl) (λ _ _, eq_refl)).
  - by apply (foldl_preserves (λ c', (0 < maxSize c')%Z)).
  - assert (maxSize (foldl (λ c elem, removeElement elem c) c l) = maxSize c) as ->.
    { by apply (foldl_preserves (λ c', maxSize c' = maxSize c)). }
    pose proof (remove_all_length lst removeElement (λ _ _, eq_refl) l c).
    unfold GoList.Len in *. lia.
Qed.

(** The operations on the entries leave size limit, channel, counter,
    [sync.Once] and goroutine alone. *)
Lemma a12_Set_ctl k v ttl now c : ctl (Set_ k v ttl now c) = ctl c.
Proof.
  unfold Set_. destruct (items c !! k); [done|].
  destruct (_ >? _)%Z; [|done]. unfold evict. by destruct (GoList.Back _).
Qed.

Lemma a12_Get_ctl k now c : ctl (Get k now c).1 = ctl c.
Proof.
  unfold Get. destruct (items c !! k) as [e|]; [|done]. by destruct (_ && _).
Qed.

Lemma a12_removeExpired_ctl now c : ctl (removeExpired now c) = ctl c.
Proof.
  unfold removeExpired. by apply (foldl_preserves (λ c', ctl c' = ctl c)).
Qed.

Lemma a12_tick_ctl now c : ctl (cleanup_select (CaseTick now) c) = ctl c.
Proof.
  unfold cleanup_select. destruct (cleanup_ c); [apply a12_removeExpired_ctl|done].
Qed.

Lemma a12_tick_inv now c : inv c → inv (cleanup_select (CaseTick now) c).
Proof.
  intros Hinv. unfold cleanup_select.
  destruct (cleanup_ c); [by apply a12_removeExpired_inv|done].
Qed.

Lemma a12_sweeps_ctl sweeps c :
  ctl (foldl (λ c now, cleanup_select (CaseTick now) c) c sweeps) = ctl c.
Proof.
  apply (foldl_preserves (λ c', ctl c' = ctl c)); [|done].
  intros c' t <-. apply a12_tick_ctl.
Qed.

Lemma a12_sweeps_inv sweeps c :
  inv c → inv (foldl (λ c now, cleanup_select (CaseTick now) c) c sweeps).
Proof. apply (foldl_preserves inv). intros c' t. apply a12_tick_inv. Qed.

(** A sweep removes entries, and only ones that [Get] no longer returns at
    the reading of the sweep or later. *)
Lemma a12_removeExpired_lookup now c k :
  store_wf (items c) (lst c) →
  items (removeExpired now c) !! k
  = match items c !! k with
    | Some e => if negb (GoTime.IsZero (expiresAt e)) && GoTime.After now (expiresAt e)
                then None else Some e
    | None => None
    end.
Proof.
  intros Hwf. unfold removeExpired.
  rewrite (remove_all_lookup items removeElement (λ _ _, eq_refl)).
  destruct (items c !! k) as [e|] eqn:Hk.
  - destruct (negb _ && _) eqn:Hexp.
    + rewrite bool_decide_eq_true_2; [done|].
      rewrite list_elem_of_filter, Hk. split; [done|]. apply Hwf. eauto.
    + rewrite bool_decide_eq_false_2; [done|].
      rewrite list_elem_of_filter, Hk, Hexp. by intros [? _].
  - rewrite bool_decide_eq_false_2; [done|].
    rewrite list_elem_of_filter, Hk. by intros [? _].
Qed.

Lemma a12_tick_subseteq now c :
  store_wf (items c) (lst c) → items (cleanup_select (CaseTick now) c) ⊆ items c.
Proof.
  intros Hwf. unfold cleanup_select. destruct (cleanup_ c); [|done].
  apply map_subseteq_spec. intros k e. rewrite a12_removeExpired_lookup by done.
  destruct (items c !! k) as [e'|]; [|done]. by destruct (_ && _).
Qed.

Lemma a12_tick_answer t now k c :
  store_wf (items c) (lst c) → (t ≤ now)%Z →
  (Get k now (cleanup_select (CaseTick t) c)).2 = (Get k now c).2.
Proof.
  intros Hwf Hle. unfold cleanup_select. destruct (cleanup_ c); [|done].
  unfold Get. rewrite a12_removeExpired_lookup by done.
  destruct (items c !! k) as [e|]; [|done].
  unfold GoTime.IsZero, GoTime.After.
  destruct (Z.eqb_spec (expiresAt e) 0) as [Hz|Hz]; simpl.
  - rewrite Hz. done.
  - destruct (Z.ltb_spec (expiresAt e) t) as [Hlt|Hge].
    + destruct (Z.ltb_spec (expiresAt e) now); [done|lia].
    + destruct (Z.eqb_spec (expiresAt e) 0); [done|]. simpl.
      by destruct (expiresAt e <? now)%Z.
Qed.

Lemma a12_sweeps_store sweeps c :
  inv c →
  items (foldl (λ c now, cleanup_select (CaseTick now) c) c sweeps) ⊆ items c ∧
  (∀ k now, (∀ t, t ∈ sweeps → (t ≤ now)%Z) →
            (Get k now (foldl (λ c now, cleanup_select (CaseTick now) c) c sweeps)).2
            = (Get k now c).2).
Proof.
  revert c. induction sweeps as [|t sweeps IH]; intros c Hinv; simpl; [done|].
  destruct (IH _ (a12_tick_inv t c Hinv)) as [Hsub Hans]. split.
  - etrans; [exact Hsub|]. apply a12_tick_subseteq, Hinv.
  - intros k now Hle. rewrite Hans by (intros t' Ht'; apply Hle; by right).
    apply a12_tick_answer; [apply Hinv|]. apply Hle. by left.
Qed.

Lemma a12_Get_answer k now c :
  (Get k now c).2
  = match items c !! k with
    | Some e => if negb (GoTime.IsZero (expiresAt e)) && GoTime.After now (expiresAt e)
                then None else Some (value e)
    | None => None
    end.
Proof.
  unfold Get. destruct (items c !! k) as [e|]; [|done]. by destruct (_ && _).
Qed.

(** [Close] returns in every state that satisfies the two invariants: the
    goroutine takes the stop case because the channel has just been closed,
    its [Done] brings the counter from 1 to 0, and [Wait] returns. *)
Lemma a12_Close_returns sweeps c :
  inv c → sync_inv c →
  ∃ c1, Close sweeps c = Some c1 ∧ inv c1 ∧ sync_inv c1 ∧
        closeOnce c1 = true ∧ maxSize c1 = maxSize c ∧
        items c1 ⊆ items c ∧
        (sweeps = [] → items c1 = items c ∧ lst c1 = lst c) ∧
        (∀ k now, (∀ t, t ∈ sweeps → (t ≤ now)%Z) →
                  (Get k now c1).2 = (Get k now c).2).
Proof.
  intros Hinv Hsync. unfold Close. unfold sync_inv in Hsync.
  destruct (closeOnce c) eqn:Honce.
  - exists c. split; [done|]. split; [done|]. split; [by unfold sync_inv; rewrite Honce|].
    done.
  - destruct Hsync as (Hrun & Hwg & Hopen). unfold GoChan.close. rewrite Hopen.
    set (c1 := {| maxSize := maxSize c; items := items c; lst := lst c;
                  stopCh := {| GoChan.closed := true |}; wg := wg c; closeOnce := true;
                  cleanup_ := cleanup_ c |}).
    assert (inv c1) as Hinv1 by done.
    pose proof (a12_sweeps_ctl sweeps c1) as Hctl.
    pose proof (a12_sweeps_inv sweeps c1 Hinv1) as Hinv'.
    destruct (a12_sweeps_store sweeps c1 Hinv1) as [Hsub Hans].
    assert (sweeps = [] →
            foldl (λ c now, cleanup_select (CaseTick now) c) c1 sweeps = c1) as Hnil
      by (by intros ->).
    set (c' := foldl _ c1 sweeps) in *. clearbody c'.
    unfold ctl in Hctl. simpl in Hctl.
    injection Hctl as Hmax Hch Hwg' Honce' Hrun'.
    unfold cleanup_select. rewrite Hrun', Hrun, Hch. simpl. rewrite Hwg', Hwg. simpl.
    eexists. split; [reflexivity|]. split; [exact Hinv'|].
    split; [unfold sync_inv; simpl; by rewrite Honce'|].
    simpl. split; [done|]. split; [done|]. split; [done|]. split.
    + intros Hs. specialize (Hnil Hs). subst c'. done.
    + intros k now Hle. specialize (Hans k now Hle).
      rewrite !a12_Get_answer in Hans. rewrite !a12_Get_answer. exact Hans.
Qed.

Lemma a12_step_inv ev c : inv c → sync_inv c → inv (step ev c) ∧ sync_inv (step ev c).
Proof.
  intros Hinv Hsync.
  assert (∀ c', ctl c' = ctl c → sync_inv c') as Hsame.
  { intros c' Hc'. unfold ctl in Hc'. injection Hc' as _ Hch Hwg Honce Hrun.
    unfold sync_inv in *. by rewrite Honce, Hrun, Hwg, Hch. }
  unfold step. destruct ev.2; simpl.
  - split; [by apply a12_Set_inv|apply Hsame, a12_Set_ctl].
  - split; [by apply a12_Get_inv|apply Hsame, a12_Get_ctl].
  - unfold Delete. destruct (items c !! key); [|done].
    split; [by apply a12_removeElement_inv|by apply Hsame].
  - split; [|by apply Hsame]. destruct Hinv as (_ & Hpos & _).
    split; [apply store_wf_empty|]. simpl. unfold GoList.Len. simpl. lia.
  - done.
  - destruct (a12_Close_returns sweeps c Hinv Hsync) as (c1 & -> & Hinv1 & Hsync1 & _).
    done.
  - split; [by apply a12_tick_inv|apply Hsame, a12_tick_ctl].
Qed.

Lemma a12_run_inv c0 (h : list (event V)) :
  inv c0 → sync_inv c0 → inv (run c0 h) ∧ sync_inv (run c0 h).
Proof.
  intros H0 H1. induction h as [|ev h [IH1 IH2]]; simpl; [done|]. by apply a12_step_inv.
Qed.

Lemma a12_run_maxSize c0 (h : list (event V)) :
  inv c0 → sync_inv c0 → maxSize (run c0 h) = maxSize c0.
Proof.
  intros H0 H1. induction h as [|ev h IH]; simpl; [done|]. rewrite <-IH.
  destruct (a12_run_inv c0 h H0 H1) as [Hinv Hsync].
  set (c := run c0 h) in *. clearbody c.
  assert (∀ c', ctl c' = ctl c → maxSize c' = maxSize c) as Hsame.
  { intros c' Hc'. unfold ctl in Hc'. by injection Hc'. }
  unfold step. destruct ev.2; simpl.
  - apply Hsame, a12_Set_ctl.
  - apply Hsame, a12_Get_ctl.
  - unfold Delete. by destruct (items c !! key).
  - done.
  - done.
  - destruct (a12_Close_returns sweeps c Hinv Hsync) as (c1 & -> & _ & _ & _ & Hm & _).
    exact Hm.
  - apply Hsame, a12_tick_ctl.
Qed.
End Agent12Facts.

(** X15.  [New] and [Len] of src/agent12/internal/lru/lru.go.  [New] returns
    a cache only for a positive size and a cleanup interval that is not
    negative (with a negative one the cleanup goroutine panics in
    [time.NewTicker]).  In every state reached from such a cache, [Len]
    returns the number of stored entries whose expiry is unset or after the
    reading, which is at most the number of stored entries and at most
    [maxSize]; when no stored entry has an expiry at or before the reading
    it is the number of stored entries. *)
Theorem x15_a12_len_counts_live :
  ∀ (V : Type) (maxSize : Z) (cleanupInterval : Duration) (c0 : Agent12.Cache V)
    (h : list (Agent12.event V)) (now : Time),
    Agent12.New maxSize cleanupInterval = Some c0 →
    (0 < maxSize)%Z ∧ (0 ≤ cleanupInterval)%Z ∧
    Agent12.Len now (Agent12.run c0 h)
      = Z.of_nat (size (Agent12.live now (Agent12.run c0 h))) ∧
    (Agent12.Len now (Agent12.run c0 h)
       ≤ Z.of_nat (size (Agent12.items (Agent12.run c0 h))))%Z ∧
    (Z.of_nat (size (Agent12.items (Agent12.run c0 h))) ≤ maxSize)%Z ∧
    ((∀ k ent, Agent12.items (Agent12.run c0 h) !! k = Some ent →
               Agent12.expiresAt ent = 0%Z ∨ (now < Agent12.expiresAt ent)%Z) →
     Agent12.Len now (Agent12.run c0 h)
       = Z.of_nat (size (Agent12.items (Agent12.run c0 h)))).
Proof.
  intros V maxSize cleanupInterval c0 h now Hnew.
  destruct (a12_New_inv _ _ _ Hnew) as [Hinv0 Hsync0].
  destruct (a12_run_inv c0 h Hinv0 Hsync0) as [(Hwf & _ & Hle) _].
  destruct (a12_New_Some _ _ _ Hnew) as (Hpos & Hint & Hc0).
  assert (Agent12.maxSize (Agent12.run c0 h) = maxSize) as Hmax.
  { rewrite a12_run_maxSize by done. by rewrite Hc0. }
  split; [done|]. split; [done|].
  set (c := Agent12.run c0 h) in *. clearbody c.
  assert (Agent12.Len now c = Z.of_nat (size (Agent12.live now c))) as HLen.
  { unfold Agent12.Len, Agent12.live.
    rewrite (store_wf_size _ _
               (store_wf_filter
                  (λ e, GoTime.IsZero (Agent12.expiresAt e)
                        || GoTime.Before now (Agent12.expiresAt e)) _ _ Hwf)).
    rewrite <-(Z.add_0_l (Z.of_nat _)), <-count_foldl.
    apply foldl_pointwise. intros n x.
    destruct (Agent12.items c !! x) as [e|]; [|done]. done. }
  split; [done|]. rewrite HLen. split; [|split].
  - apply inj_le. apply map_size_filter.
  - rewrite (store_wf_size _ _ Hwf). unfold GoList.Len in Hle. lia.
  - intros Hall. f_equal. f_equal. unfold Agent12.live. apply map_filter_id.
    intros k ent Hk. simpl. unfold GoTime.IsZero, GoTime.Before.
    destruct (Hall k ent Hk) as [->|Hlt]; [done|].
    apply orb_true_iff. right. by apply Z.ltb_lt.
Qed.

Lemma x15_a12_len_counts_live_witness :
  let c := Agent12.run (V:=nat)
      {| Agent12.maxSize := 2; Agent12.items := ∅; Agent12.lst := [];
         Agent12.stopCh := GoChan.make; Agent12.wg := 1; Agent12.closeOnce := false;
         Agent12.cleanup_ := Agent12.Running |}
      [(1%Z, Agent12.CallSet "b" 2 0%Z); (0%Z, Agent12.CallSet "a" 1 3%Z)] in
  Agent12.Len 5 c = Z.of_nat (size (Agent12.live 5 c)).
Proof.
  intros c.
  destruct (x15_a12_len_counts_live nat 2 0 _
              [(1%Z, Agent12.CallSet "b" 2 0%Z); (0%Z, Agent12.CallSet "a" 1 3%Z)] 5
              eq_refl) as (_ & _ & HLen & _).
  exact HLen.
Defined.

(** X16.  [Close] of src/agent12/internal/lru/lru.go, in every state reached
    from [New] by any calls (earlier [Close] calls included) and sweeps, and
    whatever sweeps the cleanup goroutine still runs while [Close] waits for
    it.  [Close] returns: it neither panics nor blocks, because the
    goroutine takes the stop case of its [select] once the channel is
    closed and its [Done] brings the counter to 0.  When it returns the
    goroutine has returned, so a timer tick no longer sweeps, and a further
    [Close] changes nothing.  The size limit is kept, no entry is added,
    without sweeps during the wait map and list are untouched, and [Get]
    answers as before the [Close] at every reading that is not before those
    sweeps. *)
Theorem x16_a12_close_any_state :
  ∀ (V : Type) (maxSize : Z) (cleanupInterval : Duration) (c0 : Agent12.Cache V)
    (h : list (Agent12.event V)) (sweeps : list Time),
    Agent12.New maxSize cleanupInterval = Some c0 →
    ∃ c1, Agent12.Close sweeps (Agent12.run c0 h) = Some c1 ∧
          Agent12.cleanup_ c1 = Agent12.Returned ∧
          Agent12.wg c1 = 0%Z ∧
          GoChan.closed (Agent12.stopCh c1) = true ∧
          (∀ sweeps', Agent12.Close sweeps' c1 = Some c1) ∧
          (∀ t, Agent12.step (t, Agent12.Tick) c1 = c1) ∧
          Agent12.maxSize c1 = maxSize ∧
          Agent12.items c1 ⊆ Agent12.items (Agent12.run c0 h) ∧
          (sweeps = [] →
           Agent12.items c1 = Agent12.items (Agent12.run c0 h) ∧
           Agent12.lst c1 = Agent12.lst (Agent12.run c0 h)) ∧
          (∀ k now, (∀ t, t ∈ sweeps → (t ≤ now)%Z) →
                    (Agent12.Get k now c1).2 = (Agent12.Get k now (Agent12.run c0 h)).2).
Proof.
  intros V maxSize cleanupInterval c0 h sweeps Hnew.
  destruct (a12_New_inv _ _ _ Hnew) as [Hinv0 Hsync0].
  destruct (a12_run_inv c0 h Hinv0 Hsync0) as [Hinv Hsync].
  destruct (a12_New_Some _ _ _ Hnew) as (_ & _ & Hc0).
  assert (Agent12.maxSize (Agent12.run c0 h) = maxSize) as Hmax.
  { rewrite a12_run_maxSize by done. by rewrite Hc0. }
  set (c := Agent12.run c0 h) in *. clearbody c.
  destruct (a12_Close_returns sweeps c Hinv Hsync)
    as (c1 & Hclose & Hinv1 & Hsync1 & Honce1 & Hmax1 & Hsub & Hnil & Hans).
  exists c1. split; [done|].
  unfold Agent12.sync_inv in Hsync1. rewrite Honce1 in Hsync1.
  destruct Hsync1 as (Hret & Hwg & Hcl).
  split; [done|]. split; [done|]. split; [done|]. split.
  { intros sweeps'. unfold Agent12.Close. by rewrite Honce1. }
  split.
  { intros t. unfold Agent12.step, Agent12.cleanup_select. simpl. by rewrite Hret. }
  split; [by rewrite Hmax1|]. done.
Qed.

Lemma x16_a12_close_any_state_witness :
  ∃ c1, Agent12.Close [3%Z] (Agent12.run (V:=nat)
      {| Agent12.maxSize := 2; Agent12.items := ∅; Agent12.lst := [];
         Agent12.stopCh := GoChan.make; Agent12.wg := 1; Agent12.closeOnce := false;
         Agent12.cleanup_ := Agent12.Running |}
      [(2%Z, Agent12.CallClose []); (0%Z, Agent12.CallSet "a" 1 3%Z)]) = Some c1 ∧
        Agent12.cleanup_ c1 = Agent12.Returned ∧
        Agent12.wg c1 = 0%Z.
Proof.
  destruct (x16_a12_close_any_state nat 2 0 _
              [(2%Z, Agent12.CallClose []); (0%Z, Agent12.CallSet "a" 1 3%Z)] [3%Z]
              eq_refl)
    as (c1 & H1 & H2 & H3 & _).
  exists c1. split; [exact H1|]. split; [exact H2|exact H3].
Defined.

(** ** src/agent11/lru/cache.go, first package lru: [Cache] *)

Section Agent11More.
Context `{Countable K} {V : Type}.
Import Agent11.
Implicit Types (c : Cache K V) (k : K).

Lemma a11_purge_items now c :
  store_wf (items c) (evictionList c) →
  items (purgeExpiredLocked now c).1
    = filter (λ kv, isExpired kv.2 now = false) (items c).
Proof.
  intros Hwf. rewrite a11_purge_sweep.
  apply (sweep_all_items (λ st : Cache K V * Z, items st.1) (λ st, evictionList st.1)
           (λ k st, (removeElementLocked k st.1, (st.2 + 1)%Z))
           (λ e, isExpired e now)); done.
Qed.

(** The number returned by the sweep is the number of elements the list has
    lost. *)
Lemma a11_purge_count now c :
  store_wf (items c) (evictionList c) →
  ((purgeExpiredLocked now c).2
   = Z.of_nat (length (evictionList c))
     - Z.of_nat (length (evictionList (purgeExpiredLocked now c).1)))%Z.
Proof.
  intros Hwf. unfold purgeExpiredLocked.
  set (l0 := evictionList c) at 2.
  assert (let st := foldl (λ st element,
                             match items st.1 !! element with
                             | Some ent =>
                                 if negb (isExpired ent now) then st
                                 else (removeElementLocked element st.1, (st.2 + 1)%Z)
                             | None => st
                             end) (c, 0%Z) (reverse (evictionList c)) in
          store_wf (items st.1) (evictionList st.1) ∧
          (st.2 + Z.of_nat (length (evictionList st.1)) = Z.of_nat (length l0))%Z) as Hst.
  { apply (foldl_preserves
             (λ st : Cache K V * Z,
                store_wf (items st.1) (evictionList st.1) ∧
                (st.2 + Z.of_nat (length (evictionList st.1)) = Z.of_nat (length l0))%Z)).
    - intros st k [Hwf' Hn]. destruct (items st.1 !! k) as [e|] eqn:Hk; [|done].
      destruct (negb (isExpired e now)); [done|]. simpl.
      split; [by apply store_wf_remove|].
      assert (S (length (GoList.Remove k (evictionList st.1)))
              = length (evictionList st.1)) as Hlen.
      { apply Remove_length; [apply Hwf'|]. apply Hwf'. eauto. }
      lia.
    - simpl. split; [done|]. unfold l0. lia. }
  simpl in Hst. destruct Hst as [_ Hst]. unfold l0 in *. lia.
Qed.

(** A sweep that finds nothing expired changes nothing. *)
Lemma a11_purge_none now c :
  (∀ k e, items c !! k = Some e → isExpired e now = false) →
  purgeExpiredLocked now c = (c, 0%Z).
Proof.
  intros Hlive. unfold purgeExpiredLocked.
  apply (foldl_preserves (λ st : Cache K V * Z, st = (c, 0%Z))); [|done].
  intros st k ->. simpl. destruct (items c !! k) as [e|] eqn:Hk; [|done].
  by rewrite (Hlive k e Hk).
Qed.

Lemma a11_evict_loop_skip n c :
  (GoList.Len (evictionList c) < capacity c)%Z → evict_loop n c = Some c.
Proof.
  intros Hlt. destruct n; simpl.
  - destruct (Z.geb_spec (GoList.Len (evictionList c)) (capacity c)); [lia|done].
  - destruct (Z.geb_spec (GoList.Len (evictionList c)) (capacity c)); [lia|done].
Qed.

Lemma a11_evict_loop_subseteq n c c' :
  evict_loop n c = Some c' → items c' ⊆ items c.
Proof.
  revert c. induction n as [|n IH]; intros c; simpl.
  - destruct (_ >=? _)%Z; [done|]. by intros [= <-].
  - destruct (_ >=? _)%Z; [|by intros [= <-]].
    intros Hc'. apply IH in Hc'. etrans; [exact Hc'|].
    unfold removeOldestLocked. destruct (GoList.Back _); [|done].
    simpl. apply delete_subseteq.
Qed.

Lemma a11_step_defaultTTL ev c : inv c → defaultTTL (step ev c) = defaultTTL c.
Proof.
  intros Hinv.
  assert (∀ now, defaultTTL (purgeExpiredLocked now c).1 = defaultTTL c) as Hpurge.
  { intros now. unfold purgeExpiredLocked.
    apply (foldl_preserves (λ st : Cache K V * Z, defaultTTL st.1 = defaultTTL c));
      [|done].
    intros st k <-. destruct (items st.1 !! k) as [e|]; [|done].
    by destruct (negb (isExpired e now)). }
  assert (∀ n c1 c2, evict_loop n c1 = Some c2 → defaultTTL c2 = defaultTTL c1) as Hev.
  { induction n as [|n IH]; intros c1 c2; simpl.
    - destruct (_ >=? _)%Z; [done|]. by intros [= <-].
    - destruct (_ >=? _)%Z; [|by intros [= <-]].
      intros Hc2. apply IH in Hc2. rewrite Hc2.
      unfold removeOldestLocked. by destruct (GoList.Back _). }
  assert (∀ k v ttl now, defaultTTL (default c (SetWithTTL k v ttl now c))
                         = defaultTTL c) as Hset.
  { intros k v ttl now. unfold SetWithTTL.
    destruct (items _ !! k); simpl; [apply Hpurge|].
    destruct (evict_loop _ _) as [c2|] eqn:Hc2; simpl; [|done].
    apply Hev in Hc2. rewrite Hc2. apply Hpurge. }
  unfold step. destruct ev.2; simpl.
  - apply Hset.
  - apply Hset.
  - unfold Get. destruct (items c !! key) as [e|]; [|done]. by destruct (isExpired e _).
  - unfold Peek. destruct (items c !! key) as [e|]; [|done]. by destruct (isExpired e _).
  - unfold Delete. by destruct (items c !! key).
  - apply Hpurge.
  - apply Hpurge.
  - unfold Close. destruct (stopOnce c); [done|].
    destruct (stopCh c) as [ch|]; simpl; [|done]. by destruct (GoChan.close ch).
Qed.

Lemma a11_run_defaultTTL c0 h : inv c0 → defaultTTL (run c0 h) = defaultTTL c0.
Proof.
  intros H0. induction h as [|ev h IH]; simpl; [done|].
  rewrite a11_step_defaultTTL; [done|]. by apply a11_run_inv.
Qed.

Lemma a11_SetWithTTL_lookup k v ttl now c c' :
  SetWithTTL k v ttl now c = Some c' →
  items c' !! k = Some {| value := v; expires := expiryTime ttl now |}.
Proof.
  unfold SetWithTTL. destruct (items _ !! k).
  - intros [= <-]. simpl. apply lookup_insert_eq.
  - destruct (evict_loop _ _) as [c2|]; simpl; [|done].
    intros [= <-]. simpl. apply lookup_insert_eq.
Qed.
End Agent11More.

(** X17.  [Cleanup] of the [Cache] of src/agent11/lru/cache.go, in every
    state reached from [New]: afterwards exactly the entries that are not
    expired at the reading are stored, the list keeps them in their order,
    the returned number is the number of entries removed, and a second
    [Cleanup] at the same reading removes nothing and returns 0. *)
Theorem x17_a11_cleanup_count :
  ∀ (K : Type) (EqK : EqDecision K) (CntK : Countable K) (V : Type)
    (capacity : Z) (opts : list Agent11.Option) (c0 : Agent11.Cache K V)
    (h : list (Agent11.event K V)) (now : Time),
    Agent11.New capacity opts = Some c0 →
    let c := Agent11.run c0 h in
    let c' := (Agent11.Cleanup now c).1 in
    Agent11.items c'
      = filter (λ kv, Agent11.isExpired kv.2 now = false) (Agent11.items c) ∧
    Agent11.evictionList c'
      = filter (λ k, is_Some (Agent11.items c' !! k)) (Agent11.evictionList c) ∧
    (Agent11.Cleanup now c).2
      = (Z.of_nat (size (Agent11.items c)) - Z.of_nat (size (Agent11.items c')))%Z ∧
    (0 ≤ (Agent11.Cleanup now c).2)%Z ∧
    Agent11.Cleanup now c' = (c', 0%Z).
Proof.
  intros K EqK CntK V capacity opts c0 h now Hnew c c'.
  destruct (a11_New_inv _ _ _ Hnew) as [Hinv0 _].
  pose proof (a11_run_inv c0 h Hinv0) as (Hwf & _).
  fold c in Hwf. clearbody c.
  pose proof (a11_purge_items now c Hwf) as Hitems.
  pose proof (a11_purge_wf now c Hwf) as Hwf'.
  pose proof (a11_purge_count now c Hwf) as Hcount.
  pose proof (a11_purge_length now c) as Hlen.
  unfold Agent11.Cleanup in *. fold c' in Hitems, Hwf', Hcount, Hlen.
  split; [done|]. split.
  - unfold c'. rewrite a11_purge_sweep.
    apply (sweep_order (λ st : Agent11.Cache K V * Z, Agent11.items st.1)
             (λ st, Agent11.evictionList st.1)
             (λ k st, (Agent11.removeElementLocked k st.1, (st.2 + 1)%Z))
             (λ e, Agent11.isExpired e now) (λ _ _, eq_refl) (λ _ _, eq_refl)
             (reverse (Agent11.evictionList c)) (c, 0%Z) Hwf).
  - rewrite (store_wf_size _ _ Hwf), (store_wf_size _ _ Hwf').
    split; [done|]. split; [lia|].
    apply a11_purge_none. intros k e. rewrite Hitems.
    intros [_ He]%map_lookup_filter_Some. done.
Qed.

Lemma x17_a11_cleanup_count_witness :
  let c := Agent11.run (K:=string) (V:=nat)
             {| Agent11.capacity := 2; Agent11.defaultTTL := 0; Agent11.items := ∅;
                Agent11.evictionList := []; Agent11.cleanupInterval := 0;
                Agent11.stopCh := None; Agent11.stopOnce := false |}
             [(1%Z, Agent11.CallSetWithTTL "b" 2 0%Z);
              (0%Z, Agent11.CallSetWithTTL "a" 1 3%Z)] in
  (Agent11.Cleanup 5 c).2
    = (Z.of_nat (size (Agent11.items c))
       - Z.of_nat (size (Agent11.items (Agent11.Cleanup 5 c).1)))%Z.
Proof.
  intros c.
  apply (x17_a11_cleanup_count string _ _ nat 2 [] _
           [(1%Z, Agent11.CallSetWithTTL "b" 2 0%Z);
            (0%Z, Agent11.CallSetWithTTL "a" 1 3%Z)] 5 eq_refl).
Defined.

(** X18.  [WithTTL], [New], [Set] and [Get] of the [Cache] of
    src/agent11/lru/cache.go: when [WithTTL ttl] is the last option, the
    default TTL is [ttl], or 0 when [ttl] is negative, in every state reached
    from [New]; [Set] returns, and with [ttl <= 0] the entry it stores is
    found by [Get] at every reading, while with [ttl > 0] it is found up to
    and including the reading [now + ttl] and reported absent after it. *)
Theorem x18_a11_default_ttl :
  ∀ (K : Type) (EqK : EqDecision K) (CntK : Countable K) (V : Type)
    (capacity : Z) (opts : list Agent11.Option) (ttl : Duration)
    (c0 : Agent11.Cache K V) (h : list (Agent11.event K V))
    (k : K) (v : V) (now : Time),
    Agent11.New capacity (opts ++ [Agent11.WithTTL ttl]) = Some c0 →
    Agent11.defaultTTL (Agent11.run c0 h) = Z.max ttl 0 ∧
    ∃ c1, Agent11.Set_ k v now (Agent11.run c0 h) = Some c1 ∧
          ((ttl ≤ 0)%Z → ∀ now', (Agent11.Get k now' c1).2 = Some v) ∧
          ((0 < ttl)%Z → (now + ttl)%Z ≠ 0%Z →
           ∀ now', ((now' ≤ now + ttl)%Z → (Agent11.Get k now' c1).2 = Some v) ∧
                   ((now + ttl < now')%Z → (Agent11.Get k now' c1).2 = None)).
Proof.
  intros K EqK CntK V capacity opts ttl c0 h k v now Hnew.
  destruct (a11_New_inv _ _ _ Hnew) as [Hinv0 _].
  assert (Agent11.defaultTTL c0 = Z.max ttl 0) as Hd0.
  { unfold Agent11.New in Hnew. destruct (capacity <=? 0)%Z; [done|].
    injection Hnew as <-. simpl. rewrite foldl_app. simpl.
    destruct (Z.ltb_spec ttl 0); lia. }
  pose proof (a11_run_defaultTTL c0 h Hinv0) as Hd. rewrite Hd0 in Hd.
  pose proof (a11_run_inv c0 h Hinv0) as Hinv.
  set (c := Agent11.run c0 h) in *. clearbody c.
  split; [done|]. unfold Agent11.Set_. rewrite Hd.
  destruct (a11_SetWithTTL_inv k v (Z.max ttl 0) now c Hinv) as (c1 & Hc1 & _ & _).
  exists c1. split; [done|].
  apply a11_SetWithTTL_lookup in Hc1. unfold Agent11.Get. rewrite Hc1.
  unfold Agent11.isExpired, Agent11.expiryTime, GoTime.IsZero, GoTime.After,
    GoTime.Add, GoTime.zero. simpl.
  split.
  - intros Hle now'. rewrite Z.max_r by done. done.
  - intros Hpos Hnz now'. rewrite Z.max_l by lia.
    destruct (Z.leb_spec ttl 0); [lia|]. simpl.
    destruct (Z.eqb_spec (now + ttl) 0); [done|].
    split; intros Hn'.
    + destruct (Z.ltb_spec (now + ttl) now'); [lia|done].
    + destruct (Z.ltb_spec (now + ttl) now'); [done|lia].
Qed.

Lemma x18_a11_default_ttl_witness :
  Agent11.defaultTTL
    (Agent11.run (K:=string) (V:=nat)
       {| Agent11.capacity := 2; Agent11.defaultTTL := 0; Agent11.items := ∅;
          Agent11.evictionList := []; Agent11.cleanupInterval := 0;
          Agent11.stopCh := None; Agent11.stopOnce := false |}
       [(0%Z, Agent11.CallSet "a" 1)]) = Z.max (-5) 0.
Proof.
  apply (x18_a11_default_ttl string _ _ nat 2 [] (-5) _
           [(0%Z, Agent11.CallSet "a" 1)] "a" 1 1 eq_refl).
Defined.

(** X19.  [SetWithTTL] of the [Cache] of src/agent11/lru/cache.go, in every
    state reached from [New]: the call returns; it first drops every entry
    expired at the reading, so no such entry is stored afterwards; and when
    the entries that are not expired, the key itself apart, are fewer than
    the capacity, none of them is evicted: the map is then exactly those
    entries with the new entry for the key. *)
Theorem x19_a11_set_purges_before_evicting :
  ∀ (K : Type) (EqK : EqDecision K) (CntK : Countable K) (V : Type)
    (capacity : Z) (opts : list Agent11.Option) (c0 : Agent11.Cache K V)
    (h : list (Agent11.event K V)) (k : K) (v : V) (ttl : Duration) (now : Time),
    Agent11.New capacity opts = Some c0 →
    let c := Agent11.run c0 h in
    let live := filter (λ kv, Agent11.isExpired kv.2 now = false) (Agent11.items c) in
    let ent := {| Agent11.value := v; Agent11.expires := Agent11.expiryTime ttl now |} in
    ∃ c', Agent11.SetWithTTL k v ttl now c = Some c' ∧
          Agent11.items c' !! k = Some ent ∧
          Agent11.items c' ⊆ <[k := ent]> live ∧
          (∀ k' e, Agent11.items c' !! k' = Some e → Agent11.isExpired e now = false) ∧
          ((Z.of_nat (size (delete k live)) < capacity)%Z →
           Agent11.items c' = <[k := ent]> live).
Proof.
  intros K EqK CntK V capacity opts c0 h k v ttl now Hnew c live ent.
  destruct (a11_New_inv _ _ _ Hnew) as [Hinv0 Hcap0].
  pose proof (a11_run_inv c0 h Hinv0) as Hinv.
  pose proof (a11_run_capacity c0 h Hinv0) as Hcap. rewrite Hcap0 in Hcap.
  fold c in Hinv, Hcap. clearbody c.
  pose proof (a11_purge_items now c (proj1 Hinv)) as Hitems. fold live in Hitems.
  pose proof (a11_purge_capacity now c) as Hcap1. rewrite Hcap in Hcap1.
  apply (a11_purge_inv now) in Hinv as (Hwf1 & Hpos1 & Hle1).
  assert (Agent11.isExpired ent now = false) as Hent.
  { unfold ent, Agent11.isExpired, Agent11.expiryTime, GoTime.IsZero, GoTime.After,
      GoTime.Add, GoTime.zero. simpl.
    destruct (Z.leb_spec ttl 0); [done|].
    destruct (Z.eqb_spec (now + ttl) 0); [done|].
    destruct (Z.ltb_spec (now + ttl) now); [lia|done]. }
  assert (∀ m : gmap K (Agent11.entry V), m ⊆ <[k := ent]> live →
          ∀ k' e, m !! k' = Some e → Agent11.isExpired e now = false) as Hlive.
  { intros m Hsub k' e Hk'. eapply lookup_weaken in Hk'; [|exact Hsub].
    destruct (decide (k' = k)) as [->|Hne].
    - rewrite lookup_insert_eq in Hk'. by injection Hk' as <-.
    - rewrite lookup_insert_ne in Hk' by done.
      unfold live in Hk'. by apply map_lookup_filter_Some in Hk' as [_ He]. }
  unfold Agent11.SetWithTTL.
  set (c1 := (Agent11.purgeExpiredLocked now c).1) in *. clearbody c1.
  fold ent. destruct (Agent11.items c1 !! k) as [e|] eqn:Hk.
  - eexists. split; [reflexivity|]. simpl. rewrite Hitems.
    split; [apply lookup_insert_eq|]. split; [done|]. split; [|done].
    by apply Hlive.
  - destruct (a11_evict_loop_returns (length (Agent11.evictionList c1)) c1 Hwf1 Hpos1
                ltac:(done)) as (c2 & Hc2 & Hwf2 & Hcap2 & Hlt2 & Hnone2).
    rewrite Hc2. simpl. eexists. split; [reflexivity|]. simpl.
    pose proof (a11_evict_loop_subseteq _ _ _ Hc2) as Hsub. rewrite Hitems in Hsub.
    split; [apply lookup_insert_eq|].
    assert (<[k := ent]> (Agent11.items c2) ⊆ <[k := ent]> live) as Hsub'
      by by apply insert_mono.
    split; [done|]. split; [by apply Hlive|].
    intros Hroom.
    rewrite delete_id in Hroom by (by rewrite <-Hitems).
    rewrite <-Hitems, (store_wf_size _ _ Hwf1) in Hroom.
    rewrite a11_evict_loop_skip in Hc2 by (unfold GoList.Len; lia).
    injection Hc2 as <-. by rewrite Hitems.
Qed.

Lemma x19_a11_set_purges_before_evicting_witness :
  let c := Agent11.run (K:=string) (V:=nat)
             {| Agent11.capacity := 2; Agent11.defaultTTL := 0; Agent11.items := ∅;
                Agent11.evictionList := []; Agent11.cleanupInterval := 0;
                Agent11.stopCh := None; Agent11.stopOnce := false |}
             [(1%Z, Agent11.CallSetWithTTL "b" 2 0%Z);
              (0%Z, Agent11.CallSetWithTTL "a" 1 3%Z)] in
  let live := filter (λ kv, Agent11.isExpired kv.2 5 = false) (Agent11.items c) in
  let ent := {| Agent11.value := 3; Agent11.expires := Agent11.expiryTime 0 5 |} in
  ∃ c', Agent11.SetWithTTL "c" 3 0 5 c = Some c' ∧
        Agent11.items c' = <[ "c" := ent]> live.
Proof.
  intros c live ent.
  destruct (x19_a11_set_purges_before_evicting string _ _ nat 2 [] _
              [(1%Z, Agent11.CallSetWithTTL "b" 2 0%Z);
               (0%Z, Agent11.CallSetWithTTL "a" 1 3%Z)] "c" 3 0 5 eq_refl)
    as (c' & Hset & _ & _ & _ & Hroom).
  exists c'. split; [exact Hset|]. apply Hroom. vm_compute. reflexivity.
Defined.

(** ** src/agent11/lru/cache.go, second package lru: [LRU] *)

Section Agent11LRUFacts.
Context {V : Type}.
Import Agent11LRU.
Implicit Types (lru : LRU V).

Lemma l11_remove_wf e lru :
  store_wf (items lru) (lst lru) →
  store_wf (items (remove e lru)) (lst (remove e lru)).
Proof. intros Hwf. simpl. by apply store_wf_remove. Qed.

Lemma l11_Put_wf k v ttl now lru :
  store_wf (items lru) (lst lru) →
  store_wf (items (Put k v ttl now lru)) (lst (Put k v ttl now lru)).
Proof.
  intros Hwf. unfold Put. destruct (items lru !! k) as [e|] eqn:Hk; simpl.
  - apply store_wf_update; [by eauto|]. by apply store_wf_move.
  - assert (store_wf (<[k := {| value := v; expire := GoTime.Add now ttl |}]> (items lru))
              (GoList.PushFront k (lst lru))) as Hwf1 by by apply store_wf_push.
    destruct (_ >? _)%Z; [|done].
    destruct (GoList.Back _); [|done]. simpl. by apply store_wf_remove.
Qed.

Lemma l11_Get_wf k now lru :
  store_wf (items lru) (lst lru) →
  store_wf (items (Get k now lru).1) (lst (Get k now lru).1).
Proof.
  intros Hwf. unfold Get. destruct (items lru !! k) as [e|]; [|done].
  destruct (GoTime.After _ _); simpl; [by apply store_wf_remove|by apply store_wf_move].
Qed.

Lemma l11_cleanup_loop_wf now elems lru :
  store_wf (items lru) (lst lru) →
  store_wf (items (cleanup_loop now elems lru)) (lst (cleanup_loop now elems lru)).
Proof.
  revert lru. induction elems as [|e prev IH]; intros lru Hwf; simpl; [done|].
  destruct (items lru !! e) as [ent|]; [|done].
  destruct (GoTime.After _ _); [|done]. apply IH. by apply l11_remove_wf.
Qed.

Lemma l11_run_wf capacity (h : list (event V)) :
  store_wf (items (run (New capacity) h)) (lst (run (New capacity) h)).
Proof.
  induction h as [|ev h IH]; simpl; [apply store_wf_empty|].
  unfold step. destruct ev.2.
  - by apply l11_Put_wf.
  - by apply l11_Get_wf.
  - by apply l11_cleanup_loop_wf.
Qed.

(** The loop of [cleanup] removes the longest run of expired elements at the
    back of the list. *)
Lemma l11_cleanup_loop_suffix now elems lru :
  store_wf (items lru) (lst lru) → elems = reverse (lst lru) →
  ∃ removed,
    lst lru = lst (cleanup_loop now elems lru) ++ removed ∧
    (∀ k, k ∈ removed →
          ∃ e, items lru !! k = Some e ∧ GoTime.After now (expire e) = true) ∧
    (∀ k, items (cleanup_loop now elems lru) !! k
          = if bool_decide (k ∈ removed) then None else items lru !! k) ∧
    (∀ k e, GoList.Back (lst (cleanup_loop now elems lru)) = Some k →
            items (cleanup_loop now elems lru) !! k = Some e →
            GoTime.After now (expire e) = false).
Proof.
  revert lru. induction elems as [|x prev IH]; intros lru Hwf Hel.
  - exists []. simpl. rewrite app_nil_r. split; [done|].
    split; [by intros k Hk%elem_of_nil|]. split; [done|].
    intros k e Hback. apply (f_equal reverse) in Hel. rewrite reverse_involutive in Hel.
    rewrite <-Hel in Hback. done.
  - assert (lst lru = reverse prev ++ [x]) as Hl.
    { apply (f_equal reverse) in Hel. rewrite reverse_involutive in Hel.
      by rewrite <-Hel, reverse_cons. }
    simpl. destruct (items lru !! x) as [ent|] eqn:Hx.
    + destruct (GoTime.After now (expire ent)) eqn:Hexp.
      * assert (x ∉ reverse prev) as Hnotin.
        { destruct Hwf as [Hnd _]. rewrite Hl in Hnd.
          apply NoDup_app in Hnd as (_ & Hdis & _). intros Hin.
          apply (Hdis x Hin). by left. }
        assert (lst (remove x lru) = reverse prev) as Hl1.
        { simpl. rewrite Hl. by apply Remove_back. }
        destruct (IH (remove x lru) (l11_remove_wf x lru Hwf)) as
          (removed & Hlst & Hdead & Hitems & Hback).
        { by rewrite Hl1, reverse_involutive. }
        exists (removed ++ [x]). split; [|split; [|split]].
        -- rewrite Hl, <-Hl1, Hlst. by rewrite app_assoc.
        -- intros k [Hk|Hk%list_elem_of_singleton]%elem_of_app.
           ++ destruct (Hdead k Hk) as (e & He & Hd). exists e. split; [|done].
              simpl in He. destruct (decide (k = x)) as [->|Hne].
              ** by rewrite lookup_delete_eq in He.
              ** by rewrite lookup_delete_ne in He.
           ++ subst k. eauto.
        -- intros k. rewrite Hitems. simpl.
           destruct (decide (k ∈ removed)) as [Hin|Hin].
           ++ rewrite !bool_decide_eq_true_2; [done| |done].
              apply elem_of_app. by left.
           ++ rewrite (bool_decide_eq_false_2 _ Hin).
              destruct (decide (k = x)) as [->|Hne].
              ** rewrite lookup_delete_eq, bool_decide_eq_true_2; [done|].
                 apply elem_of_app. right. by left.
              ** rewrite lookup_delete_ne by done.
                 rewrite bool_decide_eq_false_2; [done|].
                 rewrite elem_of_app, list_elem_of_singleton. tauto.
        -- done.
      * exists []. rewrite app_nil_r. split; [done|].
        split; [by intros k Hk%elem_of_nil|]. split; [done|].
        intros k e. rewrite Hl, Back_snoc. intros [= <-]. rewrite Hx.
        by intros [= <-].
    + exists []. rewrite app_nil_r. split; [done|].
      split; [by intros k Hk%elem_of_nil|]. split; [done|].
      intros k e. rewrite Hl, Back_snoc. intros [= <-]. by rewrite Hx.
Qed.

Lemma l11_Put_empty capacity k v ttl now :
  (capacity ≤ 0)%Z → Put k v ttl now (New capacity) = New (V:=V) capacity.
Proof.
  intros Hcap. unfold Put, New. simpl.
  rewrite lookup_empty. unfold GoList.Len, GoList.PushFront, GoList.Back. simpl.
  destruct (Z.gtb_spec (Z.of_nat 1) capacity); [|lia].
  unfold remove. simpl. rewrite delete_insert_eq, delete_empty.
  by rewrite Remove_head by apply not_elem_of_nil.
Qed.
End Agent11LRUFacts.

(** X20.  [New] and [Put] of the [LRU] of src/agent11/lru/cache.go: [New]
    accepts every capacity, and with a capacity of zero or less the cache
    never holds an entry: after any calls and sweeps map and list are empty,
    a [Put] stores nothing and every [Get] reports not-found. *)
Theorem x20_l11_capacity_zero_stores_nothing :
  ∀ (V : Type) (capacity : Z) (h : list (Agent11LRU.event V)),
    (capacity ≤ 0)%Z →
    Agent11LRU.items (Agent11LRU.run (Agent11LRU.New capacity) h) = ∅ ∧
    Agent11LRU.lst (Agent11LRU.run (Agent11LRU.New capacity) h) = [] ∧
    (∀ k v ttl now now',
       (Agent11LRU.Get k now'
          (Agent11LRU.Put k v ttl now
             (Agent11LRU.run (Agent11LRU.New capacity) h))).2 = None).
Proof.
  intros V capacity h Hcap.
  assert (Agent11LRU.run (V:=V) (Agent11LRU.New capacity) h = Agent11LRU.New capacity)
    as Hrun.
  { induction h as [|ev h IH]; simpl; [done|]. rewrite IH.
    unfold Agent11LRU.step. destruct ev.2; simpl.
    - by apply l11_Put_empty.
    - done.
    - done. }
  rewrite Hrun. split; [done|]. split; [done|].
  intros k v ttl now now'. by rewrite l11_Put_empty.
Qed.

Lemma x20_l11_capacity_zero_stores_nothing_witness :
  Agent11LRU.items
    (Agent11LRU.run (V:=nat) (Agent11LRU.New 0)
       [(1%Z, Agent11LRU.CallPut "a" 1 60%Z)]) = ∅.
Proof.
  apply (x20_l11_capacity_zero_stores_nothing nat 0
           [(1%Z, Agent11LRU.CallPut "a" 1 60%Z)]). lia.
Defined.

(** X21.  One tick of [cleanup] of the [LRU] of src/agent11/lru/cache.go, in
    every state reached from [New]: the elements removed are a run at the
    back of the list, each of them expired at the reading; the rest of the
    list and their entries are untouched; and the sweep stops at the first
    element from the back that is not expired, which is then the back of the
    list. *)
Theorem x21_l11_cleanup_removes_expired_suffix :
  ∀ (V : Type) (capacity : Z) (h : list (Agent11LRU.event V)) (now : Time),
    let lru := Agent11LRU.run (Agent11LRU.New capacity) h in
    let lru' := Agent11LRU.cleanup_tick now lru in
    ∃ removed,
      Agent11LRU.lst lru = Agent11LRU.lst lru' ++ removed ∧
      (∀ k, k ∈ removed →
            ∃ e, Agent11LRU.items lru !! k = Some e ∧
                 GoTime.After now (Agent11LRU.expire e) = true) ∧
      (∀ k, Agent11LRU.items lru' !! k
            = if bool_decide (k ∈ removed) then None else Agent11LRU.items lru !! k) ∧
      (∀ k e, GoList.Back (Agent11LRU.lst lru') = Some k →
              Agent11LRU.items lru' !! k = Some e →
              GoTime.After now (Agent11LRU.expire e) = false).
Proof.
  intros V capacity h now lru lru'.
  apply l11_cleanup_loop_suffix; [apply l11_run_wf|done].
Qed.

(** ** src/agent3/lrucache/lrucache.go *)

Section Agent3More.
Context `{Countable K} {V : Type}.
Import Agent3.
Implicit Types (c : Cache K V) (k : K).

Lemma a3_Add_unbounded k v ttl now c :
  maxEntries c = 0%Z →
  cache (Add k v ttl now c)
    = <[k := {| value := v; expiresAt := GoTime.Add now ttl |}]> (cache c) ∧
  ll (Add k v ttl now c)
    = match cache c !! k with
      | Some _ => GoList.MoveToFront k (ll c)
      | None => GoList.PushFront k (ll c)
      end.
Proof.
  intros Hmax. unfold Add. destruct (cache c !! k); [done|]. simpl.
  by rewrite Hmax.
Qed.

Lemma a3_step_wf_unbounded ev c :
  maxEntries c = 0%Z → store_wf (cache c) (ll c) →
  store_wf (cache (step ev c)) (ll (step ev c)).
Proof.
  intros Hmax Hwf. unfold step. destruct ev.2; simpl.
  - destruct (a3_Add_unbounded key val ttl ev.1 c Hmax) as [-> ->].
    destruct (cache c !! key) as [e|] eqn:Hk.
    + apply store_wf_update; [by eauto|]. by apply store_wf_move.
    + by apply store_wf_push.
  - unfold Get. destruct (cache c !! key) as [e|]; [|done].
    destruct (GoTime.After _ _); simpl; [by apply store_wf_remove|by apply store_wf_move].
  - unfold Remove. destruct (cache c !! key); [|done]. simpl. by apply store_wf_remove.
  - done.
Qed.

Lemma a3_run_wf_unbounded (h : list (event K V)) :
  store_wf (cache (run (New 0) h)) (ll (run (New 0) h)).
Proof.
  induction h as [|ev h IH]; simpl; [apply store_wf_empty|].
  apply a3_step_wf_unbounded; [|done]. by rewrite a3_run_maxEntries.
Qed.

Lemma a3_Add_negative maxEntries k v ttl now :
  (maxEntries < 0)%Z → Add k v ttl now (New maxEntries) = New (K:=K) (V:=V) maxEntries.
Proof.
  intros Hneg. unfold Add, New. simpl. rewrite lookup_empty.
  unfold GoList.Len, GoList.PushFront. simpl.
  destruct (Z.eqb_spec maxEntries 0); [lia|].
  destruct (Z.gtb_spec (Z.of_nat 1) maxEntries); [|lia]. simpl.
  unfold removeOldest, removeElement, GoList.Back. simpl.
  rewrite delete_insert_eq, delete_empty.
  by rewrite Remove_head by apply not_elem_of_nil.
Qed.

(** In a state where the list holds at most [maxEntries] elements, or with
    no limit, the key just added is stored. *)
Lemma a3_Add_lookup k v ttl now c :
  store_wf (cache c) (ll c) →
  maxEntries c = 0%Z ∨ (0 < maxEntries c)%Z →
  cache (Add k v ttl now c) !! k
    = Some {| value := v; expiresAt := GoTime.Add now ttl |}.
Proof.
  intros Hwf Hmax. unfold Add. destruct (cache c !! k) as [e|] eqn:Hk.
  - simpl. apply lookup_insert_eq.
  - simpl. destruct (negb _ && _) eqn:Hev; [|simpl; apply lookup_insert_eq].
    apply andb_true_iff in Hev as [Hnz Hgt].
    unfold removeOldest. simpl.
    destruct (GoList.Back (GoList.PushFront k (ll c))) as [tail|] eqn:Hback;
      [|simpl; apply lookup_insert_eq].
    simpl. destruct (decide (tail = k)) as [->|Hne].
    + exfalso. unfold GoList.Back, GoList.PushFront in Hback.
      destruct (ll c) as [|x l] eqn:Hl.
      * unfold GoList.Len, GoList.PushFront in Hgt. simpl in Hgt.
        apply negb_true_iff, Z.eqb_neq in Hnz.
        destruct (Z.gtb_spec (Z.of_nat 1) (maxEntries c)); [lia|done].
      * rewrite last_cons_cons in Hback.
        assert (k ∈ x :: l) as Hin.
        { apply last_Some in Hback as [l' ->]. apply elem_of_app. right. by left. }
        apply Hwf in Hin as [? ?]. congruence.
    + rewrite lookup_delete_ne by done. apply lookup_insert_eq.
Qed.
End Agent3More.

(** X22.  [New 0] and [Add] of src/agent3/lrucache/lrucache.go: a limit of 0
    means no limit.  In every state reached from [New 0], [Add] evicts
    nothing: the map afterwards is the old map with the entry of the key
    set, [Len] grows by one for a new key and is unchanged for a stored one,
    and [Len] is the number of stored keys. *)
Theorem x22_a3_zero_is_unbounded :
  ∀ (K : Type) (EqK : EqDecision K) (CntK : Countable K) (V : Type)
    (h : list (Agent3.event K V)) (k : K) (v : V) (ttl : Duration) (now : Time),
    let c := Agent3.run (Agent3.New 0) h in
    Agent3.cache (Agent3.Add k v ttl now c)
      = <[k := {| Agent3.value := v; Agent3.expiresAt := GoTime.Add now ttl |}]>
          (Agent3.cache c) ∧
    Agent3.Len (Agent3.Add k v ttl now c)
      = (match Agent3.cache c !! k with
         | Some _ => Agent3.Len c
         | None => Agent3.Len c + 1
         end)%Z ∧
    Agent3.Len (Agent3.Add k v ttl now c)
      = Z.of_nat (size (Agent3.cache (Agent3.Add k v ttl now c))).
Proof.
  intros K EqK CntK V h k v ttl now c.
  pose proof (a3_run_wf_unbounded (V:=V) h) as Hwf.
  pose proof (a3_run_wf_unbounded (V:=V) ((now, Agent3.CallAdd k v ttl) :: h)) as Hwf1.
  simpl in Hwf1. unfold Agent3.step in Hwf1. simpl in Hwf1.
  assert (Agent3.maxEntries c = 0%Z) as Hmax by apply a3_run_maxEntries.
  fold c in Hwf, Hwf1. clearbody c.
  rewrite (store_wf_size _ _ Hwf1).
  destruct (a3_Add_unbounded k v ttl now c Hmax) as [Hc Hl].
  split; [done|]. split; [|done].
  unfold Agent3.Len, GoList.Len. rewrite Hl.
  destruct (Agent3.cache c !! k).
  - rewrite MoveToFront_length; [done|apply Hwf].
  - unfold GoList.PushFront. simpl. lia.
Qed.

(** X23.  [New] and [Add] of src/agent3/lrucache/lrucache.go with a negative
    limit: [New] accepts it, and the cache never holds an entry: every [Add]
    evicts what it has just stored, so map and list stay empty after any
    calls and [Get] reports not-found right after an [Add]. *)
Theorem x23_a3_negative_limit_stores_nothing :
  ∀ (K : Type) (EqK : EqDecision K) (CntK : Countable K) (V : Type)
    (maxEntries : Z) (h : list (Agent3.event K V)),
    (maxEntries < 0)%Z →
    Agent3.cache (Agent3.run (Agent3.New maxEntries) h) = ∅ ∧
    Agent3.Len (Agent3.run (Agent3.New maxEntries) h) = 0%Z ∧
    (∀ k v ttl now now',
       (Agent3.Get k now'
          (Agent3.Add k v ttl now (Agent3.run (Agent3.New maxEntries) h))).2 = None).
Proof.
  intros K EqK CntK V maxEntries h Hneg.
  assert (Agent3.run (K:=K) (V:=V) (Agent3.New maxEntries) h = Agent3.New maxEntries)
    as Hrun.
  { induction h as [|ev h IH]; simpl; [done|]. rewrite IH.
    unfold Agent3.step. destruct ev.2; simpl; [by apply a3_Add_negative|done..]. }
  rewrite Hrun. split; [done|]. split; [done|].
  intros k v ttl now now'. by rewrite a3_Add_negative.
Qed.

Lemma x23_a3_negative_limit_stores_nothing_witness :
  Agent3.cache (Agent3.run (K:=string) (V:=nat) (Agent3.New (-1))
                  [(1%Z, Agent3.CallAdd "a" 1 60%Z)]) = ∅.
Proof.
  apply (x23_a3_negative_limit_stores_nothing string _ _ nat (-1)
           [(1%Z, Agent3.CallAdd "a" 1 60%Z)]). lia.
Defined.

(** X24.  [Add], [Get] and [Remove] of src/agent3/lrucache/lrucache.go, in
    every state reached from [New] with a limit that is not negative: after
    [Add] at reading [now] the key is found by [Get] at every reading up to
    and including [now + ttl]; at a later reading [Get] reports not-found and
    removes the entry; after [Remove] the key is not found, and the entries
    of the other keys are as before. *)
Theorem x24_a3_add_get_remove :
  ∀ (K : Type) (EqK : EqDecision K) (CntK : Countable K) (V : Type)
    (maxEntries : Z) (h : list (Agent3.event K V))
    (k : K) (v : V) (ttl : Duration) (now now' : Time),
    (0 ≤ maxEntries)%Z →
    let c1 := Agent3.Add k v ttl now (Agent3.run (Agent3.New maxEntries) h) in
    ((now' ≤ now + ttl)%Z → (Agent3.Get k now' c1).2 = Some v) ∧
    ((now + ttl < now')%Z →
     (Agent3.Get k now' c1).2 = None ∧
     Agent3.cache (Agent3.Get k now' c1).1 !! k = None) ∧
    (Agent3.Get k now' (Agent3.Remove k c1)).2 = None ∧
    (∀ k', k' ≠ k →
           Agent3.cache (Agent3.Remove k c1) !! k' = Agent3.cache c1 !! k').
Proof.
  intros K EqK CntK V maxEntries h k v ttl now now' Hmax c1.
  assert (Agent3.cache c1 !! k
          = Some {| Agent3.value := v; Agent3.expiresAt := GoTime.Add now ttl |}) as Hk.
  { unfold c1. apply a3_Add_lookup.
    - destruct (decide (maxEntries = 0%Z)) as [->|Hnz].
      + apply a3_run_wf_unbounded.
      + apply a3_run_inv, a3_New_inv. lia.
    - rewrite a3_run_maxEntries. simpl. lia. }
  clearbody c1. unfold Agent3.Get, Agent3.Remove. rewrite Hk. simpl.
  rewrite lookup_delete_eq. unfold GoTime.After, GoTime.Add.
  split; [|split; [|split]].
  - intros Hle. destruct (Z.ltb_spec (now + ttl) now'); [lia|done].
  - intros Hlt. destruct (Z.ltb_spec (now + ttl) now'); [|lia]. simpl.
    by rewrite lookup_delete_eq.
  - done.
  - intros k' Hne. by rewrite lookup_delete_ne.
Qed.

Lemma x24_a3_add_get_remove_witness :
  let c1 := Agent3.Add "a" 1 60%Z 0%Z
              (Agent3.run (K:=string) (V:=nat) (Agent3.New 1)
                 [(0%Z, Agent3.CallAdd "b" 2 60%Z)]) in
  (Agent3.Get "a" 61 (Agent3.Remove "a" c1)).2 = None.
Proof.
  intros c1.
  apply (x24_a3_add_get_remove string _ _ nat 1
           [(0%Z, Agent3.CallAdd "b" 2 60%Z)] "a" 1 60 0 61). lia.
Defined.

(** ** src/agent1/lru.go *)

Section Agent1Facts.
Context {V : Type}.
Import Agent1.
Implicit Types (c : LRUCache V) (k : string).

Lemma a1_New_inv capacity : inv (New (V:=V) capacity).
Proof.
  split; [apply store_wf_empty|]. simpl. unfold GoList.Len. simpl.
  destruct (Z.leb_spec capacity 0); lia.
Qed.

Lemma a1_remove_inv k c : inv c → inv (removeElement k c).
Proof.
  intros (Hwf & Hpos & Hle). split; [by apply store_wf_remove|]. simpl.
  split; [done|]. pose proof (Remove_length_le k (evictList c)).
  unfold GoList.Len in *. lia.
Qed.

Lemma a1_Set_inv k v ttl now c : inv c → inv (Set_ k v ttl now c).
Proof.
  intros (Hwf & Hpos & Hle). unfold Set_.
  destruct (items c !! k) as [e|] eqn:Hk.
  - split; [|split]; simpl; [|done|].
    + apply store_wf_update; [by eauto|]. by apply store_wf_move.
    + unfold GoList.Len in *. rewrite MoveToFront_length; [done|apply Hwf].
  - set (ent := Build_entry _ _). set (c1 := with_store c _ _).
    assert (store_wf (items c1) (evictList c1)) as Hwf1 by by apply store_wf_push.
    assert (capacity c1 = capacity c) as Hc1 by done.
    assert (evictList c1 = k :: evictList c) as Ho1 by done.
    clearbody c1.
    assert (length (evictList c1) = S (length (evictList c))) as Hlen1 by by rewrite Ho1.
    rewrite (store_wf_size _ _ Hwf1).
    destruct (Z.gtb_spec (Z.of_nat (length (evictList c1))) (capacity c1)) as [Hgt|Hle1].
    + unfold evictLRU. destruct (GoList.Back (evictList c1)) as [tail|] eqn:Hback.
      * apply Back_Some in Hback as [l' Hl'].
        assert (S (length (GoList.Remove tail (evictList c1))) = length (evictList c1))
          as Hlen.
        { apply Remove_length; [apply Hwf1|]. rewrite Hl'.
          apply elem_of_app. right. by left. }
        split; [by apply store_wf_remove|]. simpl. rewrite Hc1. split; [done|].
        unfold GoList.Len in *. lia.
      * apply last_None in Hback. rewrite Ho1 in Hback. done.
    + split; [done|]. rewrite Hc1 in *. split; [done|]. unfold GoList.Len. lia.
Qed.

Lemma a1_Get_inv k now c : inv c → inv (Get k now c).1.
Proof.
  intros Hinv. unfold Get. destruct (items c !! k) as [e|]; [|done].
  destruct (GoTime.After _ _); simpl; [by apply a1_remove_inv|].
  destruct Hinv as (Hwf & Hpos & Hle). split; [by apply store_wf_move|].
  simpl. split; [done|]. unfold GoList.Len in *.
  rewrite MoveToFront_length; [done|apply Hwf].
Qed.

Lemma a1_removeExpired_inv now c : inv c → inv (removeExpired now c).
Proof.
  unfold removeExpired. apply (foldl_preserves inv).
  intros c' k Hinv. destruct (items c' !! k) as [e|]; [|done].
  destruct (GoTime.After _ _); [|done]. by apply a1_remove_inv.
Qed.

Lemma a1_step_inv ev c : inv c → inv (step ev c).
Proof.
  intros Hinv. unfold step. destruct ev.2; simpl.
  - by apply a1_Set_inv.
  - by apply a1_Get_inv.
  - unfold Delete. destruct (items c !! key); [|done]. by apply a1_remove_inv.
  - destruct Hinv as (_ & Hpos & _). split; [apply store_wf_empty|]. simpl.
    unfold GoList.Len. simpl. lia.
  - done.
  - by apply a1_removeExpired_inv.
Qed.

Lemma a1_run_inv c0 (h : list (event V)) : inv c0 → inv (run c0 h).
Proof. intros H0. induction h as [|ev h IH]; simpl; [done|]. by apply a1_step_inv. Qed.

(** No call but [Close] touches the capacity or the stop channel. *)
Lemma a1_step_fixed ev c :
  capacity (step ev c) = capacity c ∧ stopChan (step ev c) = stopChan c.
Proof.
  unfold step. destruct ev.2; simpl.
  - unfold Set_. destruct (items c !! key); [done|].
    destruct (_ >? _)%Z; [|done]. unfold evictLRU. by destruct (GoList.Back _).
  - unfold Get. destruct (items c !! key) as [e|]; [|done].
    by destruct (GoTime.After _ _).
  - unfold Delete. by destruct (items c !! key).
  - done.
  - done.
  - unfold removeExpired.
    apply (foldl_preserves
             (λ c' : LRUCache V, capacity c' = capacity c ∧ stopChan c' = stopChan c));
      [|done].
    intros c' k [<- <-]. destruct (items c' !! k) as [e|]; [|done].
    by destruct (GoTime.After _ _).
Qed.

Lemma a1_run_fixed c0 (h : list (event V)) :
  capacity (run c0 h) = capacity c0 ∧ stopChan (run c0 h) = stopChan c0.
Proof.
  induction h as [|ev h [IH1 IH2]]; simpl; [done|].
  destruct (a1_step_fixed ev (run c0 h)) as [-> ->]. done.
Qed.
End Agent1Facts.

(** X25.  [New] and the calls of src/agent1/lru.go: [New] replaces a capacity
    of zero or less by 1, and in every state reached from it by any calls
    and sweeps the list has no duplicates and holds exactly the keys of the
    map, and [Len] is at most the capacity in force: the given one, or 1. *)
Theorem x25_a1_capacity_clamped_and_kept :
  ∀ (V : Type) (capacity : Z) (h : list (Agent1.event V)),
    let c := Agent1.run (Agent1.New capacity) h in
    Agent1.capacity c = Z.max capacity 1 ∧
    NoDup (Agent1.evictList c) ∧
    (∀ k, k ∈ Agent1.evictList c ↔ is_Some (Agent1.items c !! k)) ∧
    (Agent1.Len c ≤ Z.max capacity 1)%Z.
Proof.
  intros V capacity h c.
  pose proof (a1_run_inv _ h (a1_New_inv (V:=V) capacity)) as (Hwf & _ & Hle).
  destruct (a1_run_fixed (Agent1.New (V:=V) capacity) h) as [Hcap _].
  fold c in Hwf, Hle, Hcap.
  assert (Agent1.capacity c = Z.max capacity 1) as Hcap'.
  { rewrite Hcap. simpl. destruct (Z.leb_spec capacity 0); lia. }
  clearbody c. split; [done|]. split; [apply Hwf|]. split; [apply Hwf|].
  unfold Agent1.Len. rewrite (store_wf_size _ _ Hwf). unfold GoList.Len in Hle. lia.
Qed.

(** X26.  [Close] of src/agent1/lru.go, in every state reached from [New] by
    calls other than [Close]: the first [Close] returns and leaves the cache
    empty, so [Len] is 0 and every [Get] reports not-found; the cache still
    accepts calls, but whatever calls follow, a second [Close] panics,
    because it closes the stop channel again. *)
Theorem x26_a1_close_clears_then_panics :
  ∀ (V : Type) (capacity : Z) (h h' : list (Agent1.event V)),
    ∃ c1, Agent1.Close (Agent1.run (Agent1.New capacity) h) = Some c1 ∧
          Agent1.items c1 = ∅ ∧ Agent1.evictList c1 = [] ∧
          Agent1.Len c1 = 0%Z ∧
          (∀ k now, (Agent1.Get k now c1).2 = None) ∧
          Agent1.Close (Agent1.run c1 h') = None.
Proof.
  intros V capacity h h'.
  destruct (a1_run_fixed (Agent1.New (V:=V) capacity) h) as [_ Hstop].
  unfold Agent1.Close at 1. rewrite Hstop. simpl.
  eexists. split; [reflexivity|]. split; [done|]. split; [done|]. split; [done|].
  split; [done|].
  unfold Agent1.Close.
  destruct (a1_run_fixed
              (Agent1.Clear
                 {| Agent1.capacity := Agent1.capacity (Agent1.run (Agent1.New capacity) h);
                    Agent1.items := Agent1.items (Agent1.run (Agent1.New capacity) h);
                    Agent1.evictList :=
                      Agent1.evictList (Agent1.run (Agent1.New capacity) h);
                    Agent1.stopChan := {| GoChan.closed := true |} |}) h') as [_ ->].
  done.
Qed.

(** X27.  One sweep ([removeExpired]) of src/agent1/lru.go, in every state
    reached from [New]: an entry is stored afterwards exactly when it was
    stored before and the reading is not after its expiry; the list keeps
    the remaining keys in their order; and the sweep agrees with [Get]: at
    the reading of the sweep [Get] answers the same before and after it. *)
Theorem x27_a1_sweep_exact :
  ∀ (V : Type) (capacity : Z) (h : list (Agent1.event V)) (now : Time),
    let c := Agent1.run (Agent1.New capacity) h in
    let c' := Agent1.removeExpired now c in
    (∀ k ent, Agent1.items c' !! k = Some ent ↔
              Agent1.items c !! k = Some ent ∧ (now ≤ Agent1.expiresAt ent)%Z) ∧
    Agent1.evictList c'
      = filter (λ k, is_Some (Agent1.items c' !! k)) (Agent1.evictList c) ∧
    (∀ k, (Agent1.Get k now c').2 = (Agent1.Get k now c).2).
Proof.
  intros V capacity h now c c'.
  pose proof (a1_run_inv _ h (a1_New_inv (V:=V) capacity)) as (Hwf & _).
  fold c in Hwf. clearbody c.
  assert (∀ k, Agent1.items c' !! k
               = match Agent1.items c !! k with
                 | Some e => if GoTime.After now (Agent1.expiresAt e) then None else Some e
                 | None => None
                 end) as Hlook.
  { intros k. unfold c', Agent1.removeExpired.
    rewrite (sweep_lookup Agent1.items Agent1.removeElement
               (λ e, GoTime.After now (Agent1.expiresAt e)) (λ _ _, eq_refl)).
    destruct (Agent1.items c !! k) as [e|] eqn:Hk; [|done].
    by rewrite bool_decide_eq_true_2 by (rewrite elem_of_reverse; apply Hwf; eauto). }
  split; [|split].
  - intros k ent. rewrite Hlook. unfold GoTime.After.
    destruct (Agent1.items c !! k) as [e|]; [|split; [done|by intros [? _]]].
    destruct (Z.ltb_spec (Agent1.expiresAt e) now).
    + split; [done|]. intros [[= <-] ?]. lia.
    + split; [intros [= <-]; split; [done|lia]|]. by intros [? _].
  - apply (sweep_order Agent1.items Agent1.evictList Agent1.removeElement
             (λ e, GoTime.After now (Agent1.expiresAt e))
             (λ _ _, eq_refl) (λ _ _, eq_refl) (reverse (Agent1.evictList c)) c Hwf).
  - intros k. unfold Agent1.Get. rewrite Hlook.
    destruct (Agent1.items c !! k) as [e|]; [|done].
    destruct (GoTime.After now (Agent1.expiresAt e)) eqn:Hexp; [done|].
    by rewrite Hexp.
Qed.

(** ** src/unnamed/part_006, package lru with a janitor *)

(** X28.  [New], [WithCapacity], [WithJanitorInterval] and the calls of
    src/unnamed/part_006, with options built by [WithCapacity] and
    [WithJanitorInterval].  [New] returns a cache only when the janitor
    interval the options leave is positive: with a last
    [WithJanitorInterval d], [d <= 0], the janitor goroutine panics in
    [time.NewTicker].  It checks the capacity only in its argument, so
    [WithCapacity] can set any limit, zero and negative ones included.  In
    every state reached from a cache [New] returns, the limit stays what
    the options left, the list has no duplicates and holds exactly the keys
    of the map, and [Len] is at most the limit, or at most 1 when the limit
    is not positive. *)
Theorem x28_p6_store_bound :
  ∀ (K : Type) (EqK : EqDecision K) (CntK : Countable K) (V : Type)
    (capacity : Z) (opts : list (Part006.Option (K:=K) (V:=V)))
    (c0 : Part006.Cache K V) (h : list (Part006.event K V)),
    Forall Part006.exported opts →
    Part006.New capacity opts = Some c0 →
    let c := Part006.run c0 h in
    (∃ j, Part006.janitor_ c0 = Some j ∧ (0 < Part006.interval j)%Z) ∧
    (∀ d, (d ≤ 0)%Z →
          Part006.New (K:=K) (V:=V) capacity (opts ++ [Part006.WithJanitorInterval d])
          = None) ∧
    Part006.Capacity c = Part006.Capacity c0 ∧
    (∀ n, Part006.Capacity
            (default c0 (Part006.New capacity (opts ++ [Part006.WithCapacity n]))) = n) ∧
    NoDup (Part006.lst c) ∧
    (∀ k, k ∈ Part006.lst c ↔ is_Some (Part006.items c !! k)) ∧
    (Part006.Len c ≤ Z.max (Part006.Capacity c0) 1)%Z.
Proof.
  intros K EqK CntK V capacity opts c0 h Hopts Hnew c.
  pose proof (p6_run_inv c0 h (p6_New_inv _ _ _ Hopts Hnew)) as (Hwf & Hle).
  pose proof (p6_run_cap c0 h) as Hcap. fold c in Hwf, Hle, Hcap. clearbody c.
  unfold Part006.Capacity, Part006.Len. rewrite Hcap in Hle.
  split; [by apply (p6_New_interval capacity opts)|].
  split; [intros d Hd; by apply p6_New_bad_interval|].
  split; [done|]. split; [|split; [apply Hwf|split; [apply Hwf|done]]].
  intros n. by destruct (p6_New_WithCapacity _ _ _ n Hnew) as (c1 & -> & Hn).
Qed.

Lemma x28_p6_store_bound_witness :
  (Part006.Len
     (Part006.run (K:=string) (V:=Z)
        {| Part006.cap := 0; Part006.items := ∅; Part006.lst := [];
           Part006.janitor_ :=
             Some {| Part006.interval := (30 * GoTime.Second)%Z;
                     Part006.stop := GoChan.make |} |}
        [(1%Z, Part006.CallSet "b" 2 0%Z); (0%Z, Part006.CallSet "a" 1 0%Z)])
   ≤ Z.max 0 1)%Z.
Proof.
  assert (Forall (Part006.exported (K:=string) (V:=Z)) [Part006.WithCapacity 0])
    as Hopts.
  { constructor; [left; by exists 0%Z|constructor]. }
  destruct (x28_p6_store_bound string _ _ Z 2 [Part006.WithCapacity 0] _
              [(1%Z, Part006.CallSet "b" 2%Z 0%Z); (0%Z, Part006.CallSet "a" 1%Z 0%Z)]
              Hopts eq_refl) as (_ & _ & _ & _ & _ & _ & Hle).
  exact Hle.
Defined.

(** X29.  [Close] of src/unnamed/part_006, in every state of the cache: it
    never panics, whether the janitor's stop channel is open, already closed
    or the janitor is nil; map, list and limit are untouched; and a second
    [Close] changes nothing. *)
Theorem x29_p6_close_any_number_of_times :
  ∀ (K : Type) (EqK : EqDecision K) (CntK : Countable K) (V : Type)
    (c : Part006.Cache K V),
    ∃ c1, Part006.Close c = Some c1 ∧
          Part006.Close c1 = Some c1 ∧
          Part006.items c1 = Part006.items c ∧
          Part006.lst c1 = Part006.lst c ∧
          Part006.Capacity c1 = Part006.Capacity c ∧
          (∀ j, Part006.janitor_ c = Some j →
                ∃ j1, Part006.janitor_ c1 = Some j1 ∧
                      GoChan.closed (Part006.stop j1) = true).
Proof.
  intros K EqK CntK V c. unfold Part006.Close, Part006.Capacity.
  destruct (Part006.janitor_ c) as [j|] eqn:Hj.
  - destruct (GoChan.closed (Part006.stop j)) eqn:Hcl.
    + exists c. rewrite Hj, Hcl. repeat (split; [done|]).
      intros j' [= <-]. eauto.
    + unfold GoChan.close. rewrite Hcl. simpl. eexists. split; [reflexivity|].
      simpl. repeat (split; [done|]). intros j' _. eauto.
  - exists c. rewrite Hj. repeat (split; [done|]). done.
Qed.

(** X30.  One janitor scan ([expireScan]) of src/unnamed/part_006, with
    options built by [WithCapacity] and [WithJanitorInterval], in every
    state reached from a cache that [New] returns (the janitor interval is
    then positive, so the janitor runs): an entry is stored afterwards
    exactly when it
    was stored before and its TTL is zero or negative or the reading is not
    after its expiry; the list keeps the remaining keys in their order; and
    [Get] and [Peek] at the reading of the scan answer the same before and
    after it. *)
Theorem x30_p6_scan_exact :
  ∀ (K : Type) (EqK : EqDecision K) (CntK : Countable K) (V : Type)
    (capacity : Z) (opts : list (Part006.Option (K:=K) (V:=V)))
    (c0 : Part006.Cache K V) (h : list (Part006.event K V)) (now : Time),
    Forall Part006.exported opts →
    Part006.New capacity opts = Some c0 →
    let c := Part006.run c0 h in
    let c' := Part006.expireScan now c in
    (∀ k ent, Part006.items c' !! k = Some ent ↔
              Part006.items c !! k = Some ent ∧
              ((Part006.ttl ent ≤ 0)%Z ∨ (now ≤ Part006.expiresAt ent)%Z)) ∧
    Part006.lst c'
      = filter (λ k, is_Some (Part006.items c' !! k)) (Part006.lst c) ∧
    (∀ k, (Part006.Get k now c').2 = (Part006.Get k now c).2 ∧
          (Part006.Peek k now c').2 = (Part006.Peek k now c).2).
Proof.
  intros K EqK CntK V capacity opts c0 h now Hopts Hnew c c'.
  pose proof (p6_run_inv c0 h (p6_New_inv _ _ _ Hopts Hnew)) as (Hwf & _).
  fold c in Hwf. clearbody c.
  assert (∀ k, Part006.items c' !! k
               = match Part006.items c !! k with
                 | Some e => if (Part006.ttl e >? 0)%Z
                                && GoTime.After now (Part006.expiresAt e)
                             then None else Some e
                 | None => None
                 end) as Hlook.
  { intros k. unfold c', Part006.expireScan.
    rewrite (sweep_lookup Part006.items Part006.removeElementLocked
               (λ e, (Part006.ttl e >? 0)%Z && GoTime.After now (Part006.expiresAt e))
               (λ _ _, eq_refl)).
    destruct (Part006.items c !! k) as [e|] eqn:Hk; [|done].
    by rewrite bool_decide_eq_true_2 by (rewrite elem_of_reverse; apply Hwf; eauto). }
  split; [|split].
  - intros k ent. rewrite Hlook. unfold GoTime.After.
    destruct (Part006.items c !! k) as [e|]; [|split; [done|by intros [? _]]].
    destruct (Z.gtb_spec (Part006.ttl e) 0); simpl.
    + destruct (Z.ltb_spec (Part006.expiresAt e) now).
      * split; [done|]. intros [[= <-] [?|?]]; lia.
      * split; [intros [= <-]; split; [done|lia]|]. by intros [? _].
    + split; [intros [= <-]; split; [done|lia]|]. by intros [? _].
  - apply (sweep_order Part006.items Part006.lst Part006.removeElementLocked
             (λ e, (Part006.ttl e >? 0)%Z && GoTime.After now (Part006.expiresAt e))
             (λ _ _, eq_refl) (λ _ _, eq_refl) (reverse (Part006.lst c)) c Hwf).
  - intros k. unfold Part006.Get, Part006.Peek. rewrite Hlook.
    destruct (Part006.items c !! k) as [e|]; [|done].
    destruct (_ && _) eqn:Hexp; [done|]. by rewrite Hexp.
Qed.

Lemma x30_p6_scan_exact_witness :
  let c := Part006.run (K:=string) (V:=nat)
       {| Part006.cap := 2; Part006.items := ∅; Part006.lst := [];
          Part006.janitor_ :=
            Some {| Part006.interval := (30 * GoTime.Second)%Z;
                    Part006.stop := GoChan.make |} |}
       [(1%Z, Part006.CallSet "b" 2 0%Z); (0%Z, Part006.CallSet "a" 1 3%Z)] in
  (Part006.Get "a" 5 (Part006.expireScan 5 c)).2 = (Part006.Get "a" 5 c).2.
Proof.
  intros c.
  apply (x30_p6_scan_exact string _ _ nat 2 [] _
           [(1%Z, Part006.CallSet "b" 2 0%Z); (0%Z, Part006.CallSet "a" 1 3%Z)] 5
           (List.Forall_nil _) eq_refl).
Defined.
